(** * Patch-parallel group normalisation (patchvae/models/normalization.py)

    A shallow embedding of the three layers of the module, [AdaGroupNorm],
    [PatchAdaGroupNorm] and [PatchGroupNorm], and of the lock-step execution
    of one forward call by a group of workers.

    Numbers.  Floating-point tensor elements are idealised as real numbers
    ([R]): every statement below is about exact arithmetic.  Tensor extents
    and group counts are [nat]; the [int64] tensors the code builds for the
    height exchange are [Z] with two's-complement wrap-around ([wrap64]).

    Tensors.  A tensor is its shape together with its element function; only
    the indices inside the shape are meaningful.  Tensors are assumed
    contiguous, so [view] only re-indexes.

    Collectives.  [dist.all_gather] is the one effect of the code.  A forward
    call is a program ([Prog]) that either returns, raises, or posts an
    all-gather and waits for the rank-ordered list of every worker's
    contribution.  [run_group] runs one program per worker in lock-step. *)

From Stdlib Require Import Reals Lra Lia ZArith List Bool Arith PeanoNat.
From Stdlib Require String.
Import ListNotations.

Open Scope R_scope.

(** ** Tensors *)

(** A 4-D tensor [batch, channel, height, width]. *)
Record Tensor4 : Type := mkT4 {
  dimB : nat; dimC : nat; dimH : nat; dimW : nat;
  at4 : nat -> nat -> nat -> nat -> R
}.

(** A 5-D tensor [batch, group, channel-in-group, height, width]. *)
Record Tensor5 : Type := mkT5 {
  d5B : nat; d5G : nat; d5K : nat; d5H : nat; d5W : nat;
  at5 : nat -> nat -> nat -> nat -> nat -> R
}.

(** A 2-D tensor, [batch, group] for the exchanged partial sums and
    [batch, features] for embeddings. *)
Record Tensor2 : Type := mkT2 {
  rows : nat; cols : nat;
  at2 : nat -> nat -> R
}.

Definition numel2 (t : Tensor2) : nat := (rows t * cols t)%nat.

Definition same_shape2 (t u : Tensor2) : bool :=
  (rows t =? rows u)%nat && (cols t =? cols u)%nat.

(** [sum_n n f] is f 0 + ... + f (n-1), the reduction of one axis. *)
Fixpoint sum_n (n : nat) (f : nat -> R) : R :=
  match n with
  | O => 0
  | S k => sum_n k f + f k
  end.

(** Sum of a list of reals ([Tensor.sum] over a stacked axis). *)
Fixpoint sum_list (l : list R) : R :=
  match l with
  | [] => 0
  | a :: r => a + sum_list r
  end.

(** ** Machine integers *)

(** Two's-complement wrap-around of [torch.int64] arithmetic. *)
Definition wrap64 (z : Z) : Z :=
  ((z + 2 ^ 63) mod 2 ^ 64 - 2 ^ 63)%Z.

Fixpoint sum_int64 (l : list Z) : Z :=
  match l with
  | [] => 0%Z
  | a :: r => wrap64 (a + sum_int64 r)
  end.

(** ** Errors and programs *)

Inductive error : Type :=
| ZeroDivisionError      (* [x.shape[1] // 0] *)
| NotExpandable          (* [sum_to_size]: size is not expandable to the tensor's size *)
| NotOneElement          (* [torch.tensor] of a list of tensors that are not one-element *)
| InvalidView            (* [view]: shape is invalid for the input size, or -1 is ambiguous *)
| BroadcastMismatch      (* elementwise operation on shapes that do not broadcast *)
| NoneNotSubscriptable   (* [self.weight[...]] with [affine=False] *)
| ShapeMismatch          (* matrix product or [group_norm] with inconsistent sizes *)
| UnsupportedActivation  (* [get_activation] of a name it does not know *)
| ConfigurationError.    (* [num_channels must be divisible by num_groups] *)

Inductive Prog (A : Type) : Type :=
| Ret (a : A)
| Raise (e : error)
| AllGatherInt (v : Z) (k : list Z -> Prog A)
| AllGather (t : Tensor2) (k : list Tensor2 -> Prog A).

Arguments Ret {A} a.
Arguments Raise {A} e.
Arguments AllGatherInt {A} v k.
Arguments AllGather {A} t k.

Fixpoint bind {A B : Type} (p : Prog A) (f : A -> Prog B) : Prog B :=
  match p with
  | Ret a => f a
  | Raise e => Raise e
  | AllGatherInt v k => AllGatherInt v (fun l => bind (k l) f)
  | AllGather t k => AllGather t (fun l => bind (k l) f)
  end.

Notation "x <- c1 ;; c2" := (bind c1 (fun x => c2))
  (at level 61, c1 at next level, right associativity).

(** ** Lock-step execution of a group of workers *)

(** One completed collective round, with what the workers contributed to
    it, in rank order. *)
Inductive round : Type :=
| IntExchange (vs : list Z)             (* an all-gather of int64 values *)
| TensorExchange (ts : list Tensor2).   (* an all-gather of float tensors *)

Inductive outcome (A : Type) : Type :=
| Done (results : list A)    (* every worker returned, in rank order *)
| Failed (e : error)         (* some worker raised: fatal to the group *)
| Stuck                      (* the workers do not post matching collectives *)
| OutOfFuel.

Arguments Done {A} results.
Arguments Failed {A} e.
Arguments Stuck {A}.
Arguments OutOfFuel {A}.

Fixpoint first_raise {A : Type} (ps : list (Prog A)) : option error :=
  match ps with
  | [] => None
  | Raise e :: _ => Some e
  | _ :: r => first_raise r
  end.

Fixpoint all_ret {A : Type} (ps : list (Prog A)) : option (list A) :=
  match ps with
  | [] => Some []
  | Ret a :: r => option_map (cons a) (all_ret r)
  | _ :: _ => None
  end.

Fixpoint all_int {A : Type} (ps : list (Prog A))
  : option (list (Z * (list Z -> Prog A))) :=
  match ps with
  | [] => Some []
  | AllGatherInt v k :: r => option_map (cons (v, k)) (all_int r)
  | _ :: _ => None
  end.

Fixpoint all_tensor {A : Type} (ps : list (Prog A))
  : option (list (Tensor2 * (list Tensor2 -> Prog A))) :=
  match ps with
  | [] => Some []
  | AllGather t k :: r => option_map (cons (t, k)) (all_tensor r)
  | _ :: _ => None
  end.

(** Every contribution has the shape of the first one. *)
Definition uniform_shape (ts : list Tensor2) : bool :=
  match ts with
  | [] => true
  | t :: r => forallb (same_shape2 t) r
  end.

(** [run_group fuel ps] runs the workers' programs [ps] (in rank order).
    In each round either some worker has raised, or all have returned, or
    all post the same kind of all-gather, whose rank-ordered list of
    contributions is handed to every worker.  The first component is the
    sequence of collective rounds that were completed. *)
Fixpoint run_group {A : Type} (fuel : nat) (ps : list (Prog A))
  : list round * outcome A :=
  match fuel with
  | O => ([], OutOfFuel)
  | S fuel' =>
    match first_raise ps with
    | Some e => ([], Failed e)
    | None =>
      match all_ret ps with
      | Some rs => ([], Done rs)
      | None =>
        match all_int ps with
        | Some vks =>
          let vs := map fst vks in
          let '(log, o) := run_group fuel' (map (fun vk => snd vk vs) vks) in
          (IntExchange vs :: log, o)
        | None =>
          match all_tensor ps with
          | Some tks =>
            let ts := map fst tks in
            if uniform_shape ts then
              let '(log, o) := run_group fuel' (map (fun tk => snd tk ts) tks) in
              (TensorExchange ts :: log, o)
            else ([], Stuck)
          | None => ([], Stuck)
          end
        end
      end
    end
  end.

(** ** Tensor operations used by the layers *)

(** [x.view(B, G, -1, H, W)] of a contiguous [B, C, H, W] tensor.  The -1
    extent is inferred from the element count; the view is refused when the
    known extents multiply to 0 or do not divide the element count. *)
Definition view5 (x : Tensor4) (G : nat) : Prog Tensor5 :=
  let numel := (dimB x * dimC x * dimH x * dimW x)%nat in
  let newsize := (dimB x * G * dimH x * dimW x)%nat in
  if (0 <? newsize)%nat && (numel mod newsize =? 0)%nat then
    let K := (numel / newsize)%nat in
    Ret (mkT5 (dimB x) G K (dimH x) (dimW x)
              (fun b g k h w => at4 x b (g * K + k)%nat h w))
  else Raise InvalidView.

(** [x.view(B, -1, H, W)] of a contiguous [B, G, K, H, W] tensor. *)
Definition view4 (x : Tensor5) : Prog Tensor4 :=
  let numel := (d5B x * d5G x * d5K x * d5H x * d5W x)%nat in
  let newsize := (d5B x * d5H x * d5W x)%nat in
  if (0 <? newsize)%nat && (numel mod newsize =? 0)%nat then
    Ret (mkT4 (d5B x) (numel / newsize) (d5H x) (d5W x)
              (fun b c h w => at5 x b (c / d5K x)%nat (c mod d5K x)%nat h w))
  else Raise InvalidView.

(** [x.sum_to_size(B, G, 1, 1, 1)] of a [B, G, K, H, W] tensor: the last
    three axes are reduced.  The [B, G, 1, 1, 1] result is kept as the
    [B, G] tensor that the all-gather buffers hold. *)
Definition sum_to_size5 (x : Tensor5) : Tensor2 :=
  mkT2 (d5B x) (d5G x)
       (fun b g => sum_n (d5K x) (fun k =>
                   sum_n (d5H x) (fun h =>
                   sum_n (d5W x) (fun w => at5 x b g k h w)))).

(** One trailing axis of [sum_to_size]: it is reduced when the requested
    extent is 1 and the tensor's is not, and kept otherwise. *)
Definition reduce_axis (target size i : nat) (f : nat -> R) : R :=
  if (target =? 1)%nat && negb (size =? 1)%nat then sum_n size f else f i.

(** [x.sum_to_size(s0, s1)] of a [B, C, H, W] tensor.  The requested size is
    aligned with the trailing axes (height, width) and must be expandable to
    them; the two leading axes (batch, channel) are always reduced. *)
Definition sum_to_size2 (x : Tensor4) (s0 s1 : nat) : Prog Tensor2 :=
  if ((s1 =? dimW x)%nat || (s1 =? 1)%nat) && ((s0 =? dimH x)%nat || (s0 =? 1)%nat)
  then Ret (mkT2 s0 s1 (fun i j =>
         sum_n (dimB x) (fun b =>
         sum_n (dimC x) (fun c =>
         reduce_axis s0 (dimH x) i (fun h =>
         reduce_axis s1 (dimW x) j (fun w => at4 x b c h w))))))
  else Raise NotExpandable.

(** [torch.stack(l, dim=0).sum(dim=0)] for a list of [B, G] buffers. *)
Definition stack_sum (B G : nat) (l : list Tensor2) : Tensor2 :=
  mkT2 B G (fun b g => sum_list (map (fun t => at2 t b g) l)).

(** [torch.tensor(l)] for a list of tensors: every entry is converted to a
    Python scalar, which only a one-element tensor allows. *)
Definition tensor_of_list (l : list Tensor2) : Prog (list R) :=
  if forallb (fun t => (numel2 t =? 1)%nat) l
  then Ret (map (fun t => at2 t 0%nat 0%nat) l)
  else Raise NotOneElement.

(** [t / n] for a float tensor and an int64 scalar. *)
Definition div_int64 (t : Tensor2) (n : Z) : Tensor2 :=
  mkT2 (rows t) (cols t) (fun b g => at2 t b g / IZR n).

(** [x - E[:, :, None, None, None]]. *)
Definition sub5 (x : Tensor5) (E : Tensor2) : Tensor5 :=
  mkT5 (d5B x) (d5G x) (d5K x) (d5H x) (d5W x)
       (fun b g k h w => at5 x b g k h w - at2 E b g).

(** [x ** 2]. *)
Definition square5 (x : Tensor5) : Tensor5 :=
  mkT5 (d5B x) (d5G x) (d5K x) (d5H x) (d5W x)
       (fun b g k h w => at5 x b g k h w * at5 x b g k h w).

(** Elementwise operations with a 0-dim tensor on a [B, C, H, W] tensor. *)
Definition map4 (f : R -> R) (x : Tensor4) : Tensor4 :=
  mkT4 (dimB x) (dimC x) (dimH x) (dimW x) (fun b c h w => f (at4 x b c h w)).

(** Broadcasting of one axis: equal extents, or one of them is 1. *)
Definition broadcast (n m : nat) : option nat :=
  if (n =? m)%nat then Some n
  else if (n =? 1)%nat then Some m
  else if (m =? 1)%nat then Some n
  else None.

(** Index into an axis of extent [n] of a broadcast operand. *)
Definition pick (n i : nat) : nat := if (n =? 1)%nat then 0%nat else i.

(** A 1-D parameter vector. *)
Record Tensor1 : Type := mkT1 { len : nat; at1 : nat -> R }.

(** [x * weight[None, :, None, None] + bias[None, :, None, None]]. *)
Definition affine4 (x : Tensor4) (weight bias : Tensor1) : Prog Tensor4 :=
  match broadcast (dimC x) (len weight) with
  | None => Raise BroadcastMismatch
  | Some c1 =>
    match broadcast c1 (len bias) with
    | None => Raise BroadcastMismatch
    | Some c2 =>
      Ret (mkT4 (dimB x) c2 (dimH x) (dimW x)
             (fun b c h w =>
                at4 x b (pick (dimC x) (pick c1 c)) h w
                * at1 weight (pick (len weight) (pick c1 c))
                + at1 bias (pick (len bias) c)))
    end
  end.

(** [x * (1 + scale) + shift] where [scale] and [shift] are
    [Be, out_dim, 1, 1]. *)
Definition scale_shift4 (x : Tensor4) (scale shift : Tensor2) : Prog Tensor4 :=
  match broadcast (dimB x) (rows scale), broadcast (dimC x) (cols scale) with
  | Some b1, Some c1 =>
    match broadcast b1 (rows shift), broadcast c1 (cols shift) with
    | Some b2, Some c2 =>
      Ret (mkT4 b2 c2 (dimH x) (dimW x)
             (fun b c h w =>
                at4 x (pick (dimB x) (pick b1 b)) (pick (dimC x) (pick c1 c)) h w
                * (1 + at2 scale (pick (rows scale) (pick b1 b))
                                 (pick (cols scale) (pick c1 c)))
                + at2 shift (pick (rows shift) b) (pick (cols shift) c)))
    | _, _ => Raise BroadcastMismatch
    end
  | _, _ => Raise BroadcastMismatch
  end.

(** ** The conditioning projector *)

(** [nn.Linear(in_features, out_features)] with its parameters. *)
Record Linear : Type := mkLinear {
  in_features : nat; out_features : nat;
  lin_weight : nat -> nat -> R;       (* [out_features, in_features] *)
  lin_bias : nat -> R
}.

Definition linear_apply (l : Linear) (emb : Tensor2) : Prog Tensor2 :=
  if (cols emb =? in_features l)%nat then
    Ret (mkT2 (rows emb) (out_features l)
           (fun b j => sum_n (in_features l) (fun i => at2 emb b i * lin_weight l j i)
                       + lin_bias l j))
  else Raise ShapeMismatch.

(** [emb.chunk(2, dim=1)]: two pieces of ceil(cols / 2) and the rest. *)
Definition chunk2 (t : Tensor2) : Tensor2 * Tensor2 :=
  let split := ((cols t + 1) / 2)%nat in
  (mkT2 (rows t) split (at2 t),
   mkT2 (rows t) (cols t - split) (fun b j => at2 t b (split + j)%nat)).

Definition map2 (f : R -> R) (t : Tensor2) : Tensor2 :=
  mkT2 (rows t) (cols t) (fun b j => f (at2 t b j)).

(** Lines 38-42 and 64-68: activation, projection, split. *)
Definition project (act : option (R -> R)) (lin : Linear) (emb : Tensor2)
  : Prog (Tensor2 * Tensor2) :=
  let emb := match act with Some f => map2 f emb | None => emb end in
  emb <- linear_apply lin emb ;;
  Ret (chunk2 emb).

(** ** Collective calls *)

(** [dist.all_gather(height_list, torch.tensor([h], dtype=torch.int64))]:
    the buffers, one per rank ([dist.get_world_size()] of them), come back
    filled in rank order. *)
Definition all_gather_int (v : Z) : Prog (list Z) := AllGatherInt v Ret.

(** [dist.all_gather(buffers, t)] for [B, G] float buffers. *)
Definition all_gather (t : Tensor2) : Prog (list Tensor2) := AllGather t Ret.

(** [channels_per_group * height * x.shape[-1]]: a Python int times a 0-dim
    int64 tensor, times a Python int. *)
Definition count_elements (channels_per_group : nat) (height : Z) (width : nat) : Z :=
  wrap64 (wrap64 (Z.of_nat channels_per_group * height) * Z.of_nat width).

(** Lines 70-73 and 146-150: every worker contributes its height extent
    and sums the gathered list. *)
Definition resolve_height (x : Tensor4) : Prog Z :=
  height_list <- all_gather_int (Z.of_nat (dimH x)) ;;
  Ret (sum_int64 height_list).

(** ** Single-worker group normalisation *)

(** The sum of [phi] over the elements of group [g] of batch entry [b]:
    the group's channels, all rows, all columns. *)
Definition group_total (phi : R -> R) (G : nat) (x : Tensor4) (b g : nat) : R :=
  let cpg := (dimC x / G)%nat in
  sum_n cpg (fun k => sum_n (dimH x) (fun h => sum_n (dimW x) (fun w =>
    phi (at4 x b (g * cpg + k)%nat h w)))).

Definition sq_dev (E v : R) : R := (v - E) * (v - E).

Definition group_mean (G : nat) (x : Tensor4) (b g : nat) : R :=
  group_total (fun v => v) G x b g / INR (dimC x / G * dimH x * dimW x).

(** The biased estimator: the squared deviations from the group's mean,
    divided by the number of elements of the group. *)
Definition group_var (G : nat) (x : Tensor4) (b g : nat) : R :=
  group_total (sq_dev (group_mean G x b g)) G x b g
  / INR (dimC x / G * dimH x * dimW x).

(** Modelled from the spec: [F.group_norm(x, num_groups, eps=eps)] is
    PyTorch's, not this repository's.  It is the unsharded baseline of the
    spec and of the docstring of [PatchGroupNorm]: the channels are split
    into [num_groups] contiguous groups of equal size, each (batch, group)
    has its mean and its biased variance over all its elements, and
    y = (x - E[x]) / sqrt(Var[x] + eps).  A channel count that the group
    count does not divide is refused. *)
Definition group_norm (x : Tensor4) (num_groups : nat) (eps : R) : Prog Tensor4 :=
  if (num_groups =? 0)%nat then Raise ZeroDivisionError
  else if (dimC x mod num_groups =? 0)%nat then
    let cpg := (dimC x / num_groups)%nat in
    Ret (mkT4 (dimB x) (dimC x) (dimH x) (dimW x)
           (fun b c h w =>
              (at4 x b c h w - group_mean num_groups x b (c / cpg)%nat)
              / sqrt (group_var num_groups x b (c / cpg)%nat + eps)))
  else Raise ShapeMismatch.

(** ** AdaGroupNorm and PatchAdaGroupNorm *)

Record AdaGroupNorm : Type := mkAda {
  ada_num_groups : nat;
  ada_eps : R;
  ada_act : option (R -> R);
  ada_linear : Linear
}.

Section Conditioning.

(** [diffusers.models.activations.get_activation]: the pointwise function of
    a name, or nothing for a name it does not know (a [ValueError]). *)
Variable get_activation : String.string -> option (R -> R).

(** [AdaGroupNorm.__init__] and [PatchAdaGroupNorm.__init__] (the two bodies
    are the same text).  The activation is named by [act_fn]; [w0] and [b0]
    are the initial parameters of [nn.Linear(embedding_dim, out_dim * 2)]. *)
Definition AdaGroupNorm_init (embedding_dim out_dim num_groups : nat)
    (act_fn : option String.string) (eps : R)
    (w0 : nat -> nat -> R) (b0 : nat -> R) : Prog AdaGroupNorm :=
  act <- match act_fn with
         | None => Ret None
         | Some name =>
           match get_activation name with
           | Some f => Ret (Some f)
           | None => Raise UnsupportedActivation
           end
         end ;;
  Ret (mkAda num_groups eps act (mkLinear embedding_dim (out_dim * 2) w0 b0)).

Definition PatchAdaGroupNorm_init := AdaGroupNorm_init.

End Conditioning.

(** [AdaGroupNorm.forward]. *)
Definition AdaGroupNorm_forward (self : AdaGroupNorm) (x : Tensor4) (emb : Tensor2)
  : Prog Tensor4 :=
  ss <- project (ada_act self) (ada_linear self) emb ;;
  x <- group_norm x (ada_num_groups self) (ada_eps self) ;;
  scale_shift4 x (fst ss) (snd ss).

(** The last normalisation line of [PatchAdaGroupNorm.forward]:
    [(x - E) / torch.sqrt(var + self.eps)], on one element. *)
Definition ada_normalize (eps E var v : R) : R := (v - E) / sqrt (var + eps).

(** Lines 70-87 of [PatchAdaGroupNorm.forward]: the global height, then the
    two moments.  The [E] and [var] it returns are 0-dim tensors. *)
Definition PatchAdaGroupNorm_moments (num_groups : nat) (x : Tensor4) : Prog (R * R) :=
  height <- resolve_height x ;;
  if (num_groups =? 0)%nat then Raise ZeroDivisionError else
  let channels_per_group := (dimC x / num_groups)%nat in
  partial_sum <- sum_to_size2 x (dimB x) num_groups ;;
  partial_sum_list <- all_gather partial_sum ;;
  sums <- tensor_of_list partial_sum_list ;;
  let group_sum := sum_list sums in
  let E := group_sum / IZR (count_elements channels_per_group height (dimW x)) in
  partial_var <- sum_to_size2 (map4 (fun v => (v - E) * (v - E)) x) (dimB x) num_groups ;;
  partial_var_list <- all_gather partial_var ;;
  vars <- tensor_of_list partial_var_list ;;
  let group_var := sum_list vars in
  let var := group_var / IZR (count_elements channels_per_group height (dimW x)) in
  Ret (E, var).

(** Lines 70-89: the moments, then the normalised shard. *)
Definition PatchAdaGroupNorm_normalized (self : AdaGroupNorm) (x : Tensor4)
  : Prog Tensor4 :=
  m <- PatchAdaGroupNorm_moments (ada_num_groups self) x ;;
  Ret (map4 (ada_normalize (ada_eps self) (fst m) (snd m)) x).

(** [PatchAdaGroupNorm.forward]. *)
Definition PatchAdaGroupNorm_forward (self : AdaGroupNorm) (x : Tensor4) (emb : Tensor2)
  : Prog Tensor4 :=
  ss <- project (ada_act self) (ada_linear self) emb ;;
  x <- PatchAdaGroupNorm_normalized self x ;;
  scale_shift4 x (fst ss) (snd ss).

(** ** PatchGroupNorm *)

Record GroupNorm : Type := mkGroupNorm {
  num_groups : nat;
  num_channels : nat;
  eps : R;
  weight : option Tensor1;
  bias : option Tensor1
}.

(** Modelled from the spec: [nn.GroupNorm.__init__] is PyTorch's, not this
    repository's.  By the spec a channel count not divisible by the group
    count is a configuration error detected at construction, and by the
    docstring of [PatchGroupNorm] the affine parameters are per-channel
    vectors initialised to ones and zeros, and absent without [affine]. *)
Definition GroupNorm_init (num_groups num_channels : nat) (eps : R) (affine : bool)
  : Prog GroupNorm :=
  if (num_groups =? 0)%nat then Raise ZeroDivisionError
  else if negb (num_channels mod num_groups =? 0)%nat then Raise ConfigurationError
  else if affine then
    Ret (mkGroupNorm num_groups num_channels eps
           (Some (mkT1 num_channels (fun _ => 1)))
           (Some (mkT1 num_channels (fun _ => 0))))
  else Ret (mkGroupNorm num_groups num_channels eps None None).

(** [PatchGroupNorm.__init__]: only the call of the parent's constructor. *)
Definition PatchGroupNorm_init (num_groups num_channels : nat) (eps : R) (affine : bool)
  : Prog GroupNorm :=
  GroupNorm_init num_groups num_channels eps affine.

(** The last normalisation line of [PatchGroupNorm.forward]:
    [(x - E[...]) / torch.sqrt(var + self.eps)[...]], on one element. *)
Definition patch_normalize (eps E var v : R) : R := (v - E) / sqrt (var + eps).

(** Lines 146-169 of [PatchGroupNorm.forward]: global height, grouped view,
    and the two moments [E] and [var], both [B, G]. *)
Definition PatchGroupNorm_moments (num_groups : nat) (x : Tensor4)
  : Prog (Tensor5 * Tensor2 * Tensor2) :=
  height <- resolve_height x ;;
  if (num_groups =? 0)%nat then Raise ZeroDivisionError else
  let channels_per_group := (dimC x / num_groups)%nat in
  let nelements := count_elements channels_per_group height (dimW x) in
  x <- view5 x num_groups ;;
  let partial_sum := sum_to_size5 x in
  partial_sum_list <- all_gather partial_sum ;;
  let group_sum := stack_sum (d5B x) num_groups partial_sum_list in
  let E := div_int64 group_sum nelements in
  let partial_var_sum := sum_to_size5 (square5 (sub5 x E)) in
  partial_var_sum_list <- all_gather partial_var_sum ;;
  let group_var_sum := stack_sum (d5B x) num_groups partial_var_sum_list in
  let var := div_int64 group_var_sum nelements in
  Ret (x, E, var).

(** Lines 171-172: normalise the grouped view and view it back. *)
Definition PatchGroupNorm_normalize (self : GroupNorm) (x : Tensor5) (E var : Tensor2)
  : Prog Tensor4 :=
  let x := mkT5 (d5B x) (d5G x) (d5K x) (d5H x) (d5W x)
             (fun b g k h w => patch_normalize (eps self) (at2 E b g) (at2 var b g)
                                               (at5 x b g k h w)) in
  view4 x.

(** Line 173: apply the affine parameters. *)
Definition PatchGroupNorm_apply (self : GroupNorm) (x : Tensor4) : Prog Tensor4 :=
  match weight self, bias self with
  | Some wt, Some bs => affine4 x wt bs
  | _, _ => Raise NoneNotSubscriptable
  end.

(** Lines 146-172: the moments, then the normalised shard. *)
Definition PatchGroupNorm_normalized (self : GroupNorm) (x : Tensor4) : Prog Tensor4 :=
  m <- PatchGroupNorm_moments (num_groups self) x ;;
  PatchGroupNorm_normalize self (fst (fst m)) (snd (fst m)) (snd m).

(** [PatchGroupNorm.forward]. *)
Definition PatchGroupNorm_forward (self : GroupNorm) (x : Tensor4) : Prog Tensor4 :=
  x <- PatchGroupNorm_normalized self x ;;
  PatchGroupNorm_apply self x.

(** ** Sharding of a global tensor along the height axis *)

Definition total_height (xs : list Tensor4) : nat :=
  fold_right (fun x acc => (dimH x + acc)%nat) 0%nat xs.

(** Element [b, c, h, w] of the shards laid one after the other along the
    height axis, in rank order. *)
Fixpoint cat_at (xs : list Tensor4) (b c h w : nat) : R :=
  match xs with
  | [] => 0
  | x :: r => if (h <? dimH x)%nat then at4 x b c h w
              else cat_at r b c (h - dimH x)%nat w
  end.

(** The reassembled full tensor, [torch.cat(xs, dim=2)], for shards of batch
    size [B], [C] channels and width [W]. *)
Definition cat_height (B C W : nat) (xs : list Tensor4) : Tensor4 :=
  mkT4 B C (total_height xs) W (cat_at xs).

(** The contiguous shards of [X] of heights [hs], from row [start] on:
    [X.narrow(2, start, h)] for each height in turn. *)
Fixpoint split_rows (X : Tensor4) (start : nat) (hs : list nat) : list Tensor4 :=
  match hs with
  | [] => []
  | h :: r =>
    mkT4 (dimB X) (dimC X) h (dimW X) (fun b c i w => at4 X b c (start + i)%nat w)
    :: split_rows X (start + h) r
  end.

(** First global row of the shard of rank [r]. *)
Definition row_offset (xs : list Tensor4) (r : nat) : nat :=
  total_height (firstn r xs).

(** The shards [xs] are a height sharding of a [B, C, _, W] tensor that
    [G] groups can normalise: there is at least one worker, every shard has
    the common batch, channel and width extents and at least one row, the
    group count divides the channel count, and the element count of a group
    is an int64. *)
Definition sharding_ok (B C W G : nat) (xs : list Tensor4) : bool :=
  negb (length xs =? 0)%nat
  && forallb (fun x => (dimB x =? B)%nat && (dimC x =? C)%nat
                       && (dimW x =? W)%nat && (1 <=? dimH x)%nat) xs
  && (1 <=? B)%nat && (1 <=? C)%nat && (1 <=? W)%nat && (1 <=? G)%nat
  && (C mod G =? 0)%nat
  && (Z.of_nat (C / G * total_height xs * W) <? 2 ^ 63)%Z.

(** ** Derived forms used in the statements *)

(** The [B, G, C/G, H, W] view of a shard. *)
Definition grouped (G : nat) (x : Tensor4) : Tensor5 :=
  mkT5 (dimB x) G (dimC x / G) (dimH x) (dimW x)
       (fun b g k h w => at4 x b (g * (dimC x / G) + k)%nat h w).

(** The three collectives of [PatchGroupNorm_moments], one after the other. *)
Definition moments_rounds (G : nat) (x : Tensor4) : Prog (Tensor5 * Tensor2 * Tensor2) :=
  AllGatherInt (Z.of_nat (dimH x)) (fun hl =>
    let n := count_elements (dimC x / G) (sum_int64 hl) (dimW x) in
    AllGather (sum_to_size5 (grouped G x)) (fun sl =>
      let E := div_int64 (stack_sum (dimB x) G sl) n in
      AllGather (sum_to_size5 (square5 (sub5 (grouped G x) E))) (fun vl =>
        Ret (grouped G x, E, div_int64 (stack_sum (dimB x) G vl) n)))).

(** What the workers exchange and derive, in closed form. *)
Definition gathered_heights (xs : list Tensor4) : list Z :=
  map (fun x => Z.of_nat (dimH x)) xs.

Definition partial_sums (G : nat) (xs : list Tensor4) : list Tensor2 :=
  map (fun x => sum_to_size5 (grouped G x)) xs.

Definition nelements_of (G : nat) (xs : list Tensor4) (x : Tensor4) : Z :=
  count_elements (dimC x / G) (sum_int64 (gathered_heights xs)) (dimW x).

Definition mean_of (G : nat) (xs : list Tensor4) (x : Tensor4) : Tensor2 :=
  div_int64 (stack_sum (dimB x) G (partial_sums G xs)) (nelements_of G xs x).

Definition partial_vars (G : nat) (xs : list Tensor4) : list Tensor2 :=
  map (fun x => sum_to_size5 (square5 (sub5 (grouped G x) (mean_of G xs x)))) xs.

Definition var_of (G : nat) (xs : list Tensor4) (x : Tensor4) : Tensor2 :=
  div_int64 (stack_sum (dimB x) G (partial_vars G xs)) (nelements_of G xs x).

(** The three collective rounds of a forward call of [PatchGroupNorm]. *)
Definition three_rounds (G : nat) (xs : list Tensor4) : list round :=
  [IntExchange (gathered_heights xs);
   TensorExchange (partial_sums G xs);
   TensorExchange (partial_vars G xs)].

(** Modelled from the spec: [nn.GroupNorm.forward] is PyTorch's, not this
    repository's.  It is the single-worker layer that [PatchGroupNorm]
    distributes; by the docstring of [PatchGroupNorm],
    y = (x - E[x]) / sqrt(Var[x] + eps) * gamma + beta, with per-channel
    gamma and beta when the layer is affine. *)
Definition GroupNorm_forward (self : GroupNorm) (x : Tensor4) : Prog Tensor4 :=
  y <- group_norm x (num_groups self) (eps self) ;;
  match weight self, bias self with
  | Some wt, Some bs => affine4 y wt bs
  | _, _ => Ret y
  end.

(** The layer has affine parameters, one value per channel of a
    [C]-channel input. *)
Definition affine_ready (self : GroupNorm) (C : nat) : bool :=
  match weight self, bias self with
  | Some wt, Some bs => (len wt =? C)%nat && (len bs =? C)%nat
  | _, _ => false
  end.

(** [y] is the shard [x] normalised with the moments that the workers
    derive on the height sharding [xs]. *)
Definition normalized_as (self : GroupNorm) (C : nat) (xs : list Tensor4)
    (x y : Tensor4) : Prop :=
  dimB y = dimB x /\ dimC y = dimC x /\ dimH y = dimH x /\ dimW y = dimW x
  /\ forall b c h w, (c < C)%nat ->
       at4 y b c h w
       = patch_normalize (eps self)
           (at2 (mean_of (num_groups self) xs x) b (c / (C / num_groups self))%nat)
           (at2 (var_of (num_groups self) xs x) b (c / (C / num_groups self))%nat)
           (at4 x b c h w).

(** [o] is [y] with the per-channel affine parameters of the layer applied. *)
Definition affine_of (self : GroupNorm) (C : nat) (y o : Tensor4) : Prop :=
  dimB o = dimB y /\ dimC o = dimC y /\ dimH o = dimH y /\ dimW o = dimW y
  /\ forall wt bs, weight self = Some wt -> bias self = Some bs ->
     forall b c h w, (c < C)%nat ->
       at4 o b c h w = at4 y b c h w * at1 wt c + at1 bs c.

(** The scenario of two workers: a 4x4 single-channel image, rows 0-1
    filled with 1 on the first worker, rows 2-3 filled with 3 on the second,
    one group, eps = 1e-5, the affine parameters as constructed. *)
Definition shard_A : Tensor4 := mkT4 1 1 2 4 (fun _ _ _ _ => 1).
Definition shard_B : Tensor4 := mkT4 1 1 2 4 (fun _ _ _ _ => 3).
Definition scenario_layer : GroupNorm :=
  mkGroupNorm 1 1 (1 / 100000)
              (Some (mkT1 1 (fun _ => 1))) (Some (mkT1 1 (fun _ => 0))).

(** A one-row, one-column shard of two channels: [v] in channel 0 and 5 in
    channel 1. *)
Definition two_channels (v : R) : Tensor4 :=
  mkT4 1 2 1 1 (fun _ c _ _ => if (c =? 0)%nat then v else 5).

(** Two shards of one shape that agree on every element outside group [g]. *)
Definition agree_outside (C G g : nat) (x x' : Tensor4) : Prop :=
  dimH x = dimH x'
  /\ forall b c h w, (c < C)%nat -> (c / (C / G))%nat <> g ->
       at4 x b c h w = at4 x' b c h w.

(** [sum_to_size] to [1, 1]: the sum of all elements. *)
Definition ada_partial (x : Tensor4) : Tensor2 :=
  mkT2 1 1 (fun i j =>
    sum_n (dimB x) (fun b =>
    sum_n (dimC x) (fun c =>
    reduce_axis 1 (dimH x) i (fun h =>
    reduce_axis 1 (dimW x) j (fun w => at4 x b c h w))))).

(** What the workers of [PatchAdaGroupNorm] exchange and derive. *)
Definition ada_sums (xs : list Tensor4) : list Tensor2 := map ada_partial xs.

Definition ada_count (xs : list Tensor4) (x : Tensor4) : Z :=
  count_elements (dimC x / 1) (sum_int64 (gathered_heights xs)) (dimW x).

Definition ada_mean (xs : list Tensor4) (x : Tensor4) : R :=
  sum_list (map (fun t => at2 t 0%nat 0%nat) (ada_sums xs)) / IZR (ada_count xs x).

Definition ada_vars (xs : list Tensor4) : list Tensor2 :=
  map (fun x => ada_partial (map4 (fun v => (v - ada_mean xs x) * (v - ada_mean xs x)) x)) xs.

Definition ada_variance (xs : list Tensor4) (x : Tensor4) : R :=
  sum_list (map (fun t => at2 t 0%nat 0%nat) (ada_vars xs)) / IZR (ada_count xs x).

(** The shard normalised with these two moments. *)
Definition ada_normalized_shard (self : AdaGroupNorm) (xs : list Tensor4) (x : Tensor4)
  : Tensor4 :=
  map4 (ada_normalize (ada_eps self) (ada_mean xs x) (ada_variance xs x)) x.

Definition ada_rounds (xs : list Tensor4) : list round :=
  [IntExchange (gathered_heights xs); TensorExchange (ada_sums xs);
   TensorExchange (ada_vars xs)].

(** A collective call as one worker posts it. *)
Inductive posted : Type :=
| PostInt (v : Z)
| PostTensor (t : Tensor2).

(** [returns_after tr p]: the program [p] can run to its return, whatever
    the other workers contribute, and then it has posted exactly the
    collectives [tr], in this order. *)
Inductive returns_after {A : Type} : list posted -> Prog A -> Prop :=
| returns_now (a : A) : returns_after [] (Ret a)
| returns_after_int (v : Z) (k : list Z -> Prog A) (l : list Z) (tr : list posted) :
    returns_after tr (k l) -> returns_after (PostInt v :: tr) (AllGatherInt v k)
| returns_after_tensor (t : Tensor2) (k : list Tensor2 -> Prog A) (l : list Tensor2)
    (tr : list posted) :
    returns_after tr (k l) -> returns_after (PostTensor t :: tr) (AllGather t k).

Definition is_three_gathers (tr : list posted) : Prop :=
  exists h s v, tr = [PostInt h; PostTensor s; PostTensor v].


(** A conditioning layer of one group for one channel, with an embedding
    of one feature. *)
Definition ada_layer_1_group : AdaGroupNorm :=
  mkAda 1 (1 / 100000) None (mkLinear 1 (1 * 2) (fun _ _ => 0) (fun _ => 0)).

Definition shard_10_channels : Tensor4 := mkT4 1 10 2 3 (fun _ _ _ _ => 1).
Definition embedding_1 : Tensor2 := mkT2 1 1 (fun _ _ => 0).


(** ** Further layers and inputs *)

(** The layer of the two-worker scenario constructed with [affine=False]. *)
Definition scenario_layer_no_affine : GroupNorm :=
  mkGroupNorm 1 1 (1 / 100000) None None.

(** A layer of 3 groups for 9 channels, and a layer of one group for 3
    channels, with the affine parameters as constructed. *)
Definition layer_3_groups_9_channels : GroupNorm :=
  mkGroupNorm 3 9 (1 / 100000)
              (Some (mkT1 9 (fun _ => 1))) (Some (mkT1 9 (fun _ => 0))).
Definition layer_3_channels : GroupNorm :=
  mkGroupNorm 1 3 (1 / 100000)
              (Some (mkT1 3 (fun _ => 1))) (Some (mkT1 3 (fun _ => 0))).

(** A shard of no rows, as a worker holds it when there are more workers
    than rows. *)
Definition empty_shard : Tensor4 := mkT4 1 1 0 4 (fun _ _ _ _ => 0).

(** The 4x4 image of the two-worker scenario in one piece. *)
Definition full_image : Tensor4 :=
  mkT4 1 1 4 4 (fun _ _ h _ => if (h <? 2)%nat then 1 else 3).

(** Two workers' shards of a 4-channel tensor, for a layer of two groups
    of two channels, and of a one-channel tensor of two batch entries, for a
    layer of one group. *)
Definition shard_4_channels (v : R) : Tensor4 :=
  mkT4 1 4 2 3 (fun _ c _ _ => if (c <? 2)%nat then v else 5).
Definition shard_2_batch (v : R) : Tensor4 :=
  mkT4 2 1 2 4 (fun b _ _ _ => if (b =? 0)%nat then v else 3).


(** An embedding of two features, and a conditioning layer of one group
    with [out_dim = 3] for an embedding of one feature. *)
Definition embedding_2 : Tensor2 := mkT2 1 2 (fun _ _ => 0).
Definition ada_layer_3_out : AdaGroupNorm :=
  mkAda 1 (1 / 100000) None (mkLinear 1 (3 * 2) (fun _ _ => 0) (fun _ => 0)).

(** * Properties *)

(** ** Sums *)

Lemma sum_n_ext (n : nat) (f g : nat -> R) :
  (forall i, (i < n)%nat -> f i = g i) -> sum_n n f = sum_n n g.
Proof.
  induction n as [|n IH]; intros Hfg; simpl.
  - reflexivity.
  - rewrite IH by (intros i Hi; apply Hfg; lia).
    rewrite (Hfg n) by lia. reflexivity.
Qed.

Lemma sum_n_app (a n : nat) (f : nat -> R) :
  sum_n (a + n) f = sum_n a f + sum_n n (fun i => f (a + i)%nat).
Proof.
  induction n as [|n IH].
  - rewrite Nat.add_0_r. simpl. lra.
  - rewrite Nat.add_succ_r. simpl. rewrite IH. lra.
Qed.

Lemma sum_n_zero (n : nat) : sum_n n (fun _ => 0) = 0.
Proof. induction n as [|n IH]; simpl; [reflexivity | rewrite IH; lra]. Qed.

Lemma sum_n_plus (n : nat) (f g : nat -> R) :
  sum_n n (fun i => f i + g i) = sum_n n f + sum_n n g.
Proof. induction n as [|n IH]; simpl; [lra | rewrite IH; lra]. Qed.

(** A reduction over an axis commutes with the sum over the ranks. *)
Lemma sum_n_sum_list {X : Type} (n : nat) (F : nat -> X -> R) (l : list X) :
  sum_n n (fun i => sum_list (map (F i) l))
  = sum_list (map (fun y => sum_n n (fun i => F i y)) l).
Proof.
  induction l as [|y l IH]; simpl.
  - apply sum_n_zero.
  - rewrite <- IH. apply sum_n_plus.
Qed.

Lemma sum_list_ext_in {X : Type} (f g : X -> R) (l : list X) :
  (forall y, In y l -> f y = g y) ->
  sum_list (map f l) = sum_list (map g l).
Proof. intros H. rewrite (map_ext_in f g l H). reflexivity. Qed.

(** ** int64 arithmetic inside its range *)

Lemma wrap64_small (z : Z) : (0 <= z < 2 ^ 63)%Z -> wrap64 z = z.
Proof.
  intros Hz. unfold wrap64.
  rewrite Z.mod_small; [lia|].
  change (2 ^ 64)%Z with (2 ^ 63 + 2 ^ 63)%Z. lia.
Qed.

Lemma sum_int64_heights (xs : list Tensor4) :
  (Z.of_nat (total_height xs) < 2 ^ 63)%Z ->
  sum_int64 (map (fun x => Z.of_nat (dimH x)) xs) = Z.of_nat (total_height xs).
Proof.
  induction xs as [|x xs IH]; simpl; intros Hfit.
  - reflexivity.
  - rewrite IH by lia. rewrite wrap64_small; lia.
Qed.

Lemma count_elements_small (cpg Ht W : nat) :
  (1 <= cpg)%nat -> (1 <= W)%nat ->
  (Z.of_nat (cpg * Ht * W) < 2 ^ 63)%Z ->
  count_elements cpg (Z.of_nat Ht) W = Z.of_nat (cpg * Ht * W).
Proof.
  intros Hc Hw Hfit. unfold count_elements.
  assert (cpg * Ht <= cpg * Ht * W)%nat by nia.
  rewrite (wrap64_small (Z.of_nat cpg * Z.of_nat Ht)) by lia.
  rewrite wrap64_small by lia. lia.
Qed.

(** ** One round of the lock-step execution *)

Section Rounds.

Context {X A : Type}.

Lemma first_raise_gather_int (v : X -> Z) (k : X -> list Z -> Prog A) (xs : list X) :
  first_raise (map (fun x => AllGatherInt (v x) (k x)) xs) = None.
Proof. induction xs; simpl; auto. Qed.

Lemma first_raise_gather (t : X -> Tensor2) (k : X -> list Tensor2 -> Prog A) (xs : list X) :
  first_raise (map (fun x => AllGather (t x) (k x)) xs) = None.
Proof. induction xs; simpl; auto. Qed.

Lemma first_raise_ret (f : X -> A) (xs : list X) :
  first_raise (map (fun x => Ret (f x)) xs) = None.
Proof. induction xs; simpl; auto. Qed.

Lemma all_ret_ret (f : X -> A) (xs : list X) :
  all_ret (map (fun x => Ret (f x)) xs) = Some (map f xs).
Proof. induction xs as [|x xs IH]; simpl; [|rewrite IH]; reflexivity. Qed.

Lemma all_int_gather (v : X -> Z) (k : X -> list Z -> Prog A) (xs : list X) :
  all_int (map (fun x => AllGatherInt (v x) (k x)) xs)
  = Some (map (fun x => (v x, k x)) xs).
Proof. induction xs as [|x xs IH]; simpl; [|rewrite IH]; reflexivity. Qed.

Lemma all_tensor_gather (t : X -> Tensor2) (k : X -> list Tensor2 -> Prog A) (xs : list X) :
  all_tensor (map (fun x => AllGather (t x) (k x)) xs)
  = Some (map (fun x => (t x, k x)) xs).
Proof. induction xs as [|x xs IH]; simpl; [|rewrite IH]; reflexivity. Qed.

(** All workers return. *)
Lemma run_ret (fuel : nat) (f : X -> A) (xs : list X) :
  run_group (S fuel) (map (fun x => Ret (f x)) xs) = ([], Done (map f xs)).
Proof. simpl. rewrite first_raise_ret, all_ret_ret. reflexivity. Qed.

Lemma all_ret_gather_int (v : X -> Z) (k : X -> list Z -> Prog A) (xs : list X) :
  xs <> [] -> all_ret (map (fun x => AllGatherInt (v x) (k x)) xs) = None.
Proof. destruct xs; [congruence | reflexivity]. Qed.

Lemma all_ret_gather (t : X -> Tensor2) (k : X -> list Tensor2 -> Prog A) (xs : list X) :
  xs <> [] -> all_ret (map (fun x => AllGather (t x) (k x)) xs) = None.
Proof. destruct xs; [congruence | reflexivity]. Qed.

Lemma all_int_gather_tensor (t : X -> Tensor2) (k : X -> list Tensor2 -> Prog A)
    (xs : list X) :
  xs <> [] -> all_int (map (fun x => AllGather (t x) (k x)) xs) = None.
Proof. destruct xs; [congruence | reflexivity]. Qed.

(** All workers post an int64 all-gather. *)
Lemma run_gather_int (fuel : nat) (v : X -> Z) (k : X -> list Z -> Prog A) (xs : list X) :
  xs <> [] ->
  run_group (S fuel) (map (fun x => AllGatherInt (v x) (k x)) xs)
  = (IntExchange (map v xs)
       :: fst (run_group fuel (map (fun x => k x (map v xs)) xs)),
     snd (run_group fuel (map (fun x => k x (map v xs)) xs))).
Proof.
  intros Hne. cbn [run_group].
  rewrite first_raise_gather_int, all_ret_gather_int, all_int_gather by assumption.
  rewrite !map_map. cbn [fst snd].
  destruct (run_group fuel _); reflexivity.
Qed.

(** All workers post a tensor all-gather with buffers of one shape. *)
Lemma run_gather (fuel : nat) (t : X -> Tensor2) (k : X -> list Tensor2 -> Prog A)
    (xs : list X) :
  xs <> [] -> uniform_shape (map t xs) = true ->
  run_group (S fuel) (map (fun x => AllGather (t x) (k x)) xs)
  = (TensorExchange (map t xs)
       :: fst (run_group fuel (map (fun x => k x (map t xs)) xs)),
     snd (run_group fuel (map (fun x => k x (map t xs)) xs))).
Proof.
  intros Hne Hu. cbn [run_group].
  rewrite first_raise_gather, all_ret_gather, all_int_gather_tensor, all_tensor_gather
    by assumption.
  rewrite !map_map. cbn [fst snd].
  change (map (fun x => t x) xs) with (map t xs). rewrite Hu.
  destruct (run_group fuel _); reflexivity.
Qed.

End Rounds.

(** ** The grouped view *)

Lemma view_extent (B C H W G : nat) :
  (1 <= B)%nat -> (1 <= H)%nat -> (1 <= W)%nat -> (1 <= G)%nat -> (C mod G = 0)%nat ->
  ((B * C * H * W) mod (B * G * H * W) = 0
   /\ (B * C * H * W) / (B * G * H * W) = C / G
   /\ 0 < B * G * H * W)%nat.
Proof.
  intros HB HH HW HG Hdiv.
  assert (Hpos : (0 < B * G * H * W)%nat) by (repeat apply Nat.mul_pos_pos; lia).
  assert (HC : C = (G * (C / G))%nat).
  { rewrite (Nat.div_mod_eq C G) at 1. rewrite Hdiv. lia. }
  assert (Heq : (B * C * H * W = C / G * (B * G * H * W))%nat).
  { rewrite HC at 1. ring. }
  rewrite Heq. split; [|split].
  - apply Nat.Div0.mod_mul.
  - apply Nat.div_mul. lia.
  - exact Hpos.
Qed.

Lemma view5_grouped (G : nat) (x : Tensor4) :
  (1 <= dimB x)%nat -> (1 <= dimH x)%nat -> (1 <= dimW x)%nat -> (1 <= G)%nat ->
  (dimC x mod G = 0)%nat ->
  view5 x G = Ret (grouped G x).
Proof.
  intros HB HH HW HG Hdiv.
  destruct (view_extent (dimB x) (dimC x) (dimH x) (dimW x) G HB HH HW HG Hdiv)
    as (Hmod & Hquot & Hpos).
  unfold view5, grouped. rewrite Hmod, Hquot.
  apply Nat.ltb_lt in Hpos. rewrite Hpos. reflexivity.
Qed.

Lemma moments_unfold (G : nat) (x : Tensor4) :
  (1 <= dimB x)%nat -> (1 <= dimH x)%nat -> (1 <= dimW x)%nat -> (1 <= G)%nat ->
  (dimC x mod G = 0)%nat ->
  PatchGroupNorm_moments G x = moments_rounds G x.
Proof.
  intros HB HH HW HG Hdiv.
  unfold PatchGroupNorm_moments, moments_rounds, resolve_height, all_gather_int, all_gather.
  cbn [bind].
  rewrite (view5_grouped G x HB HH HW HG Hdiv).
  destruct (Nat.eqb_spec G 0) as [->|_]; [lia|].
  reflexivity.
Qed.

(** ** A group of workers on a height sharding *)

Lemma uniform_shape_map {X : Type} (t : X -> Tensor2) (r c : nat) (xs : list X) :
  (forall x, In x xs -> rows (t x) = r /\ cols (t x) = c) ->
  uniform_shape (map t xs) = true.
Proof.
  intros H. destruct xs as [|x xs]; [reflexivity|].
  cbn [map uniform_shape]. apply forallb_forall. intros u Hu.
  apply in_map_iff in Hu. destruct Hu as (y & <- & Hy).
  unfold same_shape2.
  destruct (H x (or_introl eq_refl)) as [-> ->].
  destruct (H y (or_intror Hy)) as [-> ->].
  rewrite !Nat.eqb_refl. reflexivity.
Qed.

Section Sharded.

Variables B C W G : nat.
Variable xs : list Tensor4.
Hypothesis Hok : sharding_ok B C W G xs = true.

Lemma sharding_facts :
  xs <> []
  /\ (forall x, In x xs ->
        dimB x = B /\ dimC x = C /\ dimW x = W /\ (1 <= dimH x)%nat)
  /\ (1 <= B)%nat /\ (1 <= C)%nat /\ (1 <= W)%nat /\ (1 <= G)%nat
  /\ (C mod G = 0)%nat
  /\ (Z.of_nat (C / G * total_height xs * W) < 2 ^ 63)%Z.
Proof.
  pose proof Hok as H. unfold sharding_ok in H.
  apply andb_prop in H. destruct H as [H Hfit].
  apply andb_prop in H. destruct H as [H Hdiv].
  apply andb_prop in H. destruct H as [H HG].
  apply andb_prop in H. destruct H as [H HW].
  apply andb_prop in H. destruct H as [H HC].
  apply andb_prop in H. destruct H as [H HB].
  apply andb_prop in H. destruct H as [Hne Hall].
  apply Nat.leb_le in HB, HC, HW, HG. apply Nat.eqb_eq in Hdiv.
  apply Z.ltb_lt in Hfit.
  split; [|split; [|repeat split; assumption]].
  - intros ->. discriminate.
  - rewrite forallb_forall in Hall. intros x Hin. specialize (Hall x Hin).
    apply andb_prop in Hall. destruct Hall as [Hall Hh].
    apply andb_prop in Hall. destruct Hall as [Hall Hw].
    apply andb_prop in Hall. destruct Hall as [Hb Hc].
    apply Nat.eqb_eq in Hb, Hc, Hw. apply Nat.leb_le in Hh. auto.
Qed.

Lemma channels_per_group_pos : (1 <= C / G)%nat.
Proof.
  destruct sharding_facts as (_ & _ & _ & HC & _ & HG & Hdiv & _).
  apply Nat.div_str_pos. split; [lia|].
  apply Nat.Div0.mod_divides in Hdiv. destruct Hdiv as [q Hq].
  destruct q; nia.
Qed.

Lemma total_height_pos : (1 <= total_height xs)%nat.
Proof.
  destruct sharding_facts as (Hne & Hx & _).
  destruct xs as [|x r]; [congruence|]. simpl.
  destruct (Hx x (or_introl eq_refl)) as (_ & _ & _ & HH). lia.
Qed.

Lemma height_fits : (Z.of_nat (total_height xs) < 2 ^ 63)%Z.
Proof.
  destruct sharding_facts as (_ & _ & _ & _ & HW & _ & _ & Hfit).
  pose proof channels_per_group_pos as Hk.
  assert (Hle : (total_height xs <= C / G * total_height xs * W)%nat).
  { generalize dependent (C / G)%nat. intros k _ Hk.
    rewrite <- (Nat.mul_1_l (total_height xs)) at 1.
    rewrite <- (Nat.mul_1_r (1 * total_height xs)) at 1.
    apply Nat.mul_le_mono; [apply Nat.mul_le_mono_r|]; assumption. }
  apply Nat2Z.inj_le in Hle. eapply Z.le_lt_trans; eassumption.
Qed.

(** The global height every worker derives. *)
Lemma global_height : sum_int64 (gathered_heights xs) = Z.of_nat (total_height xs).
Proof. apply sum_int64_heights, height_fits. Qed.

(** The divisor every worker derives. *)
Lemma nelements_value (x : Tensor4) :
  In x xs -> nelements_of G xs x = Z.of_nat (C / G * total_height xs * W).
Proof.
  intros Hin.
  destruct sharding_facts as (_ & Hx & _ & _ & HW & _ & _ & Hfit).
  unfold nelements_of.
  destruct (Hx x Hin) as (_ & -> & -> & _).
  rewrite global_height.
  apply count_elements_small; auto using channels_per_group_pos.
Qed.

(** The run of the moment estimator: three collective rounds, then every
    worker holds its grouped view, the mean and the variance. *)
Lemma run_moments (n : nat) :
  run_group (4 + n) (map (PatchGroupNorm_moments G) xs)
  = (three_rounds G xs,
     Done (map (fun x => (grouped G x, mean_of G xs x, var_of G xs x)) xs)).
Proof.
  destruct sharding_facts as (Hne & Hx & HB & _ & HW & HG & Hdiv & _).
  rewrite (map_ext_in (PatchGroupNorm_moments G) (moments_rounds G)).
  2:{ intros x Hin. destruct (Hx x Hin) as (Hb & Hc & Hw & Hh).
      apply moments_unfold; rewrite ?Hb, ?Hc, ?Hw; assumption. }
  unfold moments_rounds.
  change (4 + n)%nat with (S (S (S (S n)))).
  rewrite run_gather_int by assumption.
  rewrite run_gather; [|assumption|].
  2:{ apply (uniform_shape_map _ B G). intros x Hin.
      destruct (Hx x Hin) as (Hb & _). simpl. auto. }
  rewrite run_gather; [|assumption|].
  2:{ apply (uniform_shape_map _ B G). intros x Hin.
      destruct (Hx x Hin) as (Hb & _). simpl. auto. }
  rewrite run_ret. reflexivity.
Qed.

End Sharded.

(** ** Sums over the reassembled tensor *)

(** Reducing the height and width axes of the reassembled tensor is summing
    the shards' own reductions. *)
Lemma cat_rows_sum (F : R -> R) (W b c : nat) (xs : list Tensor4) :
  sum_n (total_height xs) (fun h => sum_n W (fun w => F (cat_at xs b c h w)))
  = sum_list (map (fun y => sum_n (dimH y) (fun h => sum_n W (fun w =>
                             F (at4 y b c h w)))) xs).
Proof.
  induction xs as [|x xs IH]; simpl.
  - reflexivity.
  - rewrite sum_n_app. f_equal.
    + apply sum_n_ext. intros h Hh.
      apply Nat.ltb_lt in Hh. rewrite Hh. reflexivity.
    + rewrite <- IH. apply sum_n_ext. intros h _.
      assert (Hge : (dimH x + h <? dimH x)%nat = false) by (apply Nat.ltb_ge; lia).
      rewrite Hge. replace (dimH x + h - dimH x)%nat with h by lia. reflexivity.
Qed.

(** A row of a shard is the row of the reassembled tensor at the shard's
    offset. *)
Lemma cat_at_shard (xs : list Tensor4) (r : nat) (x : Tensor4) (b c h w : nat) :
  nth_error xs r = Some x -> (h < dimH x)%nat ->
  cat_at xs b c (row_offset xs r + h) w = at4 x b c h w.
Proof.
  revert r. induction xs as [|y xs IH]; intros r Hr Hh.
  - destruct r; discriminate.
  - destruct r as [|r]; simpl in Hr.
    + injection Hr as ->. unfold row_offset. simpl.
      apply Nat.ltb_lt in Hh. rewrite Hh. reflexivity.
    + unfold row_offset. cbn [firstn total_height fold_right cat_at].
      fold (total_height (firstn r xs)). fold (row_offset xs r).
      assert (Hge : (dimH y + row_offset xs r + h <? dimH y)%nat = false)
        by (apply Nat.ltb_ge; lia).
      rewrite Hge.
      replace (dimH y + row_offset xs r + h - dimH y)%nat with (row_offset xs r + h)%nat
        by lia.
      apply IH; assumption.
Qed.

Lemma group_total_cat (phi : R -> R) (B C W G b g : nat) (xs : list Tensor4) :
  (forall x, In x xs -> dimC x = C /\ dimW x = W) ->
  group_total phi G (cat_height B C W xs) b g
  = sum_list (map (fun y => group_total phi G y b g) xs).
Proof.
  intros Hx. unfold group_total. cbn [dimC dimH dimW at4 cat_height].
  rewrite (sum_n_ext _ _ (fun k => sum_list (map (fun y =>
             sum_n (dimH y) (fun h => sum_n W (fun w =>
               phi (at4 y b (g * (C / G) + k)%nat h w)))) xs))).
  2:{ intros k _. apply cat_rows_sum. }
  rewrite sum_n_sum_list. apply sum_list_ext_in.
  intros y Hy. destruct (Hx y Hy) as [-> ->]. reflexivity.
Qed.

(** Splitting and reassembling gives the tensor back. *)
Lemma total_height_split (X : Tensor4) (hs : list nat) (start : nat) :
  total_height (split_rows X start hs) = list_sum hs.
Proof.
  revert start. induction hs as [|h hs IH]; intros start; simpl.
  - reflexivity.
  - rewrite IH. reflexivity.
Qed.

Lemma cat_at_split (X : Tensor4) (hs : list nat) (start b c h w : nat) :
  (h < list_sum hs)%nat ->
  cat_at (split_rows X start hs) b c h w = at4 X b c (start + h)%nat w.
Proof.
  revert start h. induction hs as [|h0 hs IH]; intros start h Hh; simpl in Hh.
  - lia.
  - cbn [split_rows cat_at dimH at4].
    destruct (Nat.ltb_spec h h0) as [Hlt|Hge]; [reflexivity|].
    rewrite IH by lia. f_equal. lia.
Qed.

Lemma group_total_split (phi : R -> R) (G : nat) (X : Tensor4) (hs : list nat) (b g : nat) :
  list_sum hs = dimH X ->
  group_total phi G (cat_height (dimB X) (dimC X) (dimW X) (split_rows X 0 hs)) b g
  = group_total phi G X b g.
Proof.
  intros Hsum. unfold group_total. cbn [dimC dimH dimW at4 cat_height].
  rewrite total_height_split, Hsum.
  apply sum_n_ext. intros k _. apply sum_n_ext. intros h Hh.
  apply sum_n_ext. intros w _. rewrite cat_at_split by lia. reflexivity.
Qed.

(** The moments of the reassembled shards are the moments of the tensor
    that was split. *)
Lemma moments_of_split (G : nat) (X : Tensor4) (hs : list nat) (b g : nat) :
  list_sum hs = dimH X ->
  group_mean G (cat_height (dimB X) (dimC X) (dimW X) (split_rows X 0 hs)) b g
  = group_mean G X b g
  /\ group_var G (cat_height (dimB X) (dimC X) (dimW X) (split_rows X 0 hs)) b g
     = group_var G X b g.
Proof.
  intros Hsum.
  assert (Hm : group_mean G (cat_height (dimB X) (dimC X) (dimW X) (split_rows X 0 hs)) b g
               = group_mean G X b g).
  { unfold group_mean. rewrite group_total_split by assumption.
    cbn [dimC dimH dimW cat_height]. rewrite total_height_split, Hsum. reflexivity. }
  split; [exact Hm|].
  unfold group_var. rewrite Hm, group_total_split by assumption.
  cbn [dimC dimH dimW cat_height]. rewrite total_height_split, Hsum. reflexivity.
Qed.

Section ShardedMoments.

Variables B C W G : nat.
Variable xs : list Tensor4.
Hypothesis Hok : sharding_ok B C W G xs = true.

Lemma shards_extents (x : Tensor4) : In x xs -> dimC x = C /\ dimW x = W.
Proof.
  intros Hin. destruct (sharding_facts B C W G xs Hok) as (_ & Hx & _).
  destruct (Hx x Hin) as (_ & ? & ? & _). auto.
Qed.

(** The mean a worker derives is the sum of the exchanged partial sums over
    the element count of a group. *)
Lemma mean_of_value (x : Tensor4) (b g : nat) :
  In x xs ->
  at2 (mean_of G xs x) b g
  = sum_list (map (fun t => at2 t b g) (partial_sums G xs))
    / INR (C / G * total_height xs * W).
Proof.
  intros Hin. unfold mean_of, div_int64, stack_sum. cbn [at2].
  rewrite (nelements_value B C W G xs Hok x Hin), <- INR_IZR_INZ. reflexivity.
Qed.

Lemma var_of_value (x : Tensor4) (b g : nat) :
  In x xs ->
  at2 (var_of G xs x) b g
  = sum_list (map (fun t => at2 t b g) (partial_vars G xs))
    / INR (C / G * total_height xs * W).
Proof.
  intros Hin. unfold var_of, div_int64, stack_sum. cbn [at2].
  rewrite (nelements_value B C W G xs Hok x Hin), <- INR_IZR_INZ. reflexivity.
Qed.

(** The distributed mean is the mean of the reassembled tensor. *)
Lemma mean_of_full (x : Tensor4) (b g : nat) :
  In x xs -> at2 (mean_of G xs x) b g = group_mean G (cat_height B C W xs) b g.
Proof.
  intros Hin. rewrite (mean_of_value x b g Hin).
  unfold group_mean. rewrite (group_total_cat _ B C W G b g xs shards_extents).
  cbn [dimC dimH dimW cat_height]. unfold partial_sums. rewrite map_map.
  reflexivity.
Qed.

(** The distributed variance is the biased variance of the reassembled
    tensor. *)
Lemma var_of_full (x : Tensor4) (b g : nat) :
  In x xs -> at2 (var_of G xs x) b g = group_var G (cat_height B C W xs) b g.
Proof.
  intros Hin. rewrite (var_of_value x b g Hin).
  unfold group_var. rewrite (group_total_cat _ B C W G b g xs shards_extents).
  cbn [dimC dimH dimW cat_height]. unfold partial_vars. rewrite map_map.
  f_equal. apply sum_list_ext_in. intros y Hy.
  change (at2 (sum_to_size5 (square5 (sub5 (grouped G y) (mean_of G xs y)))) b g)
    with (group_total (sq_dev (at2 (mean_of G xs y) b g)) G y b g).
  rewrite (mean_of_full y b g Hy). reflexivity.
Qed.

End ShardedMoments.

(** ** The normalisation applicator *)

Lemma pick_lt (n i : nat) : (i < n)%nat -> pick n i = i.
Proof.
  intros Hi. unfold pick. destruct (Nat.eqb_spec n 1); [lia | reflexivity].
Qed.

Lemma broadcast_same (n : nat) : broadcast n n = Some n.
Proof. unfold broadcast. rewrite Nat.eqb_refl. reflexivity. Qed.

Lemma view_back_extent (B G K H W : nat) :
  (1 <= B)%nat -> (1 <= H)%nat -> (1 <= W)%nat ->
  ((B * G * K * H * W) mod (B * H * W) = 0
   /\ (B * G * K * H * W) / (B * H * W) = G * K
   /\ 0 < B * H * W)%nat.
Proof.
  intros HB HH HW.
  assert (Hpos : (0 < B * H * W)%nat) by (repeat apply Nat.mul_pos_pos; lia).
  replace (B * G * K * H * W)%nat with (G * K * (B * H * W))%nat by ring.
  split; [|split].
  - apply Nat.Div0.mod_mul.
  - apply Nat.div_mul. lia.
  - exact Hpos.
Qed.

Lemma group_index (C G c : nat) :
  (1 <= G)%nat -> (C mod G = 0)%nat -> (1 <= C)%nat ->
  (c / (C / G) * (C / G) + c mod (C / G) = c)%nat.
Proof.
  intros HG Hdiv HC. rewrite (Nat.div_mod_eq c (C / G)) at 3. lia.
Qed.

Lemma groups_times_size (C G : nat) :
  (C mod G = 0)%nat -> (G * (C / G) = C)%nat.
Proof.
  intros Hdiv. rewrite (Nat.div_mod_eq C G) at 2. rewrite Hdiv. lia.
Qed.

(** The normalisation step returns a tensor of the shard's shape whose
    elements are normalised with the (batch, group) statistics. *)
Lemma normalize_returns (self : GroupNorm) (G : nat) (x : Tensor4) (E var : Tensor2) :
  (1 <= dimB x)%nat -> (1 <= dimH x)%nat -> (1 <= dimW x)%nat -> (1 <= dimC x)%nat ->
  (1 <= G)%nat -> (dimC x mod G = 0)%nat ->
  exists y,
    PatchGroupNorm_normalize self (grouped G x) E var = Ret y
    /\ dimB y = dimB x /\ dimC y = dimC x /\ dimH y = dimH x /\ dimW y = dimW x
    /\ forall b c h w, (c < dimC x)%nat ->
         at4 y b c h w
         = patch_normalize (eps self) (at2 E b (c / (dimC x / G))%nat)
                           (at2 var b (c / (dimC x / G))%nat) (at4 x b c h w).
Proof.
  intros HB HH HW HC HG Hdiv.
  destruct (view_back_extent (dimB x) G (dimC x / G) (dimH x) (dimW x) HB HH HW)
    as (Hmod & Hquot & Hpos).
  apply Nat.ltb_lt in Hpos.
  unfold PatchGroupNorm_normalize, view4, grouped. cbn [d5B d5G d5K d5H d5W at5].
  rewrite Hmod, Hquot, Hpos. cbn [andb Nat.eqb].
  rewrite (groups_times_size _ _ Hdiv).
  eexists. split; [reflexivity|]. cbn [dimB dimC dimH dimW at4].
  repeat split.
  intros b c h w Hc. rewrite (group_index _ _ c HG Hdiv HC). reflexivity.
Qed.

(** With one weight and one bias per channel the affine step keeps the
    shape and is elementwise. *)
Lemma affine_returns (self : GroupNorm) (y : Tensor4) (wt bs : Tensor1) :
  weight self = Some wt -> bias self = Some bs ->
  len wt = dimC y -> len bs = dimC y ->
  exists o,
    PatchGroupNorm_apply self y = Ret o
    /\ dimB o = dimB y /\ dimC o = dimC y /\ dimH o = dimH y /\ dimW o = dimW y
    /\ forall b c h w, (c < dimC y)%nat ->
         at4 o b c h w = at4 y b c h w * at1 wt c + at1 bs c.
Proof.
  intros Hwt Hbs Hlw Hlb. unfold PatchGroupNorm_apply. rewrite Hwt, Hbs.
  unfold affine4. rewrite Hlw, broadcast_same, Hlb, broadcast_same.
  eexists. split; [reflexivity|]. cbn [dimB dimC dimH dimW at4].
  repeat split.
  intros b c h w Hc. rewrite !(pick_lt _ _ Hc). reflexivity.
Qed.

Lemma affine_ready_params (self : GroupNorm) (C : nat) :
  affine_ready self C = true ->
  exists wt bs, weight self = Some wt /\ bias self = Some bs
                /\ len wt = C /\ len bs = C.
Proof.
  unfold affine_ready. destruct (weight self) as [wt|], (bias self) as [bs|];
    try discriminate.
  intros H. apply andb_prop in H. destruct H as [Hw Hb].
  apply Nat.eqb_eq in Hw, Hb. exists wt, bs. auto.
Qed.

(** Programs that return, collected along a list of inputs. *)
Lemma rets_of_pointwise {X A : Type} (k : X -> Prog A) (P : X -> A -> Prop)
    (xs : list X) :
  (forall x, In x xs -> exists o, k x = Ret o /\ P x o) ->
  exists outs, map k xs = map Ret outs /\ Forall2 P xs outs.
Proof.
  induction xs as [|x xs IH]; intros H.
  - exists []. split; [reflexivity | constructor].
  - destruct (H x (or_introl eq_refl)) as (o & Ho & HP).
    destruct IH as (outs & Hm & HF); [intros y Hy; apply H; right; exact Hy|].
    exists (o :: outs). split.
    + simpl. rewrite Ho, Hm. reflexivity.
    + constructor; assumption.
Qed.

Lemma run_rets {A : Type} (fuel : nat) (outs : list A) :
  run_group (S fuel) (map Ret outs) = ([], Done outs).
Proof.
  change (map Ret outs) with (map (fun a : A => Ret ((fun a => a) a)) outs).
  rewrite run_ret, map_id. reflexivity.
Qed.

Lemma Forall2_nth_error {X Y : Type} (P : X -> Y -> Prop) (l : list X) (l' : list Y) :
  Forall2 P l l' ->
  forall r x y, nth_error l r = Some x -> nth_error l' r = Some y -> P x y.
Proof.
  induction 1 as [|a b l l' Hab _ IH]; intros r x y Hx Hy.
  - destruct r; discriminate.
  - destruct r as [|r]; simpl in Hx, Hy.
    + injection Hx as <-. injection Hy as <-. exact Hab.
    + eapply IH; eassumption.
Qed.

Lemma Forall2_in_r {X Y : Type} (P : X -> Y -> Prop) (l : list X) (l' : list Y) :
  Forall2 P l l' -> forall y, In y l' -> exists x, In x l /\ P x y.
Proof.
  induction 1 as [|a b l l' Hab _ IH]; intros y Hy.
  - destruct Hy.
  - destruct Hy as [<-|Hy].
    + exists a. split; [left; reflexivity | exact Hab].
    + destruct (IH y Hy) as (x & Hx & HP). exists x. split; [right; exact Hx | exact HP].
Qed.

(** The three rounds of [PatchGroupNorm_moments] on a height sharding,
    stepped through; what each worker does next is left in the goal. *)
Ltac step_patch_rounds G xs B Hne Hx :=
  rewrite run_gather_int by assumption;
  rewrite run_gather;
  [| assumption
   | apply (uniform_shape_map _ B G);
     let x := fresh "x" in let Hin := fresh "Hin" in
     intros x Hin; destruct (Hx x Hin) as (? & _); simpl; auto ];
  rewrite run_gather;
  [| assumption
   | apply (uniform_shape_map _ B G);
     let x := fresh "x" in let Hin := fresh "Hin" in
     intros x Hin; destruct (Hx x Hin) as (? & _); simpl; auto ];
  fold (gathered_heights xs);
  change (map (fun x => sum_to_size5 (grouped G x)) xs) with (partial_sums G xs).

Section ShardedForward.

Variable self : GroupNorm.
Variables B C W : nat.
Variable xs : list Tensor4.
Hypothesis Hok : sharding_ok B C W (num_groups self) xs = true.

Lemma normalize_on_shard (x : Tensor4) :
  In x xs ->
  exists y,
    PatchGroupNorm_normalize self (grouped (num_groups self) x)
      (mean_of (num_groups self) xs x) (var_of (num_groups self) xs x) = Ret y
    /\ normalized_as self C xs x y.
Proof.
  intros Hin.
  destruct (sharding_facts _ _ _ _ _ Hok) as (Hne & Hx & HB & HC & HW & HG & Hdiv & _).
  destruct (Hx x Hin) as (Hb & Hc & Hw & Hh).
  destruct (normalize_returns self (num_groups self) x
              (mean_of (num_groups self) xs x) (var_of (num_groups self) xs x))
    as (y & Hy & H1 & H2 & H3 & H4 & Hval); rewrite ?Hb, ?Hc, ?Hw; try assumption.
  exists y. split; [exact Hy|].
  unfold normalized_as. rewrite Hc in Hval. repeat (split; [assumption|]). exact Hval.
Qed.

(** The run up to the normalised shards: the three rounds of the estimator,
    then every worker holds its shard normalised with the global moments. *)
Lemma run_normalized :
  exists ys,
    (forall n, run_group (4 + n) (map (PatchGroupNorm_normalized self) xs)
               = (three_rounds (num_groups self) xs, Done ys))
    /\ Forall2 (normalized_as self C xs) xs ys.
Proof.
  destruct (sharding_facts _ _ _ _ _ Hok) as (Hne & Hx & HB & HC & HW & HG & Hdiv & _).
  destruct (rets_of_pointwise
              (fun x => PatchGroupNorm_normalize self (grouped (num_groups self) x)
                          (mean_of (num_groups self) xs x) (var_of (num_groups self) xs x))
              (normalized_as self C xs) xs normalize_on_shard) as (ys & Hmap & Hall).
  exists ys. split; [|exact Hall]. intros n.
  unfold PatchGroupNorm_normalized.
  rewrite (map_ext_in _ (fun x => bind (moments_rounds (num_groups self) x)
             (fun m => PatchGroupNorm_normalize self (fst (fst m)) (snd (fst m)) (snd m)))).
  2:{ intros x Hin. destruct (Hx x Hin) as (Hb & Hc & Hw & Hh).
      rewrite moments_unfold; rewrite ?Hb, ?Hc, ?Hw; auto. }
  unfold moments_rounds. cbn [bind fst snd].
  change (4 + n)%nat with (S (S (S (S n)))).
  step_patch_rounds (num_groups self) xs B Hne Hx.
  rewrite (map_ext _ (fun x => PatchGroupNorm_normalize self (grouped (num_groups self) x)
                          (mean_of (num_groups self) xs x) (var_of (num_groups self) xs x)))
    by reflexivity.
  rewrite Hmap, run_rets. reflexivity.
Qed.

Hypothesis Haff : affine_ready self C = true.

(** The run of the forward call: the same three rounds, then every worker
    returns its normalised shard with the affine parameters applied. *)
Lemma run_forward :
  exists ys outs,
    (forall n, run_group (4 + n) (map (PatchGroupNorm_normalized self) xs)
               = (three_rounds (num_groups self) xs, Done ys))
    /\ (forall n, run_group (4 + n) (map (PatchGroupNorm_forward self) xs)
                  = (three_rounds (num_groups self) xs, Done outs))
    /\ Forall2 (normalized_as self C xs) xs ys
    /\ Forall2 (affine_of self C) ys outs.
Proof.
  destruct (sharding_facts _ _ _ _ _ Hok) as (Hne & Hx & HB & HC & HW & HG & Hdiv & _).
  destruct (affine_ready_params _ _ Haff) as (wt & bs & Hwt & Hbs & Hlw & Hlb).
  destruct (rets_of_pointwise
              (fun x => PatchGroupNorm_normalize self (grouped (num_groups self) x)
                          (mean_of (num_groups self) xs x) (var_of (num_groups self) xs x))
              (normalized_as self C xs) xs normalize_on_shard) as (ys & Hmap & Hall).
  destruct (rets_of_pointwise (PatchGroupNorm_apply self) (affine_of self C) ys)
    as (outs & Hmap' & Hall').
  { intros y Hy. destruct (Forall2_in_r _ _ _ Hall y Hy) as (x & Hin & Hn).
    destruct (Hx x Hin) as (_ & Hc & _). destruct Hn as (_ & N2 & _).
    destruct (affine_returns self y wt bs Hwt Hbs) as (o & Ho & O1 & O2 & O3 & O4 & Hval);
      try congruence.
    exists o. split; [exact Ho|]. unfold affine_of. repeat (split; [assumption|]).
    intros wt' bs' Hwt' Hbs'. rewrite Hwt in Hwt'. rewrite Hbs in Hbs'.
    injection Hwt' as <-. injection Hbs' as <-.
    intros b c h w Hlt. apply Hval. congruence. }
  exists ys, outs. split; [|split; [|split; assumption]]; intros n.
  - unfold PatchGroupNorm_normalized.
    rewrite (map_ext_in _ (fun x => bind (moments_rounds (num_groups self) x)
               (fun m => PatchGroupNorm_normalize self (fst (fst m)) (snd (fst m)) (snd m)))).
    2:{ intros x Hin. destruct (Hx x Hin) as (Hb & Hc & Hw & Hh).
        rewrite moments_unfold; rewrite ?Hb, ?Hc, ?Hw; auto. }
    unfold moments_rounds. cbn [bind fst snd].
    change (4 + n)%nat with (S (S (S (S n)))).
    step_patch_rounds (num_groups self) xs B Hne Hx.
    rewrite (map_ext _ (fun x => PatchGroupNorm_normalize self (grouped (num_groups self) x)
                          (mean_of (num_groups self) xs x) (var_of (num_groups self) xs x)))
      by reflexivity.
    rewrite Hmap, run_rets. reflexivity.
  - unfold PatchGroupNorm_forward, PatchGroupNorm_normalized.
    rewrite (map_ext_in _ (fun x => bind (bind (moments_rounds (num_groups self) x)
               (fun m => PatchGroupNorm_normalize self (fst (fst m)) (snd (fst m)) (snd m)))
               (PatchGroupNorm_apply self))).
    2:{ intros x Hin. destruct (Hx x Hin) as (Hb & Hc & Hw & Hh).
        rewrite moments_unfold; rewrite ?Hb, ?Hc, ?Hw; auto. }
    unfold moments_rounds. cbn [bind fst snd].
    change (4 + n)%nat with (S (S (S (S n)))).
    step_patch_rounds (num_groups self) xs B Hne Hx.
    rewrite (map_ext _ (fun x => (fun p => bind p (PatchGroupNorm_apply self))
                          ((fun x => PatchGroupNorm_normalize self
                                       (grouped (num_groups self) x)
                                       (mean_of (num_groups self) xs x)
                                       (var_of (num_groups self) xs x)) x)))
      by reflexivity.
    rewrite <- (map_map _ (fun p => bind p (PatchGroupNorm_apply self))).
    rewrite Hmap, map_map. cbn [bind].
    rewrite (map_ext _ (PatchGroupNorm_apply self)) by reflexivity.
    rewrite Hmap', run_rets. reflexivity.
Qed.

End ShardedForward.

(** The single-worker normalisation returns for every group count that
    divides the channel count. *)
Lemma group_norm_returns (x : Tensor4) (G : nat) (e : R) :
  (1 <= G)%nat -> (dimC x mod G = 0)%nat ->
  exists y,
    group_norm x G e = Ret y
    /\ dimB y = dimB x /\ dimC y = dimC x /\ dimH y = dimH x /\ dimW y = dimW x
    /\ forall b c h w,
         at4 y b c h w
         = (at4 x b c h w - group_mean G x b (c / (dimC x / G))%nat)
           / sqrt (group_var G x b (c / (dimC x / G))%nat + e).
Proof.
  intros HG Hdiv. unfold group_norm.
  destruct (Nat.eqb_spec G 0) as [H0|_]; [lia|].
  rewrite Hdiv. cbn [Nat.eqb]. eexists. split; [reflexivity|].
  cbn [dimB dimC dimH dimW at4]. repeat split; reflexivity.
Qed.

Section Unsharded.

Variable self : GroupNorm.
Variables B C W : nat.
Variable xs : list Tensor4.
Hypothesis Hok : sharding_ok B C W (num_groups self) xs = true.
Hypothesis Haff : affine_ready self C = true.

(** The single-worker layer on the reassembled tensor. *)
Lemma reference_returns :
  exists ref,
    GroupNorm_forward self (cat_height B C W xs) = Ret ref
    /\ dimB ref = B /\ dimC ref = C /\ dimH ref = total_height xs /\ dimW ref = W
    /\ forall wt bs, weight self = Some wt -> bias self = Some bs ->
       forall b c h w, (c < C)%nat ->
         at4 ref b c h w
         = (cat_at xs b c h w
            - group_mean (num_groups self) (cat_height B C W xs) b
                         (c / (C / num_groups self))%nat)
           / sqrt (group_var (num_groups self) (cat_height B C W xs) b
                             (c / (C / num_groups self))%nat + eps self)
           * at1 wt c + at1 bs c.
Proof.
  destruct (sharding_facts _ _ _ _ _ Hok) as (_ & _ & _ & _ & _ & HG & Hdiv & _).
  destruct (affine_ready_params _ _ Haff) as (wt & bs & Hwt & Hbs & Hlw & Hlb).
  unfold GroupNorm_forward, group_norm. cbn [dimB dimC dimH dimW at4 cat_height].
  destruct (Nat.eqb_spec (num_groups self) 0) as [H0|_]; [lia|].
  rewrite Hdiv. cbn [Nat.eqb bind]. rewrite Hwt, Hbs.
  unfold affine4. cbn [dimB dimC dimH dimW at4].
  rewrite Hlw, broadcast_same, Hlb, broadcast_same.
  eexists. split; [reflexivity|]. cbn [dimB dimC dimH dimW at4].
  repeat (split; [reflexivity|]).
  intros wt' bs' Hwt' Hbs'. injection Hwt' as <-. injection Hbs' as <-.
  intros b c h w Hc. rewrite !(pick_lt _ _ Hc). reflexivity.
Qed.

End Unsharded.

(** C1. For every global tensor split into contiguous, disjoint height
    shards across the workers, the group run of [PatchGroupNorm.forward]
    completes its estimator, every worker's per-(batch, group) mean and
    variance are the mean and the biased variance that the single-worker
    group normalisation computes on the reassembled tensor, and every
    worker's normalised shard is the corresponding height slice of the
    single-worker normalised tensor; with per-channel affine parameters the
    same holds for the outputs of the forward calls.  (Exact arithmetic: the
    tolerance is zero.) *)
Theorem distributed_matches_unsharded
    (self : GroupNorm) (B C W : nat) (xs : list Tensor4) :
  sharding_ok B C W (num_groups self) xs = true ->
  exists ms ys ref,
    (forall n, run_group (4 + n) (map (PatchGroupNorm_moments (num_groups self)) xs)
               = (three_rounds (num_groups self) xs, Done ms))
    /\ (forall n, run_group (4 + n) (map (PatchGroupNorm_normalized self) xs)
                  = (three_rounds (num_groups self) xs, Done ys))
    /\ group_norm (cat_height B C W xs) (num_groups self) (eps self) = Ret ref
    /\ length ms = length xs /\ length ys = length xs
    /\ (forall m, In m ms -> forall b g,
          at2 (snd (fst m)) b g
          = group_mean (num_groups self) (cat_height B C W xs) b g
          /\ at2 (snd m) b g
             = group_var (num_groups self) (cat_height B C W xs) b g)
    /\ (forall r x y, nth_error xs r = Some x -> nth_error ys r = Some y ->
          dimB y = dimB x /\ dimC y = dimC x /\ dimH y = dimH x /\ dimW y = dimW x
          /\ forall b c h w, (b < B)%nat -> (c < C)%nat -> (h < dimH x)%nat -> (w < W)%nat ->
               at4 y b c h w = at4 ref b c (row_offset xs r + h)%nat w)
    /\ (forall X hs, xs = split_rows X 0 hs ->
          dimB X = B -> dimC X = C -> dimW X = W -> list_sum hs = dimH X ->
          forall m, In m ms -> forall b g,
            at2 (snd (fst m)) b g = group_mean (num_groups self) X b g
            /\ at2 (snd m) b g = group_var (num_groups self) X b g)
    /\ (affine_ready self C = true ->
        exists outs ref',
          (forall n, run_group (4 + n) (map (PatchGroupNorm_forward self) xs)
                     = (three_rounds (num_groups self) xs, Done outs))
          /\ GroupNorm_forward self (cat_height B C W xs) = Ret ref'
          /\ length outs = length xs
          /\ forall r x o, nth_error xs r = Some x -> nth_error outs r = Some o ->
               dimB o = dimB x /\ dimC o = dimC x /\ dimH o = dimH x /\ dimW o = dimW x
               /\ forall b c h w,
                    (b < B)%nat -> (c < C)%nat -> (h < dimH x)%nat -> (w < W)%nat ->
                    at4 o b c h w = at4 ref' b c (row_offset xs r + h)%nat w).
Proof.
  intros Hok.
  destruct (sharding_facts _ _ _ _ _ Hok) as (_ & _ & _ & _ & _ & HG & Hdiv & _).
  destruct (run_normalized self B C W xs Hok) as (ys & Hrun & Hall).
  destruct (group_norm_returns (cat_height B C W xs) (num_groups self) (eps self) HG Hdiv)
    as (ref & Href & _ & _ & _ & _ & Hval).
  assert (Hslice : forall r x b c h w, nth_error xs r = Some x -> (h < dimH x)%nat ->
            patch_normalize (eps self)
              (at2 (mean_of (num_groups self) xs x) b (c / (C / num_groups self))%nat)
              (at2 (var_of (num_groups self) xs x) b (c / (C / num_groups self))%nat)
              (at4 x b c h w)
            = at4 ref b c (row_offset xs r + h)%nat w).
  { intros r x b c h w Hx Hh. pose proof (nth_error_In _ _ Hx) as Hin.
    rewrite Hval. cbn [dimC at4 cat_height].
    rewrite (cat_at_shard xs r x b c h w Hx Hh).
    rewrite (mean_of_full B C W _ xs Hok x b _ Hin).
    rewrite (var_of_full B C W _ xs Hok x b _ Hin).
    reflexivity. }
  exists (map (fun x => (grouped (num_groups self) x, mean_of (num_groups self) xs x,
                         var_of (num_groups self) xs x)) xs), ys, ref.
  split; [intros n; apply (run_moments B C W _ xs Hok)|].
  split; [exact Hrun|]. split; [exact Href|].
  split; [apply length_map|].
  split; [symmetry; eapply Forall2_length; eassumption|].
  assert (Hstat : forall m,
            In m (map (fun x => (grouped (num_groups self) x,
                                 mean_of (num_groups self) xs x,
                                 var_of (num_groups self) xs x)) xs) ->
            forall b g,
              at2 (snd (fst m)) b g
              = group_mean (num_groups self) (cat_height B C W xs) b g
              /\ at2 (snd m) b g
                 = group_var (num_groups self) (cat_height B C W xs) b g).
  { intros m Hm b g. apply in_map_iff in Hm. destruct Hm as (x & <- & Hin).
    cbn [fst snd]. split.
    + apply (mean_of_full B C W _ xs Hok x b g Hin).
    + apply (var_of_full B C W _ xs Hok x b g Hin). }
  split; [exact Hstat|]. split; [|split].
  2:{ intros X hs Hsplit HB HC HW Hsum m Hm b g.
      destruct (Hstat m Hm b g) as [-> ->]. subst xs B C W.
      apply (moments_of_split (num_groups self) X hs b g Hsum). }
  - intros r x y Hx Hy.
    destruct (Forall2_nth_error _ _ _ Hall r x y Hx Hy) as (H1 & H2 & H3 & H4 & Hy').
    repeat (split; [assumption|]).
    intros b c h w _ Hc Hh _. rewrite (Hy' b c h w Hc). apply (Hslice r x b c h w Hx Hh).
  - intros Haff.
    destruct (run_forward self B C W xs Hok Haff) as (ys' & outs & _ & Hfwd & Hn & Ha).
    destruct (reference_returns self B C W xs Hok Haff)
      as (ref' & Href' & _ & _ & _ & _ & Hval').
    destruct (affine_ready_params _ _ Haff) as (wt & bs & Hwt & Hbs & _).
    exists outs, ref'. split; [exact Hfwd|]. split; [exact Href'|].
    assert (Hlen : length ys' = length xs) by (symmetry; eapply Forall2_length; eassumption).
    split; [rewrite <- Hlen; symmetry; eapply Forall2_length; eassumption|].
    intros r x o Hx Ho.
    destruct (nth_error ys' r) as [y|] eqn:Hy.
    2:{ apply nth_error_None in Hy.
        assert (r < length xs)%nat by (apply nth_error_Some; congruence). lia. }
    destruct (Forall2_nth_error _ _ _ Hn r x y Hx Hy) as (N1 & N2 & N3 & N4 & Hy').
    destruct (Forall2_nth_error _ _ _ Ha r y o Hy Ho) as (O1 & O2 & O3 & O4 & Ho').
    repeat (split; [congruence|]).
    intros b c h w _ Hc Hh _. pose proof (nth_error_In _ _ Hx) as Hin.
    rewrite (Ho' wt bs Hwt Hbs b c h w Hc), (Hy' b c h w Hc).
    rewrite (Hval' wt bs Hwt Hbs b c _ w Hc).
    rewrite (cat_at_shard xs r x b c h w Hx Hh).
    rewrite (mean_of_full B C W _ xs Hok x b _ Hin).
    rewrite (var_of_full B C W _ xs Hok x b _ Hin).
    reflexivity.
Qed.

(** ** PatchAdaGroupNorm on one batch entry and one group *)

Lemma reduce_axis_one (n i : nat) (f : nat -> R) :
  (n = 1%nat -> i = 0%nat) -> reduce_axis 1 n i f = sum_n n f.
Proof.
  intros Hi. unfold reduce_axis. cbn [Nat.eqb andb].
  destruct (Nat.eqb_spec n 1) as [->|_]; cbn [negb].
  - rewrite (Hi eq_refl). simpl. lra.
  - reflexivity.
Qed.

Lemma sum_to_size2_one (x : Tensor4) (s0 : nat) :
  s0 = 1%nat -> sum_to_size2 x s0 1 = Ret (ada_partial x).
Proof.
  intros ->. unfold sum_to_size2, ada_partial.
  cbn [Nat.eqb]. rewrite !orb_true_r. reflexivity.
Qed.

Lemma ada_partial_value (phi : R -> R) (x : Tensor4) :
  dimB x = 1%nat ->
  at2 (ada_partial (map4 phi x)) 0 0 = group_total phi 1 x 0 0.
Proof.
  intros HB. unfold ada_partial, group_total. cbn [at2 map4 dimB dimC dimH dimW at4].
  rewrite HB, Nat.div_1_r.
  cbn [sum_n]. rewrite Rplus_0_l. apply sum_n_ext. intros c _.
  rewrite reduce_axis_one by reflexivity. apply sum_n_ext. intros h _.
  rewrite reduce_axis_one by reflexivity. reflexivity.
Qed.

Lemma tensor_of_list_ones {X : Type} (t : X -> Tensor2) (xs : list X) :
  (forall x, In x xs -> numel2 (t x) = 1%nat) ->
  tensor_of_list (map t xs) = Ret (map (fun u => at2 u 0%nat 0%nat) (map t xs)).
Proof.
  intros H. unfold tensor_of_list.
  assert (Hall : forallb (fun u => (numel2 u =? 1)%nat) (map t xs) = true).
  { apply forallb_forall. intros u Hu. apply in_map_iff in Hu.
    destruct Hu as (x & <- & Hx). rewrite (H x Hx). reflexivity. }
  rewrite Hall. reflexivity.
Qed.

(** The three rounds of the estimator of [PatchAdaGroupNorm], stepped
    through for workers that all hold one batch entry. *)
Ltac step_ada_rounds A xs Hne Hx :=
  unfold PatchAdaGroupNorm_moments, resolve_height, all_gather_int, all_gather;
  cbn [bind Nat.eqb];
  rewrite run_gather_int by assumption;
  fold (gathered_heights xs);
  erewrite (@map_ext_in Tensor4 (Prog A));
  [| let x := fresh "x" in let Hin := fresh "Hin" in let Hb := fresh "Hb" in
     intros x Hin; destruct (Hx x Hin) as (Hb & _);
     rewrite (sum_to_size2_one x _ Hb); cbn [bind]; reflexivity ];
  rewrite run_gather;
  [| assumption
   | apply (uniform_shape_map _ 1%nat 1%nat); intros ? _; simpl; auto ];
  rewrite (tensor_of_list_ones ada_partial xs) by reflexivity; cbn [bind];
  erewrite (@map_ext_in Tensor4 (Prog A));
  [| let x := fresh "x" in let Hin := fresh "Hin" in let Hb := fresh "Hb" in
     intros x Hin; destruct (Hx x Hin) as (Hb & _);
     rewrite (sum_to_size2_one _ _ Hb); cbn [bind]; reflexivity ];
  rewrite run_gather;
  [| assumption
   | apply (uniform_shape_map _ 1%nat 1%nat); intros ? _; simpl; auto ];
  rewrite (tensor_of_list_ones _ xs) by reflexivity;
  cbn [bind fst snd].

Lemma run_ada_moments (C W : nat) (xs : list Tensor4) (n : nat) :
  sharding_ok 1 C W 1 xs = true ->
  run_group (4 + n) (map (PatchAdaGroupNorm_moments 1) xs)
  = (ada_rounds xs, Done (map (fun x => (ada_mean xs x, ada_variance xs x)) xs)).
Proof.
  intros Hok.
  destruct (sharding_facts _ _ _ _ _ Hok) as (Hne & Hx & _).
  change (4 + n)%nat with (S (S (S (S n)))).
  step_ada_rounds (R * R)%type xs Hne Hx.
  rewrite run_ret. reflexivity.
Qed.

Section AdaSharded.

Variables C W : nat.
Variable xs : list Tensor4.
Hypothesis Hok : sharding_ok 1 C W 1 xs = true.

Lemma ada_count_value (x : Tensor4) :
  In x xs -> IZR (ada_count xs x) = INR (C / 1 * total_height xs * W).
Proof.
  intros Hin. rewrite INR_IZR_INZ. f_equal.
  apply (nelements_value 1 C W 1 xs Hok x Hin).
Qed.

(** The mean of [PatchAdaGroupNorm] is the mean of the reassembled tensor. *)
Lemma ada_mean_full (x : Tensor4) :
  In x xs -> ada_mean xs x = group_mean 1 (cat_height 1 C W xs) 0 0.
Proof.
  intros Hin. destruct (sharding_facts _ _ _ _ _ Hok) as (_ & Hx & _).
  unfold ada_mean. rewrite (ada_count_value x Hin).
  unfold group_mean.
  rewrite (group_total_cat _ 1 C W 1 0 0 xs (shards_extents 1 C W 1 xs Hok)).
  cbn [dimC dimH dimW cat_height]. f_equal.
  unfold ada_sums. rewrite map_map. apply sum_list_ext_in. intros y Hy.
  destruct (Hx y Hy) as (Hb & _).
  apply (ada_partial_value (fun v => v) y Hb).
Qed.

(** Its variance is the biased variance of the reassembled tensor. *)
Lemma ada_variance_full (x : Tensor4) :
  In x xs -> ada_variance xs x = group_var 1 (cat_height 1 C W xs) 0 0.
Proof.
  intros Hin. destruct (sharding_facts _ _ _ _ _ Hok) as (_ & Hx & _).
  unfold ada_variance. rewrite (ada_count_value x Hin).
  unfold group_var.
  rewrite (group_total_cat _ 1 C W 1 0 0 xs (shards_extents 1 C W 1 xs Hok)).
  cbn [dimC dimH dimW cat_height]. f_equal.
  unfold ada_vars. rewrite map_map. apply sum_list_ext_in. intros y Hy.
  destruct (Hx y Hy) as (Hb & _).
  rewrite (ada_partial_value _ y Hb), (ada_mean_full y Hy). reflexivity.
Qed.

End AdaSharded.

(** ** The two rounds of the estimator *)

Lemma run_resolve_height (B C W G : nat) (xs : list Tensor4) (n : nat) :
  sharding_ok B C W G xs = true ->
  run_group (2 + n) (map resolve_height xs)
  = ([IntExchange (gathered_heights xs)],
     Done (repeat (Z.of_nat (total_height xs)) (length xs))).
Proof.
  intros Hok. destruct (sharding_facts _ _ _ _ _ Hok) as (Hne & _).
  unfold resolve_height, all_gather_int. cbn [bind].
  change (2 + n)%nat with (S (S n)).
  rewrite run_gather_int by assumption. rewrite run_ret. cbn [fst snd].
  fold (gathered_heights xs). rewrite (global_height B C W G xs Hok).
  f_equal. f_equal. generalize (Z.of_nat (total_height xs)). intros z.
  clear. induction xs as [|x l IH]; simpl; [|rewrite IH]; reflexivity.
Qed.

(** X17. In round 1 every worker obtains the global height as the sum of
    all workers' gathered height extents, the same value on every worker,
    and its group mean E is the sum over all ranks of the per-rank
    [batch, G] partial sums divided by
    channels_per_group * global_height * width.  This is
    [PatchGroupNorm.forward]; [PatchAdaGroupNorm.forward] does the same
    where it completes, for one batch entry and one group. *)
Theorem round_one_mean (B C W G : nat) (xs : list Tensor4) :
  sharding_ok B C W G xs = true ->
  exists sums vars ms,
    (forall n, run_group (2 + n) (map resolve_height xs)
               = ([IntExchange (map (fun x => Z.of_nat (dimH x)) xs)],
                  Done (repeat (Z.of_nat (total_height xs)) (length xs))))
    /\ (forall n, run_group (4 + n) (map (PatchGroupNorm_moments G) xs)
                  = ([IntExchange (map (fun x => Z.of_nat (dimH x)) xs);
                      TensorExchange sums; TensorExchange vars], Done ms))
    /\ length sums = length xs /\ length ms = length xs
    /\ (forall r x t, nth_error xs r = Some x -> nth_error sums r = Some t ->
          rows t = B /\ cols t = G
          /\ forall b g, at2 t b g = group_total (fun v => v) G x b g)
    /\ (forall m, In m ms ->
          rows (snd (fst m)) = B /\ cols (snd (fst m)) = G
          /\ forall b g,
               at2 (snd (fst m)) b g
               = sum_list (map (fun t => at2 t b g) sums)
                 / INR (C / G * total_height xs * W))
    /\ (B = 1%nat -> G = 1%nat ->
        exists asums avars ams,
          (forall n, run_group (4 + n) (map (PatchAdaGroupNorm_moments G) xs)
                     = ([IntExchange (map (fun x => Z.of_nat (dimH x)) xs);
                         TensorExchange asums; TensorExchange avars], Done ams))
          /\ length asums = length xs /\ length ams = length xs
          /\ (forall r x t, nth_error xs r = Some x -> nth_error asums r = Some t ->
                at2 t 0%nat 0%nat = group_total (fun v => v) G x 0 0)
          /\ forall m, In m ams ->
               fst m = sum_list (map (fun t => at2 t 0%nat 0%nat) asums)
                       / INR (C / G * total_height xs * W)).
Proof.
  intros Hok. destruct (sharding_facts _ _ _ _ _ Hok) as (_ & Hx & _).
  exists (partial_sums G xs), (partial_vars G xs),
    (map (fun x => (grouped G x, mean_of G xs x, var_of G xs x)) xs).
  split; [intros n; apply (run_resolve_height B C W G xs n Hok)|].
  split; [intros n; apply (run_moments B C W G xs Hok)|].
  split; [apply length_map|]. split; [apply length_map|]. split; [|split].
  3:{ intros HB HG. subst B G.
      exists (ada_sums xs), (ada_vars xs),
        (map (fun x => (ada_mean xs x, ada_variance xs x)) xs).
      split; [intros n; apply (run_ada_moments C W xs n Hok)|].
      split; [apply length_map|]. split; [apply length_map|]. split.
      - intros r x t Hr Ht. unfold ada_sums in Ht.
        rewrite (map_nth_error _ _ _ Hr) in Ht. injection Ht as <-.
        destruct (Hx x (nth_error_In _ _ Hr)) as (Hb & _).
        apply (ada_partial_value (fun v => v) x Hb).
      - intros m Hm. apply in_map_iff in Hm. destruct Hm as (x & <- & Hin).
        cbn [fst]. unfold ada_mean. rewrite (ada_count_value C W xs Hok x Hin).
        reflexivity. }
  - intros r x t Hr Ht. unfold partial_sums in Ht.
    rewrite (map_nth_error _ _ _ Hr) in Ht. injection Ht as <-.
    destruct (Hx x (nth_error_In _ _ Hr)) as (Hb & _).
    cbn [rows cols sum_to_size5 grouped d5B d5G]. auto.
  - intros m Hm. apply in_map_iff in Hm. destruct Hm as (x & <- & Hin).
    cbn [fst snd]. destruct (Hx x Hin) as (Hb & _).
    split; [exact Hb|]. split; [reflexivity|].
    intros b g. apply (mean_of_value B C W G xs Hok x b g Hin).
Qed.

(** X18. In round 2 each worker's contribution is its local sum of squared
    deviations from the mean E of round 1, which is the mean of the whole
    tensor, and the variance is the sum of the gathered contributions
    divided by the total element count
    channels_per_group * global_height * width (the biased estimator).
    This is [PatchGroupNorm.forward]; [PatchAdaGroupNorm.forward] does the
    same where it completes, for one batch entry and one group. *)
Theorem round_two_variance (B C W G : nat) (xs : list Tensor4) :
  sharding_ok B C W G xs = true ->
  exists sums vars ms,
    (forall n, run_group (4 + n) (map (PatchGroupNorm_moments G) xs)
               = ([IntExchange (map (fun x => Z.of_nat (dimH x)) xs);
                   TensorExchange sums; TensorExchange vars], Done ms))
    /\ length vars = length xs /\ length ms = length xs
    /\ (forall r x t m, nth_error xs r = Some x -> nth_error vars r = Some t ->
          nth_error ms r = Some m ->
          forall b g,
            at2 t b g = group_total (sq_dev (at2 (snd (fst m)) b g)) G x b g
            /\ at2 (snd (fst m)) b g = group_mean G (cat_height B C W xs) b g)
    /\ (forall m, In m ms -> forall b g,
          at2 (snd m) b g
          = sum_list (map (fun t => at2 t b g) vars)
            / INR (C / G * total_height xs * W)
          /\ at2 (snd m) b g = group_var G (cat_height B C W xs) b g)
    /\ INR (C / G * total_height xs * W)
       = INR (dimC (cat_height B C W xs) / G) * INR (dimH (cat_height B C W xs))
         * INR (dimW (cat_height B C W xs))
    /\ (B = 1%nat -> G = 1%nat ->
        exists asums avars ams,
          (forall n, run_group (4 + n) (map (PatchAdaGroupNorm_moments G) xs)
                     = ([IntExchange (map (fun x => Z.of_nat (dimH x)) xs);
                         TensorExchange asums; TensorExchange avars], Done ams))
          /\ length avars = length xs /\ length ams = length xs
          /\ (forall r x t m, nth_error xs r = Some x -> nth_error avars r = Some t ->
                nth_error ams r = Some m ->
                at2 t 0%nat 0%nat = group_total (sq_dev (fst m)) G x 0 0
                /\ fst m = group_mean G (cat_height B C W xs) 0 0)
          /\ forall m, In m ams ->
               snd m = sum_list (map (fun t => at2 t 0%nat 0%nat) avars)
                       / INR (C / G * total_height xs * W)
               /\ snd m = group_var G (cat_height B C W xs) 0 0).
Proof.
  intros Hok.
  exists (partial_sums G xs), (partial_vars G xs),
    (map (fun x => (grouped G x, mean_of G xs x, var_of G xs x)) xs).
  split; [intros n; apply (run_moments B C W G xs Hok)|].
  split; [apply length_map|]. split; [apply length_map|]. split; [|split; [|split]].
  4:{ intros HB HG. subst B G.
      destruct (sharding_facts _ _ _ _ _ Hok) as (_ & Hx & _).
      exists (ada_sums xs), (ada_vars xs),
        (map (fun x => (ada_mean xs x, ada_variance xs x)) xs).
      split; [intros n; apply (run_ada_moments C W xs n Hok)|].
      split; [apply length_map|]. split; [apply length_map|]. split.
      - intros r x t m Hr Ht Hm. unfold ada_vars in Ht.
        rewrite (map_nth_error _ _ _ Hr) in Ht. injection Ht as <-.
        rewrite (map_nth_error _ _ _ Hr) in Hm. injection Hm as <-. cbn [fst].
        destruct (Hx x (nth_error_In _ _ Hr)) as (Hb & _). split.
        + apply (ada_partial_value _ x Hb).
        + apply (ada_mean_full C W xs Hok x (nth_error_In _ _ Hr)).
      - intros m Hm. apply in_map_iff in Hm. destruct Hm as (x & <- & Hin).
        cbn [snd]. split.
        + unfold ada_variance. rewrite (ada_count_value C W xs Hok x Hin). reflexivity.
        + apply (ada_variance_full C W xs Hok x Hin). }
  - intros r x t m Hr Ht Hm b g. unfold partial_vars in Ht.
    rewrite (map_nth_error _ _ _ Hr) in Ht. injection Ht as <-.
    rewrite (map_nth_error _ _ _ Hr) in Hm. injection Hm as <-.
    cbn [fst snd]. split; [reflexivity|].
    apply (mean_of_full B C W G xs Hok x b g (nth_error_In _ _ Hr)).
  - intros m Hm b g. apply in_map_iff in Hm. destruct Hm as (x & <- & Hin).
    cbn [fst snd]. split.
    + apply (var_of_value B C W G xs Hok x b g Hin).
    + apply (var_of_full B C W G xs Hok x b g Hin).
  - cbn [dimC dimH dimW cat_height]. rewrite !mult_INR. reflexivity.
Qed.

(** ** The rounds that PatchAdaGroupNorm does not complete *)

(** C2. [PatchAdaGroupNorm.forward] misses the mean of round 1 on a valid
    height sharding for two groups: two workers hold two rows each of a
    [1, 4, 4, 3] tensor, the layer has two groups of two channels.  After the
    height exchange, [x.sum_to_size(B, G)] of line 77 takes the requested
    [1, 2] against the trailing (height, width) axes of the 4-D shard and
    raises; no partial sum is exchanged and no mean exists.  The sibling
    [PatchGroupNorm.forward], which views the shard as [B, G, -1, H, W]
    first, completes on the same shards, and its mean is the sum of the
    gathered [batch, G] partial sums over
    channels_per_group * global_height * width. *)
Theorem ada_round_one_raises_on_two_groups :
  sharding_ok 1 4 3 2 [shard_4_channels 1; shard_4_channels 7] = true
  /\ run_group 4 (map (PatchAdaGroupNorm_moments 2)
                      [shard_4_channels 1; shard_4_channels 7])
     = ([IntExchange [2%Z; 2%Z]], Failed NotExpandable)
  /\ exists sums vars ms,
       run_group 4 (map (PatchGroupNorm_moments 2)
                        [shard_4_channels 1; shard_4_channels 7])
       = ([IntExchange [2%Z; 2%Z]; TensorExchange sums; TensorExchange vars], Done ms)
       /\ length ms = 2%nat
       /\ forall m, In m ms -> forall b g,
            at2 (snd (fst m)) b g
            = sum_list (map (fun t => at2 t b g) sums) / INR (2 * 4 * 3).
Proof.
  assert (Hok : sharding_ok 1 4 3 2 [shard_4_channels 1; shard_4_channels 7] = true)
    by reflexivity.
  split; [exact Hok|]. split; [reflexivity|].
  exists (partial_sums 2 [shard_4_channels 1; shard_4_channels 7]),
         (partial_vars 2 [shard_4_channels 1; shard_4_channels 7]),
         (map (fun x => (grouped 2 x,
                         mean_of 2 [shard_4_channels 1; shard_4_channels 7] x,
                         var_of 2 [shard_4_channels 1; shard_4_channels 7] x))
              [shard_4_channels 1; shard_4_channels 7]).
  split; [exact (run_moments 1 4 3 2 _ Hok 0)|]. split; [reflexivity|].
  intros m Hm b g. apply in_map_iff in Hm. destruct Hm as (x & <- & Hin).
  cbn [fst snd]. exact (mean_of_value 1 4 3 2 _ Hok x b g Hin).
Qed.

(** C3. [PatchAdaGroupNorm.forward] never reaches round 2 on a valid height
    sharding of a tensor with two batch entries: two workers hold two rows
    each of a [2, 1, 4, 4] tensor, the layer has one group.  The partial sums
    are exchanged, then [torch.tensor] of line 80 refuses the gathered
    two-element buffers; no squared deviation is summed and no variance
    exists.  The sibling [PatchGroupNorm.forward], which uses [torch.stack],
    completes on the same shards: every contribution of its round 2 is the
    local sum of squared deviations from the mean of round 1, and its
    variance is the gathered sum over
    channels_per_group * global_height * width, the biased variance of the
    whole tensor. *)
Theorem ada_round_two_not_reached_on_two_batch_entries :
  sharding_ok 2 1 4 1 [shard_2_batch 1; shard_2_batch 2] = true
  /\ (exists sums,
        run_group 4 (map (PatchAdaGroupNorm_moments 1) [shard_2_batch 1; shard_2_batch 2])
        = ([IntExchange [2%Z; 2%Z]; TensorExchange sums], Failed NotOneElement))
  /\ exists sums vars ms,
       run_group 4 (map (PatchGroupNorm_moments 1) [shard_2_batch 1; shard_2_batch 2])
       = ([IntExchange [2%Z; 2%Z]; TensorExchange sums; TensorExchange vars], Done ms)
       /\ (forall r x t m,
             nth_error [shard_2_batch 1; shard_2_batch 2] r = Some x ->
             nth_error vars r = Some t -> nth_error ms r = Some m ->
             forall b g,
               at2 t b g = group_total (sq_dev (at2 (snd (fst m)) b g)) 1 x b g
               /\ at2 (snd (fst m)) b g
                  = group_mean 1 (cat_height 2 1 4 [shard_2_batch 1; shard_2_batch 2]) b g)
       /\ forall m, In m ms -> forall b g,
            at2 (snd m) b g
            = sum_list (map (fun t => at2 t b g) vars) / INR (1 * 4 * 4)
            /\ at2 (snd m) b g
               = group_var 1 (cat_height 2 1 4 [shard_2_batch 1; shard_2_batch 2]) b g.
Proof.
  assert (Hok : sharding_ok 2 1 4 1 [shard_2_batch 1; shard_2_batch 2] = true)
    by reflexivity.
  split; [exact Hok|]. split; [eexists; reflexivity|].
  exists (partial_sums 1 [shard_2_batch 1; shard_2_batch 2]),
         (partial_vars 1 [shard_2_batch 1; shard_2_batch 2]),
         (map (fun x => (grouped 1 x,
                         mean_of 1 [shard_2_batch 1; shard_2_batch 2] x,
                         var_of 1 [shard_2_batch 1; shard_2_batch 2] x))
              [shard_2_batch 1; shard_2_batch 2]).
  split; [exact (run_moments 2 1 4 1 _ Hok 0)|]. split.
  - intros r x t m Hr Ht Hm b g. unfold partial_vars in Ht.
    rewrite (map_nth_error _ _ _ Hr) in Ht. injection Ht as <-.
    rewrite (map_nth_error _ _ _ Hr) in Hm. injection Hm as <-.
    cbn [fst snd]. split; [reflexivity|].
    apply (mean_of_full 2 1 4 1 _ Hok x b g (nth_error_In _ _ Hr)).
  - intros m Hm b g. apply in_map_iff in Hm. destruct Hm as (x & <- & Hin).
    cbn [fst snd]. split.
    + exact (var_of_value 2 1 4 1 _ Hok x b g Hin).
    + apply (var_of_full 2 1 4 1 _ Hok x b g Hin).
Qed.

Lemma scenario_ok : sharding_ok 1 1 4 1 [shard_A; shard_B] = true.
Proof. reflexivity. Qed.

Lemma scenario_mean (x : Tensor4) (b g : nat) :
  In x [shard_A; shard_B] -> at2 (mean_of 1 [shard_A; shard_B] x) b g = 2.
Proof.
  intros Hin. rewrite (mean_of_value 1 1 4 1 _ scenario_ok x b g Hin).
  rewrite INR_IZR_INZ. simpl. lra.
Qed.

Lemma scenario_var (x : Tensor4) (b g : nat) :
  In x [shard_A; shard_B] -> at2 (var_of 1 [shard_A; shard_B] x) b g = 1.
Proof.
  intros Hin. rewrite (var_of_value 1 1 4 1 _ scenario_ok x b g Hin).
  unfold partial_vars. cbn [map]. 
  rewrite INR_IZR_INZ.
  cbn [sum_list at2 sum_to_size5 square5 sub5 grouped d5B d5G d5K d5H d5W at5
       shard_A shard_B dimB dimC dimH dimW at4].
  rewrite !(scenario_mean _ b g) by (simpl; auto).
  simpl. lra.
Qed.

(** C5. Two workers, one group, eps = 1e-5; worker A holds rows 0-1 of a
    4x4 single-channel image filled with 1, worker B rows 2-3 filled with 3.
    The distributed forward computes the global mean 2 and the global
    (population) variance 1 on both workers, and each worker's output is
    (local_value - 2) / sqrt(1 + 1e-5) at every element. *)
Theorem scenario_two_workers :
  exists ms oA oB,
    (forall n, run_group (4 + n) (map (PatchGroupNorm_moments 1) [shard_A; shard_B])
               = (three_rounds 1 [shard_A; shard_B], Done ms))
    /\ (forall n, run_group (4 + n)
                    (map (PatchGroupNorm_forward scenario_layer) [shard_A; shard_B])
                  = (three_rounds 1 [shard_A; shard_B], Done [oA; oB]))
    /\ length ms = 2%nat
    /\ (forall m, In m ms -> at2 (snd (fst m)) 0 0 = 2 /\ at2 (snd m) 0 0 = 1)
    /\ (dimB oA, dimC oA, dimH oA, dimW oA) = (1, 1, 2, 4)%nat
    /\ (dimB oB, dimC oB, dimH oB, dimW oB) = (1, 1, 2, 4)%nat
    /\ forall b c h w, (b < 1)%nat -> (c < 1)%nat -> (h < 2)%nat -> (w < 4)%nat ->
         at4 oA b c h w = (1 - 2) / sqrt (1 + 1 / 100000)
         /\ at4 oB b c h w = (3 - 2) / sqrt (1 + 1 / 100000).
Proof.
  destruct (run_forward scenario_layer 1 1 4 [shard_A; shard_B] scenario_ok eq_refl)
    as (ys & outs & _ & Hrun & Hn & Ha).
  inversion Hn as [|xA yA lA lA' HA Hrest]; subst.
  inversion Hrest as [|xB yB lB lB' HB Hnil]; subst.
  inversion Hnil; subst.
  inversion Ha as [|yA' oA mA mA' HA' Hrest']; subst.
  inversion Hrest' as [|yB' oB mB mB' HB' Hnil']; subst.
  inversion Hnil'; subst.
  exists (map (fun x => (grouped 1 x, mean_of 1 [shard_A; shard_B] x,
                         var_of 1 [shard_A; shard_B] x)) [shard_A; shard_B]), oA, oB.
  split; [intros n; apply (run_moments 1 1 4 1 _ scenario_ok)|].
  split; [exact Hrun|]. split; [reflexivity|]. split.
  - intros m Hm. apply in_map_iff in Hm. destruct Hm as (x & <- & Hin).
    cbn [fst snd]. split; [apply scenario_mean | apply scenario_var]; exact Hin.
  - destruct HA as (A1 & A2 & A3 & A4 & HvA). destruct HB as (B1 & B2 & B3 & B4 & HvB).
    destruct HA' as (A1' & A2' & A3' & A4' & HvA').
    destruct HB' as (B1' & B2' & B3' & B4' & HvB').
    split; [rewrite A1', A2', A3', A4', A1, A2, A3, A4; reflexivity|].
    split; [rewrite B1', B2', B3', B4', B1, B2, B3, B4; reflexivity|].
    intros b c h w _ Hc _ _. split.
    + rewrite (HvA' _ _ eq_refl eq_refl b c h w Hc), (HvA b c h w Hc).
      cbn [scenario_layer eps num_groups].
      rewrite scenario_mean, scenario_var by (simpl; auto).
      unfold patch_normalize. simpl. lra.
    + rewrite (HvB' _ _ eq_refl eq_refl b c h w Hc), (HvB b c h w Hc).
      cbn [scenario_layer eps num_groups].
      rewrite scenario_mean, scenario_var by (simpl; auto).
      unfold patch_normalize. simpl. lra.
Qed.

Lemma scenario_layer_constructed :
  PatchGroupNorm_init 1 1 (1 / 100000) true = Ret scenario_layer.
Proof. reflexivity. Qed.

(** A layer constructed with [affine=True] has its per-channel parameters. *)
Lemma constructed_layer_ready (G C : nat) (e : R) (self : GroupNorm) :
  PatchGroupNorm_init G C e true = Ret self ->
  num_groups self = G /\ affine_ready self C = true.
Proof.
  unfold PatchGroupNorm_init, GroupNorm_init.
  destruct (G =? 0)%nat; [discriminate|].
  destruct (negb _); [discriminate|].
  intros H. injection H as <-. cbn [num_groups affine_ready weight bias len].
  rewrite Nat.eqb_refl. split; reflexivity.
Qed.

(** ** Group isolation *)

Lemma sum_list_Forall2 {X : Type} (f f' : X -> R) (l l' : list X) :
  Forall2 (fun y y' => f y = f' y') l l' ->
  sum_list (map f l) = sum_list (map f' l').
Proof.
  induction 1 as [|y y' l l' Hy _ IH]; simpl; [reflexivity | rewrite Hy, IH; reflexivity].
Qed.

Lemma Forall2_impl_In {X Y : Type} (P Q : X -> Y -> Prop) (l : list X) (l' : list Y) :
  (forall x y, In x l -> In y l' -> P x y -> Q x y) ->
  Forall2 P l l' -> Forall2 Q l l'.
Proof.
  intros H HF. induction HF as [|x y l l' Hxy _ IH]; constructor.
  - apply H; simpl; auto.
  - apply IH. intros a b Ha Hb. apply H; simpl; auto.
Qed.

Lemma total_height_Forall2 (P : Tensor4 -> Tensor4 -> Prop) (l l' : list Tensor4) :
  (forall x x', P x x' -> dimH x = dimH x') ->
  Forall2 P l l' -> total_height l = total_height l'.
Proof.
  intros HP HF. induction HF as [|x x' l l' Hx _ IH]; simpl; [reflexivity|].
  rewrite (HP _ _ Hx), IH. reflexivity.
Qed.

(** A group's total only reads the group's own channels. *)
Lemma group_total_agree (phi : R -> R) (C G g g' b : nat) (x x' : Tensor4) :
  (1 <= G)%nat -> (C mod G = 0)%nat -> (1 <= C)%nat ->
  dimC x = C -> dimC x' = C -> dimW x = dimW x' ->
  agree_outside C G g x x' -> (g' < G)%nat -> g' <> g ->
  group_total phi G x b g' = group_total phi G x' b g'.
Proof.
  intros HG Hdiv HC Hc Hc' Hw (Hh & Hagree) Hg' Hne.
  unfold group_total. rewrite Hc, Hc', Hh, Hw.
  apply sum_n_ext. intros k Hk. apply sum_n_ext. intros h _.
  apply sum_n_ext. intros w _. f_equal. apply Hagree.
  - rewrite <- (groups_times_size C G Hdiv) at 2. nia.
  - rewrite Nat.div_add_l by lia.
    rewrite (Nat.div_small k) by lia. lia.
Qed.

(** C6. Group isolation: when two runs differ only in elements whose
    channel belongs to group g, every worker's mean and variance of every
    other group are the same in the two runs. *)
Theorem group_isolation (B C W G g : nat) (xs xs' : list Tensor4) :
  sharding_ok B C W G xs = true ->
  sharding_ok B C W G xs' = true ->
  Forall2 (agree_outside C G g) xs xs' ->
  exists ms ms',
    (forall n, run_group (4 + n) (map (PatchGroupNorm_moments G) xs)
               = (three_rounds G xs, Done ms))
    /\ (forall n, run_group (4 + n) (map (PatchGroupNorm_moments G) xs')
                  = (three_rounds G xs', Done ms'))
    /\ length ms = length xs /\ length ms' = length xs
    /\ forall m m', In m ms -> In m' ms' ->
       forall b g', (g' < G)%nat -> g' <> g ->
         at2 (snd (fst m)) b g' = at2 (snd (fst m')) b g'
         /\ at2 (snd m) b g' = at2 (snd m') b g'.
Proof.
  intros Hok Hok' Hagree.
  destruct (sharding_facts _ _ _ _ _ Hok) as (_ & Hx & _ & HC & _ & HG & Hdiv & _).
  destruct (sharding_facts _ _ _ _ _ Hok') as (_ & Hx' & _).
  exists (map (fun x => (grouped G x, mean_of G xs x, var_of G xs x)) xs),
         (map (fun x => (grouped G x, mean_of G xs' x, var_of G xs' x)) xs').
  split; [intros n; apply (run_moments B C W G xs Hok)|].
  split; [intros n; apply (run_moments B C W G xs' Hok')|].
  split; [apply length_map|].
  split; [rewrite length_map; symmetry; eapply Forall2_length; eassumption|].
  intros m m' Hm Hm' b g' Hg' Hne.
  apply in_map_iff in Hm. destruct Hm as (x & <- & Hin).
  apply in_map_iff in Hm'. destruct Hm' as (x' & <- & Hin').
  cbn [fst snd].
  assert (Hht : total_height xs = total_height xs').
  { apply (total_height_Forall2 _ _ _ (fun a a' H => proj1 H) Hagree). }
  assert (Hmean : forall y y', In y xs -> In y' xs' ->
            at2 (mean_of G xs y) b g' = at2 (mean_of G xs' y') b g').
  { intros y y' Hy Hy'.
    rewrite (mean_of_value B C W G xs Hok y b g' Hy).
    rewrite (mean_of_value B C W G xs' Hok' y' b g' Hy').
    rewrite Hht. f_equal. unfold partial_sums. rewrite !map_map.
    apply sum_list_Forall2. eapply Forall2_impl_In; [|exact Hagree].
    intros a a' Ha Ha' Haa.
    destruct (Hx a Ha) as (_ & Hca & Hwa & _). destruct (Hx' a' Ha') as (_ & Hca' & Hwa' & _).
    apply (group_total_agree (fun v => v) C G g g' b a a'); auto; congruence. }
  split; [apply Hmean; assumption|].
  rewrite (var_of_value B C W G xs Hok x b g' Hin).
  rewrite (var_of_value B C W G xs' Hok' x' b g' Hin').
  rewrite Hht. f_equal. unfold partial_vars. rewrite !map_map.
  apply sum_list_Forall2. eapply Forall2_impl_In; [|exact Hagree].
  intros a a' Ha Ha' Haa.
  destruct (Hx a Ha) as (_ & Hca & Hwa & _). destruct (Hx' a' Ha') as (_ & Hca' & Hwa' & _).
  change (group_total (sq_dev (at2 (mean_of G xs a) b g')) G a b g'
          = group_total (sq_dev (at2 (mean_of G xs' a') b g')) G a' b g').
  rewrite (Hmean a a' Ha Ha').
  apply (group_total_agree _ C G g g' b a a'); auto; congruence.
Qed.

(** ** The conditioning projector and applicator *)

Lemma project_returns (act : option (R -> R)) (lin : Linear) (emb : Tensor2) :
  cols emb = in_features lin ->
  exists scale shift,
    project act lin emb = Ret (scale, shift)
    /\ rows scale = rows emb /\ cols scale = ((out_features lin + 1) / 2)%nat
    /\ rows shift = rows emb
    /\ cols shift = (out_features lin - (out_features lin + 1) / 2)%nat.
Proof.
  intros Hc. unfold project, linear_apply.
  assert (Hc' : (cols (match act with Some f => map2 f emb | None => emb end)
                 =? in_features lin)%nat = true).
  { apply Nat.eqb_eq. destruct act; exact Hc. }
  rewrite Hc'. cbn [bind]. eexists. eexists. split; [reflexivity|].
  cbn [chunk2 rows cols]. destruct act; repeat split; reflexivity.
Qed.

Lemma half_of_double (d : nat) :
  ((d * 2 + 1) / 2 = d /\ d * 2 - (d * 2 + 1) / 2 = d)%nat.
Proof.
  assert (H : ((d * 2 + 1) / 2 = d)%nat).
  { rewrite Nat.div_add_l by lia. simpl. lia. }
  rewrite H. lia.
Qed.

(** With one scale and one shift per (batch entry, channel) the applicator
    of the conditioning variants keeps the shape and is elementwise. *)
Lemma scale_shift_returns (y : Tensor4) (scale shift : Tensor2) :
  rows scale = dimB y -> cols scale = dimC y ->
  rows shift = dimB y -> cols shift = dimC y ->
  exists o,
    scale_shift4 y scale shift = Ret o
    /\ dimB o = dimB y /\ dimC o = dimC y /\ dimH o = dimH y /\ dimW o = dimW y
    /\ forall b c h w, (b < dimB y)%nat -> (c < dimC y)%nat ->
         at4 o b c h w = at4 y b c h w * (1 + at2 scale b c) + at2 shift b c.
Proof.
  intros Hrs Hcs Hrh Hch. unfold scale_shift4.
  rewrite Hrs, Hcs, !broadcast_same, Hrh, Hch, !broadcast_same.
  eexists. split; [reflexivity|]. cbn [dimB dimC dimH dimW at4].
  repeat (split; [reflexivity|]).
  intros b c h w Hb Hc. rewrite !(pick_lt _ _ Hb), !(pick_lt _ _ Hc). reflexivity.
Qed.

(** The forward call of [AdaGroupNorm] on an input with one scale and one
    shift per (batch entry, channel). *)
Lemma ada_forward_output (self : AdaGroupNorm) (x : Tensor4) (emb : Tensor2) :
  cols emb = in_features (ada_linear self) -> rows emb = dimB x ->
  out_features (ada_linear self) = (dimC x * 2)%nat ->
  (1 <= ada_num_groups self)%nat -> (dimC x mod ada_num_groups self = 0)%nat ->
  exists scale shift y o,
    project (ada_act self) (ada_linear self) emb = Ret (scale, shift)
    /\ group_norm x (ada_num_groups self) (ada_eps self) = Ret y
    /\ AdaGroupNorm_forward self x emb = Ret o
    /\ dimB o = dimB x /\ dimC o = dimC x /\ dimH o = dimH x /\ dimW o = dimW x
    /\ forall b c h w, (b < dimB x)%nat -> (c < dimC x)%nat ->
         at4 o b c h w = at4 y b c h w * (1 + at2 scale b c) + at2 shift b c.
Proof.
  intros Hce Hre Hout HG Hdiv.
  destruct (project_returns (ada_act self) (ada_linear self) emb Hce)
    as (scale & shift & Hp & Hrs & Hcs & Hrh & Hch).
  destruct (group_norm_returns x (ada_num_groups self) (ada_eps self) HG Hdiv)
    as (y & Hy & Y1 & Y2 & Y3 & Y4 & _).
  rewrite Hout in Hcs, Hch. destruct (half_of_double (dimC x)) as [Hh1 Hh2].
  rewrite Hh1 in Hcs. rewrite Hh2 in Hch.
  destruct (scale_shift_returns y scale shift) as (o & Ho & O1 & O2 & O3 & O4 & Hval);
    try congruence.
  exists scale, shift, y, o.
  split; [exact Hp|]. split; [exact Hy|]. split.
  - unfold AdaGroupNorm_forward. rewrite Hp. cbn [bind]. rewrite Hy. cbn [bind fst snd].
    exact Ho.
  - repeat (split; [congruence|]).
    intros b c h w Hb Hc. apply Hval; congruence.
Qed.

(** The forward call of [PatchAdaGroupNorm] by a group of workers, for one
    batch entry and one group, the same embedding on every worker. *)
Lemma patch_ada_forward_output (self : AdaGroupNorm) (C W : nat) (xs : list Tensor4)
    (emb : Tensor2) :
  sharding_ok 1 C W 1 xs = true -> ada_num_groups self = 1%nat ->
  cols emb = in_features (ada_linear self) -> rows emb = 1%nat ->
  out_features (ada_linear self) = (C * 2)%nat ->
  exists scale shift outs,
    project (ada_act self) (ada_linear self) emb = Ret (scale, shift)
    /\ (forall n, run_group (4 + n) (map (PatchAdaGroupNorm_normalized self) xs)
                  = (ada_rounds xs, Done (map (ada_normalized_shard self xs) xs)))
    /\ (forall n, run_group (4 + n) (map (fun x => PatchAdaGroupNorm_forward self x emb) xs)
                  = (ada_rounds xs, Done outs))
    /\ Forall2 (fun x o =>
         dimB o = dimB x /\ dimC o = dimC x /\ dimH o = dimH x /\ dimW o = dimW x
         /\ forall b c h w, (b < 1)%nat -> (c < C)%nat ->
              at4 o b c h w
              = at4 (ada_normalized_shard self xs x) b c h w
                * (1 + at2 scale b c) + at2 shift b c) xs outs.
Proof.
  intros Hok HG Hce Hre Hout.
  destruct (sharding_facts _ _ _ _ _ Hok) as (Hne & Hx & _).
  destruct (project_returns (ada_act self) (ada_linear self) emb Hce)
    as (scale & shift & Hp & Hrs & Hcs & Hrh & Hch).
  rewrite Hout in Hcs, Hch. destruct (half_of_double C) as [Hh1 Hh2].
  rewrite Hh1 in Hcs. rewrite Hh2 in Hch.
  destruct (rets_of_pointwise
    (fun x => scale_shift4 (ada_normalized_shard self xs x) scale shift)
    (fun x o =>
         dimB o = dimB x /\ dimC o = dimC x /\ dimH o = dimH x /\ dimW o = dimW x
         /\ forall b c h w, (b < 1)%nat -> (c < C)%nat ->
              at4 o b c h w
              = at4 (ada_normalized_shard self xs x) b c h w
                * (1 + at2 scale b c) + at2 shift b c) xs) as (outs & Hmap & Hall).
  { intros x Hin. destruct (Hx x Hin) as (Hb & Hc & _).
    destruct (scale_shift_returns (ada_normalized_shard self xs x) scale shift)
      as (o & Ho & O1 & O2 & O3 & O4 & Hval);
      cbn [ada_normalized_shard map4 dimB dimC]; try congruence.
    exists o. split; [exact Ho|]. cbn [ada_normalized_shard map4 dimB dimC dimH dimW] in *.
    repeat (split; [assumption|]).
    intros b c h w Hb' Hc'. apply Hval; congruence. }
  exists scale, shift, outs. split; [exact Hp|]. split; [|split; [|exact Hall]]; intros n.
  - unfold PatchAdaGroupNorm_normalized. rewrite HG.
    change (4 + n)%nat with (S (S (S (S n)))).
    step_ada_rounds Tensor4 xs Hne Hx.
    rewrite run_ret. reflexivity.
  - unfold PatchAdaGroupNorm_forward, PatchAdaGroupNorm_normalized.
    rewrite Hp, HG. cbn [bind fst snd].
    change (4 + n)%nat with (S (S (S (S n)))).
    step_ada_rounds Tensor4 xs Hne Hx.
    rewrite (@map_ext Tensor4 (Prog Tensor4) _
               (fun x => scale_shift4 (ada_normalized_shard self xs x) scale shift))
      by reflexivity.
    rewrite Hmap, run_rets. reflexivity.
Qed.

(** C4. Given the normalised shard, the applicator produces
    normalised * (1 + scale) + shift in the conditioning variants
    ([AdaGroupNorm], [PatchAdaGroupNorm]) and normalised * weight + bias in
    the affine variant ([PatchGroupNorm]), element by element with
    broadcasting over the spatial axes, and the output has the shape of the
    input shard.  The parameters are per channel of the input: one scale and
    shift per (batch entry, channel), one weight and bias per channel. *)
Theorem applicator_output :
  (forall (self : AdaGroupNorm) (x : Tensor4) (emb : Tensor2),
     cols emb = in_features (ada_linear self) -> rows emb = dimB x ->
     out_features (ada_linear self) = (dimC x * 2)%nat ->
     (1 <= ada_num_groups self)%nat -> (dimC x mod ada_num_groups self = 0)%nat ->
     exists scale shift normalized o,
       project (ada_act self) (ada_linear self) emb = Ret (scale, shift)
       /\ group_norm x (ada_num_groups self) (ada_eps self) = Ret normalized
       /\ AdaGroupNorm_forward self x emb = Ret o
       /\ dimB o = dimB x /\ dimC o = dimC x /\ dimH o = dimH x /\ dimW o = dimW x
       /\ forall b c h w, (b < dimB x)%nat -> (c < dimC x)%nat ->
            at4 o b c h w
            = at4 normalized b c h w * (1 + at2 scale b c) + at2 shift b c)
  /\ (forall (self : AdaGroupNorm) (C W : nat) (xs : list Tensor4) (emb : Tensor2),
        sharding_ok 1 C W 1 xs = true -> ada_num_groups self = 1%nat ->
        cols emb = in_features (ada_linear self) -> rows emb = 1%nat ->
        out_features (ada_linear self) = (C * 2)%nat ->
        exists scale shift ys outs,
          project (ada_act self) (ada_linear self) emb = Ret (scale, shift)
          /\ (forall n, run_group (4 + n) (map (PatchAdaGroupNorm_normalized self) xs)
                        = (ada_rounds xs, Done ys))
          /\ (forall n, run_group (4 + n)
                          (map (fun x => PatchAdaGroupNorm_forward self x emb) xs)
                        = (ada_rounds xs, Done outs))
          /\ forall r x normalized o, nth_error xs r = Some x ->
               nth_error ys r = Some normalized -> nth_error outs r = Some o ->
               dimB o = dimB x /\ dimC o = dimC x /\ dimH o = dimH x /\ dimW o = dimW x
               /\ forall b c h w, (b < 1)%nat -> (c < C)%nat ->
                    at4 o b c h w
                    = at4 normalized b c h w * (1 + at2 scale b c) + at2 shift b c)
  /\ (forall (self : GroupNorm) (B C W : nat) (xs : list Tensor4) (wt bs : Tensor1),
        sharding_ok B C W (num_groups self) xs = true ->
        weight self = Some wt -> bias self = Some bs -> len wt = C -> len bs = C ->
        exists ys outs,
          (forall n, run_group (4 + n) (map (PatchGroupNorm_normalized self) xs)
                     = (three_rounds (num_groups self) xs, Done ys))
          /\ (forall n, run_group (4 + n) (map (PatchGroupNorm_forward self) xs)
                        = (three_rounds (num_groups self) xs, Done outs))
          /\ forall r x normalized o, nth_error xs r = Some x ->
               nth_error ys r = Some normalized -> nth_error outs r = Some o ->
               dimB o = dimB x /\ dimC o = dimC x /\ dimH o = dimH x /\ dimW o = dimW x
               /\ forall b c h w, (b < B)%nat -> (c < C)%nat ->
                    at4 o b c h w = at4 normalized b c h w * at1 wt c + at1 bs c).
Proof.
  split; [exact ada_forward_output|]. split.
  - intros self C W xs emb Hok HG Hce Hre Hout.
    destruct (patch_ada_forward_output self C W xs emb Hok HG Hce Hre Hout)
      as (scale & shift & outs & Hp & Hrun & Hfwd & Hall).
    exists scale, shift, (map (ada_normalized_shard self xs) xs), outs.
    split; [exact Hp|]. split; [exact Hrun|]. split; [exact Hfwd|].
    intros r x y o Hx Hy Ho. rewrite (map_nth_error _ _ _ Hx) in Hy.
    injection Hy as <-.
    exact (Forall2_nth_error _ _ _ Hall r x o Hx Ho).
  - intros self B C W xs wt bs Hok Hwt Hbs Hlw Hlb.
    assert (Haff : affine_ready self C = true).
    { unfold affine_ready. rewrite Hwt, Hbs, Hlw, Hlb, !Nat.eqb_refl. reflexivity. }
    destruct (run_forward self B C W xs Hok Haff) as (ys & outs & Hrun & Hfwd & Hn & Ha).
    exists ys, outs. split; [exact Hrun|]. split; [exact Hfwd|].
    intros r x y o Hx Hy Ho.
    destruct (Forall2_nth_error _ _ _ Hn r x y Hx Hy) as (N1 & N2 & N3 & N4 & _).
    destruct (Forall2_nth_error _ _ _ Ha r y o Hy Ho) as (O1 & O2 & O3 & O4 & Hval).
    repeat (split; [congruence|]).
    intros b c h w _ Hc. apply (Hval wt bs Hwt Hbs b c h w Hc).
Qed.

(** ** The collectives of one forward call *)

Lemma returns_after_ret {A : Type} (tr : list posted) (a : A) :
  returns_after tr (Ret a) -> tr = [].
Proof. intros H. inversion H. reflexivity. Qed.

Lemma normalize_no_collective (self : GroupNorm) (x : Tensor5) (E var : Tensor2)
    (k : Tensor4 -> Prog Tensor4) (tr : list posted) :
  (forall y tr', returns_after tr' (k y) -> tr' = []) ->
  returns_after tr (bind (PatchGroupNorm_normalize self x E var) k) -> tr = [].
Proof.
  intros Hk. unfold PatchGroupNorm_normalize, view4. cbn [d5B d5G d5K d5H d5W].
  destruct (_ && _); cbn [bind]; [|intros H; inversion H].
  apply Hk.
Qed.

Lemma apply_no_collective (self : GroupNorm) (x : Tensor4) (tr : list posted) :
  returns_after tr (PatchGroupNorm_apply self x) -> tr = [].
Proof.
  unfold PatchGroupNorm_apply.
  destruct (weight self), (bias self); try (intros H; inversion H; fail).
  unfold affine4. destruct (broadcast _ _); [|intros H; inversion H].
  destruct (broadcast _ _); [|intros H; inversion H].
  apply returns_after_ret.
Qed.

Lemma scale_shift_no_collective (x : Tensor4) (scale shift : Tensor2) (tr : list posted) :
  returns_after tr (scale_shift4 x scale shift) -> tr = [].
Proof.
  unfold scale_shift4.
  repeat (destruct (broadcast _ _); [|intros H; inversion H]).
  apply returns_after_ret.
Qed.

Lemma patch_forward_posts (self : GroupNorm) (x : Tensor4) (tr : list posted) :
  returns_after tr (PatchGroupNorm_forward self x) -> is_three_gathers tr.
Proof.
  unfold PatchGroupNorm_forward, PatchGroupNorm_normalized, PatchGroupNorm_moments,
    resolve_height, all_gather_int, all_gather.
  cbn [bind]. intros H. inversion H as [| v k l tr1 H1 |]; subst. clear H.
  destruct (num_groups self =? 0)%nat; [inversion H1|].
  unfold view5 in H1. destruct (_ && _); cbn [bind] in H1; [|inversion H1].
  inversion H1 as [| | t2 k2 l2 tr2 H2]; subst. clear H1.
  inversion H2 as [| | t3 k3 l3 tr3 H3]; subst. clear H2.
  cbn [fst snd] in H3.
  apply normalize_no_collective in H3; [|intros y tr'; apply apply_no_collective].
  subst. unfold is_three_gathers. eauto.
Qed.

Lemma patch_ada_forward_posts (self : AdaGroupNorm) (x : Tensor4) (emb : Tensor2)
    (tr : list posted) :
  returns_after tr (PatchAdaGroupNorm_forward self x emb) -> is_three_gathers tr.
Proof.
  unfold PatchAdaGroupNorm_forward, project, linear_apply.
  destruct (_ =? _)%nat; cbn [bind]; [|intros H; inversion H].
  unfold PatchAdaGroupNorm_normalized, PatchAdaGroupNorm_moments, resolve_height,
    all_gather_int, all_gather.
  cbn [bind]. intros H. inversion H as [| v k l tr1 H1 |]; subst. clear H.
  destruct (ada_num_groups self =? 0)%nat; [inversion H1|].
  unfold sum_to_size2 at 1 in H1.
  destruct (_ && _); cbn [bind] in H1; [|inversion H1].
  inversion H1 as [| | t2 k2 l2 tr2 H2]; subst. clear H1.
  unfold tensor_of_list at 1 in H2.
  destruct (forallb _ l2); cbn [bind] in H2; [|inversion H2].
  unfold sum_to_size2 at 1 in H2.
  destruct (_ && _); cbn [bind] in H2; [|inversion H2].
  inversion H2 as [| | t3 k3 l3 tr3 H3]; subst. clear H2.
  unfold tensor_of_list at 1 in H3.
  destruct (forallb _ l3); cbn [bind] in H3; [|inversion H3].
  cbn [fst snd] in H3. apply scale_shift_no_collective in H3. subst.
  unfold is_three_gathers. eauto.
Qed.

(** C7 as it stands fails: in the two-worker scenario the group completes
    three collective rounds in one forward call, not two; the first one is
    the exchange of the height extents. *)
Lemma scenario_posts_three_collectives :
  fst (run_group 4 (map (PatchGroupNorm_forward scenario_layer) [shard_A; shard_B]))
  = three_rounds 1 [shard_A; shard_B]
  /\ length (fst (run_group 4 (map (PatchGroupNorm_forward scenario_layer)
                                   [shard_A; shard_B]))) <> 2%nat.
Proof.
  destruct (run_forward scenario_layer 1 1 4 [shard_A; shard_B] scenario_ok eq_refl)
    as (ys & outs & _ & Hrun & _).
  change 4%nat with (4 + 0)%nat.
  rewrite (Hrun 0%nat). split; [reflexivity|]. simpl. discriminate.
Qed.

(** C7, amended. A forward call of a distributed variant posts exactly
    three collective calls before it returns: the exchange of the height
    extents, then the exchange of the partial sums (mean), then the exchange
    of the partial sums of squared deviations (variance).  On a height
    sharding the group of workers completes exactly these three rounds. *)
Theorem three_collectives_per_forward :
  (forall (self : GroupNorm) (x : Tensor4) (tr : list posted),
     returns_after tr (PatchGroupNorm_forward self x) ->
     exists h s v, tr = [PostInt h; PostTensor s; PostTensor v])
  /\ (forall (self : AdaGroupNorm) (x : Tensor4) (emb : Tensor2) (tr : list posted),
        returns_after tr (PatchAdaGroupNorm_forward self x emb) ->
        exists h s v, tr = [PostInt h; PostTensor s; PostTensor v])
  /\ (forall (self : GroupNorm) (B C W : nat) (xs : list Tensor4),
        sharding_ok B C W (num_groups self) xs = true ->
        affine_ready self C = true ->
        exists sums vars outs,
          (forall n, run_group (4 + n) (map (PatchGroupNorm_forward self) xs)
                     = ([IntExchange (map (fun x => Z.of_nat (dimH x)) xs);
                         TensorExchange sums; TensorExchange vars], Done outs))
          /\ (forall r x t, nth_error xs r = Some x -> nth_error sums r = Some t ->
                forall b g, at2 t b g = group_total (fun v => v) (num_groups self) x b g)
          /\ (forall r x t, nth_error xs r = Some x -> nth_error vars r = Some t ->
                forall b g,
                  at2 t b g
                  = group_total
                      (sq_dev (group_mean (num_groups self) (cat_height B C W xs) b g))
                      (num_groups self) x b g)).
Proof.
  split; [exact patch_forward_posts|]. split; [exact patch_ada_forward_posts|].
  intros self B C W xs Hok Haff.
  destruct (run_forward self B C W xs Hok Haff) as (ys & outs & _ & Hrun & _).
  exists (partial_sums (num_groups self) xs), (partial_vars (num_groups self) xs), outs.
  split; [exact Hrun|]. split.
  - intros r x t Hr Ht b g. unfold partial_sums in Ht.
    rewrite (map_nth_error _ _ _ Hr) in Ht. injection Ht as <-. reflexivity.
  - intros r x t Hr Ht b g. unfold partial_vars in Ht.
    rewrite (map_nth_error _ _ _ Hr) in Ht. injection Ht as <-.
    rewrite <- (mean_of_full B C W _ xs Hok x b g (nth_error_In _ _ Hr)). reflexivity.
Qed.

(** ** Placement of eps *)

(** C8 as it stands fails: the two distributed implementations normalise
    with the same expression; there is no input on which they differ. *)
Lemma eps_placement_does_not_differ :
  ~ (exists e E var v, ada_normalize e E var v <> patch_normalize e E var v).
Proof. intros (e & E & var & v & H). apply H. reflexivity. Qed.

(** C8, amended. Both distributed implementations add eps to the variance
    before the square root: each normalises an element v to
    (v - E) / sqrt(var + eps).  Adding eps after the division is a different
    function. *)
Theorem eps_before_sqrt_in_both :
  (forall e E var v,
     ada_normalize e E var v = (v - E) / sqrt (var + e)
     /\ patch_normalize e E var v = (v - E) / sqrt (var + e))
  /\ ada_normalize 1 0 3 2 <> (2 - 0) / sqrt 3 + 1
  /\ patch_normalize 1 0 3 2 <> (2 - 0) / sqrt 3 + 1.
Proof.
  assert (H4 : sqrt (3 + 1) = 2).
  { replace (3 + 1) with (2 * 2) by lra. apply sqrt_square. lra. }
  assert (H3 : 0 < sqrt 3) by (apply sqrt_lt_R0; lra).
  assert (Hq : 0 < (2 - 0) / sqrt 3).
  { apply Rdiv_lt_0_compat; lra. }
  split; [intros; split; reflexivity|].
  unfold ada_normalize, patch_normalize. rewrite H4. split; lra.
Qed.

(** ** Construction *)

(** C9. Constructing the layer with num_channels = 10 and num_groups = 3
    fails with a configuration error; no layer exists on which a forward
    call could be made. *)
Theorem construction_rejects_10_channels_3_groups (e : R) (affine : bool) :
  PatchGroupNorm_init 3 10 e affine = Raise ConfigurationError
  /\ forall layer, PatchGroupNorm_init 3 10 e affine <> Ret layer.
Proof. split; [reflexivity | intros layer H; discriminate H]. Qed.

(** ** PatchAdaGroupNorm and the channel count *)



(** * Further properties of the layers *)

(** ** Runs that end in an error *)

Lemma run_all_raise {X A : Type} (fuel : nat) (e : error) (xs : list X) :
  xs <> [] ->
  run_group (S fuel) (map (fun _ : X => @Raise A e) xs) = ([], Failed e).
Proof.
  intros Hne. destruct xs as [|x xs]; [congruence|]. reflexivity.
Qed.

(** The forward call of [PatchGroupNorm] on a height sharding: the three
    rounds of the estimator, then every worker applies the affine step to
    its normalised shard. *)
Lemma run_forward_rounds (self : GroupNorm) (B C W : nat) (xs : list Tensor4) :
  sharding_ok B C W (num_groups self) xs = true ->
  exists ys,
    Forall2 (normalized_as self C xs) xs ys
    /\ (forall n, run_group (4 + n) (map (PatchGroupNorm_normalized self) xs)
                  = (three_rounds (num_groups self) xs, Done ys))
    /\ forall n,
         run_group (3 + n) (map (PatchGroupNorm_forward self) xs)
         = (three_rounds (num_groups self) xs
              ++ fst (run_group n (map (PatchGroupNorm_apply self) ys)),
            snd (run_group n (map (PatchGroupNorm_apply self) ys))).
Proof.
  intros Hok.
  destruct (sharding_facts _ _ _ _ _ Hok) as (Hne & Hx & HB & HC & HW & HG & Hdiv & _).
  destruct (rets_of_pointwise
              (fun x => PatchGroupNorm_normalize self (grouped (num_groups self) x)
                          (mean_of (num_groups self) xs x) (var_of (num_groups self) xs x))
              (normalized_as self C xs) xs (normalize_on_shard self B C W xs Hok))
    as (ys & Hmap & Hall).
  exists ys. split; [exact Hall|]. split; intros n.
  { unfold PatchGroupNorm_normalized.
    rewrite (map_ext_in _ (fun x => bind (moments_rounds (num_groups self) x)
               (fun m => PatchGroupNorm_normalize self (fst (fst m)) (snd (fst m)) (snd m)))).
    2:{ intros x Hin. destruct (Hx x Hin) as (Hb & Hc & Hw & Hh).
        rewrite moments_unfold; rewrite ?Hb, ?Hc, ?Hw; auto. }
    unfold moments_rounds. cbn [bind fst snd].
    change (4 + n)%nat with (S (S (S (S n)))).
    step_patch_rounds (num_groups self) xs B Hne Hx.
    rewrite (map_ext _ (fun x => PatchGroupNorm_normalize self (grouped (num_groups self) x)
                          (mean_of (num_groups self) xs x) (var_of (num_groups self) xs x)))
      by reflexivity.
    rewrite Hmap, run_rets. reflexivity. }
  unfold PatchGroupNorm_forward, PatchGroupNorm_normalized.
  rewrite (map_ext_in _ (fun x => bind (bind (moments_rounds (num_groups self) x)
             (fun m => PatchGroupNorm_normalize self (fst (fst m)) (snd (fst m)) (snd m)))
             (PatchGroupNorm_apply self))).
  2:{ intros x Hin. destruct (Hx x Hin) as (Hb & Hc & Hw & Hh).
      rewrite moments_unfold; rewrite ?Hb, ?Hc, ?Hw; auto. }
  unfold moments_rounds. cbn [bind fst snd].
  change (3 + n)%nat with (S (S (S n))).
  step_patch_rounds (num_groups self) xs B Hne Hx.
  rewrite (map_ext _ (fun x => (fun p => bind p (PatchGroupNorm_apply self))
                        ((fun x => PatchGroupNorm_normalize self
                                     (grouped (num_groups self) x)
                                     (mean_of (num_groups self) xs x)
                                     (var_of (num_groups self) xs x)) x)))
    by reflexivity.
  rewrite <- (map_map _ (fun p => bind p (PatchGroupNorm_apply self))).
  rewrite Hmap, map_map. cbn [bind fst snd].
  rewrite (map_ext _ (PatchGroupNorm_apply self)) by reflexivity.
  reflexivity.
Qed.

Lemma normalized_channels (self : GroupNorm) (B C W : nat) (xs ys : list Tensor4) :
  sharding_ok B C W (num_groups self) xs = true ->
  Forall2 (normalized_as self C xs) xs ys ->
  ys <> [] /\ forall y, In y ys -> dimB y = B /\ dimC y = C /\ dimW y = W.
Proof.
  intros Hok Hall.
  destruct (sharding_facts _ _ _ _ _ Hok) as (Hne & Hx & _).
  split.
  - intros ->. inversion Hall. congruence.
  - intros y Hy. destruct (Forall2_in_r _ _ _ Hall y Hy) as (x & Hin & Hn).
    destruct (Hx x Hin) as (Hb & Hc & Hw & _).
    destruct Hn as (N1 & N2 & _ & N4 & _). repeat split; congruence.
Qed.

(** When the affine step raises on every [C]-channel tensor, the group run
    of the forward call fails with that error after the three rounds. *)
Lemma run_forward_apply_raises (self : GroupNorm) (B C W : nat) (xs : list Tensor4)
    (e : error) (n : nat) :
  sharding_ok B C W (num_groups self) xs = true ->
  (forall y, dimC y = C -> PatchGroupNorm_apply self y = Raise e) ->
  run_group (4 + n) (map (PatchGroupNorm_forward self) xs)
  = (three_rounds (num_groups self) xs, Failed e).
Proof.
  intros Hok Hraise.
  destruct (run_forward_rounds self B C W xs Hok) as (ys & Hall & _ & Hrun).
  destruct (normalized_channels self B C W xs ys Hok Hall) as (Hne & Hy).
  change (4 + n)%nat with (3 + S n)%nat. rewrite Hrun.
  rewrite (map_ext_in _ (fun _ => Raise e)).
  2:{ intros y Hin. apply Hraise. apply (Hy y Hin). }
  rewrite run_all_raise by assumption. cbn [fst snd]. rewrite app_nil_r. reflexivity.
Qed.

(** X1. A layer without affine parameters ([affine=False]) cannot complete a
    forward call: [self.weight] is [None] and line 173 subscripts it.  No
    path of the forward returns, and on a height sharding the group fails
    after the three rounds of the estimator. *)
Theorem forward_without_affine_raises (self : GroupNorm) (B C W : nat)
    (xs : list Tensor4) :
  weight self = None ->
  sharding_ok B C W (num_groups self) xs = true ->
  (forall n, run_group (4 + n) (map (PatchGroupNorm_forward self) xs)
             = (three_rounds (num_groups self) xs, Failed NoneNotSubscriptable))
  /\ forall x tr, ~ returns_after tr (PatchGroupNorm_forward self x).
Proof.
  intros Hw Hok. split.
  - intros n. apply (run_forward_apply_raises self B C W xs _ n Hok).
    intros y _. unfold PatchGroupNorm_apply. rewrite Hw. reflexivity.
  - intros x tr.
    unfold PatchGroupNorm_forward, PatchGroupNorm_normalized, PatchGroupNorm_moments,
      resolve_height, all_gather_int, all_gather.
    cbn [bind]. intros H. inversion H as [| v k l tr1 H1 |]; subst. clear H.
    destruct (num_groups self =? 0)%nat; [inversion H1|].
    unfold view5 in H1. destruct (_ && _); cbn [bind] in H1; [|inversion H1].
    inversion H1 as [| | t2 k2 l2 tr2 H2]; subst. clear H1.
    inversion H2 as [| | t3 k3 l3 tr3 H3]; subst. clear H2.
    cbn [fst snd] in H3. unfold PatchGroupNorm_normalize, view4 in H3.
    cbn [d5B d5G d5K d5H d5W] in H3.
    destruct (_ && _); cbn [bind] in H3; [|inversion H3].
    unfold PatchGroupNorm_apply in H3. rewrite Hw in H3. inversion H3.
Qed.

Lemma view5_refused (G : nat) (x : Tensor4) :
  (1 <= dimB x)%nat -> (1 <= dimH x)%nat -> (1 <= dimW x)%nat ->
  (dimC x mod G <> 0)%nat ->
  view5 x G = Raise InvalidView.
Proof.
  intros HB HH HW Hdiv. unfold view5.
  replace (dimB x * dimC x * dimH x * dimW x)%nat
    with (dimB x * dimH x * dimW x * dimC x)%nat by ring.
  replace (dimB x * G * dimH x * dimW x)%nat
    with (dimB x * dimH x * dimW x * G)%nat by ring.
  rewrite Nat.Div0.mul_mod_distr_l.
  assert (Hpos : (0 < dimB x * dimH x * dimW x)%nat)
    by (repeat apply Nat.mul_pos_pos; lia).
  destruct (Nat.eqb_spec (dimB x * dimH x * dimW x * (dimC x mod G)) 0) as [H0|_].
  - apply Nat.eq_mul_0 in H0. lia.
  - rewrite andb_false_r. reflexivity.
Qed.

(** X2. An input whose channel count the group count does not divide is
    refused by [view], but only after the height exchange: every worker has
    posted one collective when the group fails. *)
Theorem forward_refuses_indivisible_channels (self : GroupNorm) (xs : list Tensor4)
    (n : nat) :
  xs <> [] -> (1 <= num_groups self)%nat ->
  (forall x, In x xs ->
     (1 <= dimB x)%nat /\ (1 <= dimH x)%nat /\ (1 <= dimW x)%nat
     /\ (dimC x mod num_groups self <> 0)%nat) ->
  run_group (2 + n) (map (PatchGroupNorm_forward self) xs)
  = ([IntExchange (map (fun x => Z.of_nat (dimH x)) xs)], Failed InvalidView).
Proof.
  intros Hne HG Hx.
  rewrite (map_ext_in _ (fun x => AllGatherInt (Z.of_nat (dimH x))
                                    (fun _ => Raise InvalidView))).
  2:{ intros x Hin. destruct (Hx x Hin) as (HB & HH & HW & Hdiv).
      unfold PatchGroupNorm_forward, PatchGroupNorm_normalized, PatchGroupNorm_moments,
        resolve_height, all_gather_int.
      cbn [bind]. rewrite (view5_refused _ x HB HH HW Hdiv).
      destruct (Nat.eqb_spec (num_groups self) 0) as [H0|_]; [lia|]. reflexivity. }
  change (2 + n)%nat with (S (S n)).
  rewrite run_gather_int by assumption.
  rewrite run_all_raise by assumption. reflexivity.
Qed.

Lemma first_raise_uniform {X A : Type} (f : X -> Prog A) (e : error) (xs : list X)
    (x : X) :
  In x xs -> f x = Raise e ->
  (forall y e', In y xs -> f y = Raise e' -> e' = e) ->
  first_raise (map f xs) = Some e.
Proof.
  induction xs as [|a xs IH]; intros Hin Hfx Hall; [destruct Hin|].
  cbn [map first_raise].
  destruct (f a) as [r|e0|v k|t k] eqn:Ea.
  - destruct Hin as [->|Hin]; [congruence|].
    apply IH; [exact Hin | exact Hfx |]. intros y e' Hy. apply Hall. right. exact Hy.
  - rewrite (Hall a e0 (or_introl eq_refl) Ea). reflexivity.
  - destruct Hin as [->|Hin]; [congruence|].
    apply IH; [exact Hin | exact Hfx |]. intros y e' Hy. apply Hall. right. exact Hy.
  - destruct Hin as [->|Hin]; [congruence|].
    apply IH; [exact Hin | exact Hfx |]. intros y e' Hy. apply Hall. right. exact Hy.
Qed.

(** X3. A worker that holds no rows makes the whole group fail: the extent -1
    of its [view] is ambiguous for a tensor of 0 elements, and the group
    ends after the height exchange, whatever the other workers hold. *)
Theorem empty_shard_is_refused (self : GroupNorm) (xs : list Tensor4) (x0 : Tensor4)
    (n : nat) :
  (1 <= num_groups self)%nat -> In x0 xs -> dimH x0 = 0%nat ->
  run_group (2 + n) (map (PatchGroupNorm_forward self) xs)
  = ([IntExchange (map (fun x => Z.of_nat (dimH x)) xs)], Failed InvalidView).
Proof.
  intros HG Hin H0.
  assert (Hne : xs <> []) by (intros ->; destruct Hin).
  unfold PatchGroupNorm_forward, PatchGroupNorm_normalized, PatchGroupNorm_moments,
    resolve_height, all_gather_int, all_gather.
  cbn [bind]. change (2 + n)%nat with (S (S n)).
  rewrite run_gather_int by assumption.
  cbn [run_group].
  rewrite (first_raise_uniform _ InvalidView xs x0 Hin).
  - reflexivity.
  - destruct (Nat.eqb_spec (num_groups self) 0) as [E|_]; [lia|].
    unfold view5. rewrite H0, Nat.mul_0_r, Nat.mul_0_l. reflexivity.
  - intros y e' _.
    destruct (Nat.eqb_spec (num_groups self) 0) as [E|_]; [lia|].
    unfold view5. destruct (_ && _); cbn [bind]; intros H; [discriminate|].
    injection H as <-. reflexivity.
Qed.

Lemma broadcast_refused (n m : nat) :
  n <> m -> n <> 1%nat -> m <> 1%nat -> broadcast n m = None.
Proof.
  intros H1 H2 H3. unfold broadcast.
  destruct (Nat.eqb_spec n m); [congruence|].
  destruct (Nat.eqb_spec n 1); [congruence|].
  destruct (Nat.eqb_spec m 1); [congruence|]. reflexivity.
Qed.

(** X4. A layer whose affine parameters are not per channel of the input (and
    neither count is 1) fails in the affine step, after the group has
    completed all three rounds. *)
Theorem forward_refuses_foreign_parameters (self : GroupNorm) (B C W : nat)
    (xs : list Tensor4) (wt bs : Tensor1) (n : nat) :
  sharding_ok B C W (num_groups self) xs = true ->
  weight self = Some wt -> bias self = Some bs ->
  len wt <> C -> len wt <> 1%nat -> C <> 1%nat ->
  run_group (4 + n) (map (PatchGroupNorm_forward self) xs)
  = (three_rounds (num_groups self) xs, Failed BroadcastMismatch).
Proof.
  intros Hok Hwt Hbs H1 H2 H3.
  apply (run_forward_apply_raises self B C W xs _ n Hok).
  intros y Hy. unfold PatchGroupNorm_apply, affine4. rewrite Hwt, Hbs, Hy.
  rewrite broadcast_refused by congruence. reflexivity.
Qed.

(** X5. A one-channel input given to a layer with [L] per-channel parameters is
    not refused: broadcasting widens it, and the output has [L] channels,
    each the single normalised channel with that channel's weight and
    bias. *)
Theorem forward_widens_single_channel (self : GroupNorm) (B W : nat)
    (xs : list Tensor4) (wt bs : Tensor1) :
  sharding_ok B 1 W (num_groups self) xs = true ->
  weight self = Some wt -> bias self = Some bs -> len bs = len wt ->
  exists ys outs,
    (forall n, run_group (4 + n) (map (PatchGroupNorm_normalized self) xs)
               = (three_rounds (num_groups self) xs, Done ys))
    /\ (forall n, run_group (4 + n) (map (PatchGroupNorm_forward self) xs)
                  = (three_rounds (num_groups self) xs, Done outs))
    /\ forall r x y o, nth_error xs r = Some x -> nth_error ys r = Some y ->
         nth_error outs r = Some o ->
         dimB o = dimB x /\ dimC o = len wt /\ dimH o = dimH x /\ dimW o = dimW x
         /\ forall b c h w, (c < len wt)%nat ->
              at4 o b c h w = at4 y b 0 h w * at1 wt c + at1 bs c.
Proof.
  intros Hok Hwt Hbs Hlen.
  destruct (run_forward_rounds self B 1 W xs Hok) as (ys & Hall & Hnorm & Hrun).
  destruct (normalized_channels self B 1 W xs ys Hok Hall) as (Hne & Hy).
  destruct (rets_of_pointwise (PatchGroupNorm_apply self)
              (fun y o => dimB o = dimB y /\ dimC o = len wt /\ dimH o = dimH y
                          /\ dimW o = dimW y
                          /\ forall b c h w, (c < len wt)%nat ->
                               at4 o b c h w = at4 y b 0 h w * at1 wt c + at1 bs c) ys)
    as (outs & Hmap & Hout).
  { intros y Hin. destruct (Hy y Hin) as (_ & Hc & _).
    unfold PatchGroupNorm_apply, affine4. rewrite Hwt, Hbs, Hc, Hlen.
    assert (Hb1 : broadcast 1 (len wt) = Some (len wt)).
    { unfold broadcast. destruct (Nat.eqb_spec 1 (len wt)) as [<-|_]; reflexivity. }
    rewrite Hb1, broadcast_same.
    eexists. split; [reflexivity|]. cbn [dimB dimC dimH dimW at4].
    repeat (split; [reflexivity|]).
    intros b c h w Hlt. unfold pick at 1. cbn [Nat.eqb].
    rewrite !(pick_lt _ _ Hlt). reflexivity. }
  exists ys, outs. split; [exact Hnorm|]. split.
  - intros n. change (4 + n)%nat with (3 + S n)%nat.
    rewrite Hrun, Hmap, run_rets. cbn [fst snd]. rewrite app_nil_r. reflexivity.
  - intros r x y o Hx Hyr Ho.
    destruct (Forall2_nth_error _ _ _ Hall r x y Hx Hyr) as (N1 & N2 & N3 & N4 & _).
    destruct (Forall2_nth_error _ _ _ Hout r y o Hyr Ho) as (O1 & O2 & O3 & O4 & Hval).
    split; [congruence|]. split; [exact O2|]. split; [congruence|]. split; [congruence|].
    exact Hval.
Qed.

(** X6. A layer as constructed with [affine=True] (weights one, biases zero)
    returns the normalised shards unchanged, on every height sharding of its
    channel count. *)
Theorem fresh_layer_returns_normalized (G C : nat) (e : R) (self : GroupNorm)
    (B W : nat) (xs : list Tensor4) :
  PatchGroupNorm_init G C e true = Ret self ->
  sharding_ok B C W G xs = true ->
  exists ys outs,
    (forall n, run_group (4 + n) (map (PatchGroupNorm_normalized self) xs)
               = (three_rounds G xs, Done ys))
    /\ (forall n, run_group (4 + n) (map (PatchGroupNorm_forward self) xs)
                  = (three_rounds G xs, Done outs))
    /\ length outs = length ys
    /\ forall r y o, nth_error ys r = Some y -> nth_error outs r = Some o ->
         dimB o = dimB y /\ dimC o = dimC y /\ dimH o = dimH y /\ dimW o = dimW y
         /\ forall b c h w, (c < C)%nat -> at4 o b c h w = at4 y b c h w.
Proof.
  intros Hinit Hok.
  destruct (constructed_layer_ready G C e self Hinit) as (HG & Haff).
  rewrite <- HG in Hok.
  destruct (run_forward self B C W xs Hok Haff) as (ys & outs & Hnorm & Hfwd & _ & Hout).
  rewrite HG in Hnorm, Hfwd.
  exists ys, outs. split; [exact Hnorm|]. split; [exact Hfwd|].
  split; [symmetry; eapply Forall2_length; eassumption|].
  intros r y o Hy Ho.
  destruct (Forall2_nth_error _ _ _ Hout r y o Hy Ho) as (O1 & O2 & O3 & O4 & Hval).
  repeat (split; [assumption|]).
  intros b c h w Hc.
  unfold PatchGroupNorm_init, GroupNorm_init in Hinit.
  destruct (G =? 0)%nat; [discriminate|].
  destruct (negb _); [discriminate|].
  injection Hinit as <-.
  rewrite (Hval _ _ eq_refl eq_refl b c h w Hc). cbn [at1]. ring.
Qed.

(** ** The statistics of the normalised tensor *)

Lemma sum_n_nonneg (n : nat) (f : nat -> R) :
  (forall i, (i < n)%nat -> 0 <= f i) -> 0 <= sum_n n f.
Proof.
  induction n as [|n IH]; intros Hf; simpl.
  - lra.
  - assert (0 <= sum_n n f) by (apply IH; intros i Hi; apply Hf; lia).
    assert (0 <= f n) by (apply Hf; lia). lra.
Qed.

Lemma sum_n_affine (n : nat) (f : nat -> R) (a c : R) :
  sum_n n (fun i => f i * a + c) = sum_n n f * a + INR n * c.
Proof.
  induction n as [|n IH].
  - simpl. lra.
  - rewrite S_INR. simpl. rewrite IH. lra.
Qed.

Lemma sum_list_affine {X : Type} (f k : X -> R) (a c : R) (l : list X) :
  sum_list (map (fun y => f y * a + k y * c) l)
  = sum_list (map f l) * a + sum_list (map k l) * c.
Proof.
  induction l as [|y l IH]; simpl; [lra | rewrite IH; lra].
Qed.

(** The total of an affine image of a group's elements. *)
Lemma group_total_affine (phi : R -> R) (a c : R) (G : nat) (x : Tensor4) (b g : nat) :
  group_total (fun v => phi v * a + c) G x b g
  = group_total phi G x b g * a + INR (dimC x / G * dimH x * dimW x) * c.
Proof.
  unfold group_total.
  rewrite (sum_n_ext _ _ (fun k =>
             sum_n (dimH x) (fun h => sum_n (dimW x) (fun w =>
               phi (at4 x b (g * (dimC x / G) + k)%nat h w))) * a
             + INR (dimH x * dimW x) * c)).
  2:{ intros k _.
      rewrite (sum_n_ext _ _ (fun h =>
                 sum_n (dimW x) (fun w => phi (at4 x b (g * (dimC x / G) + k)%nat h w)) * a
                 + INR (dimW x) * c)) by (intros h _; apply sum_n_affine).
      rewrite sum_n_affine, mult_INR. ring. }
  rewrite sum_n_affine, !mult_INR. ring.
Qed.

Lemma total_height_INR (xs : list Tensor4) :
  sum_list (map (fun x => INR (dimH x)) xs) = INR (total_height xs).
Proof.
  induction xs as [|x xs IH]; simpl; [reflexivity|].
  rewrite plus_INR, IH. reflexivity.
Qed.

Section NormalizedStatistics.

Variable self : GroupNorm.
Variables B C W : nat.
Variable xs : list Tensor4.
Hypothesis Hok : sharding_ok B C W (num_groups self) xs = true.

Local Abbreviation G := (num_groups self).
Local Abbreviation n := (INR (C / G * total_height xs * W)).
Local Abbreviation M := (group_mean G (cat_height B C W xs)).
Local Abbreviation V := (group_var G (cat_height B C W xs)).

Lemma element_count_pos : 0 < n.
Proof.
  destruct (sharding_facts _ _ _ _ _ Hok) as (_ & _ & _ & _ & HW & _).
  pose proof (channels_per_group_pos _ _ _ _ _ Hok).
  pose proof (total_height_pos _ _ _ _ _ Hok).
  apply lt_0_INR. repeat apply Nat.mul_pos_pos; lia.
Qed.

(** The element counts of the shards add up to the element count of the
    whole group. *)
Lemma shard_counts_sum :
  sum_list (map (fun x => INR (dimC x / G * dimH x * dimW x)) xs) = n.
Proof.
  destruct (sharding_facts _ _ _ _ _ Hok) as (_ & Hx & _).
  rewrite (sum_list_ext_in _ (fun x => INR (dimH x) * INR (C / G * W) + 0 * 0)).
  2:{ intros x Hin. destruct (Hx x Hin) as (_ & -> & -> & _).
      rewrite !mult_INR. ring. }
  rewrite (sum_list_affine (fun x => INR (dimH x)) (fun _ => 0)).
  rewrite total_height_INR. rewrite !mult_INR. ring.
Qed.

Lemma shard_totals (phi : R -> R) (b g : nat) :
  sum_list (map (fun x => group_total phi G x b g) xs)
  = group_total phi G (cat_height B C W xs) b g.
Proof.
  symmetry. apply group_total_cat. apply (shards_extents B C W _ xs Hok).
Qed.

Lemma totals_and_mean (b g : nat) :
  group_total (fun v => v) G (cat_height B C W xs) b g = n * M b g.
Proof.
  pose proof element_count_pos as Hn. unfold group_mean.
  cbn [dimC dimH dimW cat_height]. field. lra.
Qed.

Lemma totals_and_variance (b g : nat) :
  group_total (sq_dev (M b g)) G (cat_height B C W xs) b g = n * V b g.
Proof.
  pose proof element_count_pos as Hn. unfold group_var.
  cbn [dimC dimH dimW cat_height]. field. lra.
Qed.

Lemma variance_nonneg (b g : nat) : 0 <= V b g.
Proof.
  pose proof element_count_pos as Hn.
  assert (Ht : 0 <= group_total (sq_dev (M b g)) G (cat_height B C W xs) b g).
  { unfold group_total. apply sum_n_nonneg. intros k _. apply sum_n_nonneg. intros h _.
    apply sum_n_nonneg. intros w _. unfold sq_dev.
    match goal with |- 0 <= ?a * ?a => apply (Rle_0_sqr a) end. }
  rewrite totals_and_variance in Ht.
  apply Rmult_le_reg_l with n; [exact Hn | rewrite Rmult_0_r; exact Ht].
Qed.

(** The total of a function of the normalised shard is the total of the
    function of the normalised elements of the shard. *)
Lemma normalized_group_total (phi : R -> R) (x y : Tensor4) (b g : nat) :
  In x xs -> normalized_as self C xs x y -> (g < G)%nat ->
  group_total phi G y b g
  = group_total (fun v => phi (patch_normalize (eps self) (M b g) (V b g) v)) G x b g.
Proof.
  intros Hin (N1 & N2 & N3 & N4 & Hval) Hg.
  destruct (sharding_facts _ _ _ _ _ Hok) as (_ & Hx & _ & HC & _ & HG & Hdiv & _).
  destruct (Hx x Hin) as (_ & Hc & _).
  unfold group_total. rewrite N2, N3, N4, Hc.
  apply sum_n_ext. intros k Hk. apply sum_n_ext. intros h _.
  apply sum_n_ext. intros w _. f_equal.
  assert (Hlt : (g * (C / G) + k < C)%nat).
  { rewrite <- (groups_times_size C G Hdiv) at 2.
    apply Nat.lt_le_trans with ((g + 1) * (C / G))%nat.
    - rewrite Nat.mul_add_distr_r, Nat.mul_1_l. lia.
    - apply Nat.mul_le_mono_r. lia. }
  rewrite (Hval b _ h w Hlt).
  assert (Hgi : ((g * (C / G) + k) / (C / G) = g)%nat).
  { rewrite Nat.div_add_l by lia. rewrite (Nat.div_small k) by lia. lia. }
  rewrite Hgi.
  rewrite (mean_of_full B C W G xs Hok x b g Hin).
  rewrite (var_of_full B C W G xs Hok x b g Hin). reflexivity.
Qed.

End NormalizedStatistics.

Lemma group_total_ext (phi psi : R -> R) (G : nat) (x : Tensor4) (b g : nat) :
  (forall v, phi v = psi v) -> group_total phi G x b g = group_total psi G x b g.
Proof.
  intros H. unfold group_total.
  apply sum_n_ext. intros k _. apply sum_n_ext. intros h _.
  apply sum_n_ext. intros w _. apply H.
Qed.

Lemma sum_list_Forall2_gen {X Y : Type} (f : X -> R) (f' : Y -> R)
    (l : list X) (l' : list Y) :
  Forall2 (fun x y => f x = f' y) l l' ->
  sum_list (map f l) = sum_list (map f' l').
Proof.
  induction 1 as [|x y l l' Hxy _ IH]; simpl; [reflexivity | rewrite Hxy, IH; reflexivity].
Qed.

Lemma Forall2_impl_In_l {X Y : Type} (P Q : X -> Y -> Prop) (l : list X) (l' : list Y) :
  (forall x y, In x l -> P x y -> Q x y) ->
  Forall2 P l l' -> Forall2 Q l l'.
Proof.
  intros H HF. induction HF as [|x y l l' Hxy _ IH]; constructor.
  - apply H; [left; reflexivity | exact Hxy].
  - apply IH. intros a b Ha. apply H. right. exact Ha.
Qed.

Section NormalizedMoments.

Variable self : GroupNorm.
Variables B C W : nat.
Variable xs ys : list Tensor4.
Hypothesis Hok : sharding_ok B C W (num_groups self) xs = true.
Hypothesis Hys : Forall2 (normalized_as self C xs) xs ys.

Local Abbreviation G := (num_groups self).
Local Abbreviation n := (INR (C / G * total_height xs * W)).
Local Abbreviation M := (group_mean G (cat_height B C W xs)).
Local Abbreviation V := (group_var G (cat_height B C W xs)).

(** Totals over the normalised shards, summed over the workers. *)
Lemma normalized_totals (phi : R -> R) (b g : nat) :
  (g < G)%nat ->
  sum_list (map (fun y => group_total phi G y b g) ys)
  = group_total (fun v => phi (patch_normalize (eps self) (M b g) (V b g) v)) G
                (cat_height B C W xs) b g.
Proof.
  intros Hg. rewrite <- (shard_totals self B C W xs Hok). symmetry.
  apply sum_list_Forall2_gen.
  eapply Forall2_impl_In_l; [|exact Hys].
  intros x y Hin Hn. cbv beta. symmetry.
  apply (normalized_group_total self B C W xs Hok phi x y b g Hin Hn Hg).
Qed.

Lemma normalized_sum_zero (b g : nat) :
  (g < G)%nat ->
  sum_list (map (fun y => group_total (fun v => v) G y b g) ys) = 0.
Proof.
  intros Hg. rewrite (normalized_totals (fun v => v) b g Hg).
  rewrite (group_total_ext _ (fun v => v * / sqrt (V b g + eps self)
                                       + - (M b g) * / sqrt (V b g + eps self))).
  2:{ intros v. unfold patch_normalize, Rdiv. ring. }
  rewrite group_total_affine. cbn [dimC dimH dimW cat_height].
  rewrite (totals_and_mean self B C W xs Hok). ring.
Qed.

Lemma normalized_sum_squares (b g : nat) :
  (g < G)%nat -> 0 < eps self ->
  sum_list (map (fun y => group_total (fun v => v * v) G y b g) ys) / n
  = V b g / (V b g + eps self).
Proof.
  intros Hg He.
  pose proof (variance_nonneg self B C W xs Hok b g) as Hv.
  pose proof (element_count_pos self B C W xs Hok) as Hn.
  assert (Hs : sqrt (V b g + eps self) * sqrt (V b g + eps self) = V b g + eps self)
    by (apply sqrt_sqrt; lra).
  assert (Hs0 : sqrt (V b g + eps self) <> 0).
  { intros H0. rewrite H0 in Hs. lra. }
  rewrite (normalized_totals (fun v => v * v) b g Hg).
  rewrite (group_total_ext _ (fun v => sq_dev (M b g) v * / (V b g + eps self) + 0)).
  2:{ intros v. unfold patch_normalize, sq_dev. rewrite <- Hs at 3. field. exact Hs0. }
  rewrite group_total_affine. cbn [dimC dimH dimW cat_height].
  rewrite (totals_and_variance self B C W xs Hok). field. lra.
Qed.

End NormalizedMoments.

(** X7. With eps > 0 the normalised tensor is standardised over the whole
    height, not per shard: in every (batch, group) the totals of the workers'
    normalised shards cancel (mean 0), and their squares average to
    var / (var + eps), which is below 1 and is 0 for a constant group. *)
Theorem normalized_output_statistics (self : GroupNorm) (B C W : nat)
    (xs : list Tensor4) :
  sharding_ok B C W (num_groups self) xs = true ->
  0 < eps self ->
  exists ys,
    (forall n, run_group (4 + n) (map (PatchGroupNorm_normalized self) xs)
               = (three_rounds (num_groups self) xs, Done ys))
    /\ forall b g, (g < num_groups self)%nat ->
         sum_list (map (fun y => group_total (fun v => v) (num_groups self) y b g) ys) = 0
         /\ sum_list (map (fun y => group_total (fun v => v * v) (num_groups self) y b g) ys)
            / INR (C / num_groups self * total_height xs * W)
            = group_var (num_groups self) (cat_height B C W xs) b g
              / (group_var (num_groups self) (cat_height B C W xs) b g + eps self)
         /\ 0 <= group_var (num_groups self) (cat_height B C W xs) b g
                 / (group_var (num_groups self) (cat_height B C W xs) b g + eps self)
            < 1.
Proof.
  intros Hok He.
  destruct (run_forward_rounds self B C W xs Hok) as (ys & Hall & Hnorm & _).
  exists ys. split; [exact Hnorm|].
  intros b g Hg.
  split; [apply (normalized_sum_zero self B C W xs ys Hok Hall b g Hg)|].
  split; [apply (normalized_sum_squares self B C W xs ys Hok Hall b g Hg He)|].
  pose proof (variance_nonneg self B C W xs Hok b g) as Hv.
  split.
  - apply Rmult_le_pos; [exact Hv|]. left. apply Rinv_0_lt_compat. lra.
  - apply (Rmult_lt_reg_r (group_var (num_groups self) (cat_height B C W xs) b g
                           + eps self)); [lra|].
    unfold Rdiv. rewrite Rmult_assoc, Rinv_l by lra. lra.
Qed.

(** X8. The variance every worker derives is not negative, so with eps > 0 the
    divisor of the normalisation is positive. *)
Theorem variance_is_nonnegative (self : GroupNorm) (B C W : nat) (xs : list Tensor4) :
  sharding_ok B C W (num_groups self) xs = true ->
  exists ms,
    (forall n, run_group (4 + n) (map (PatchGroupNorm_moments (num_groups self)) xs)
               = (three_rounds (num_groups self) xs, Done ms))
    /\ forall m, In m ms -> forall b g,
         0 <= at2 (snd m) b g
         /\ (0 < eps self -> 0 < sqrt (at2 (snd m) b g + eps self)).
Proof.
  intros Hok.
  exists (map (fun x => (grouped (num_groups self) x, mean_of (num_groups self) xs x,
                         var_of (num_groups self) xs x)) xs).
  split; [intros n; apply (run_moments B C W _ xs Hok)|].
  intros m Hm b g. apply in_map_iff in Hm. destruct Hm as (x & <- & Hin).
  cbn [fst snd]. rewrite (var_of_full B C W _ xs Hok x b g Hin).
  pose proof (variance_nonneg self B C W xs Hok b g) as Hv.
  split; [exact Hv|]. intros He. apply sqrt_lt_R0. lra.
Qed.

(** ** A constant input *)

Lemma constant_group_total (self : GroupNorm) (B C W : nat) (xs : list Tensor4)
    (c : R) (phi : R -> R) (b g : nat) :
  sharding_ok B C W (num_groups self) xs = true ->
  (forall x, In x xs -> forall b ch h w, at4 x b ch h w = c) ->
  group_total phi (num_groups self) (cat_height B C W xs) b g
  = INR (C / num_groups self * total_height xs * W) * phi c.
Proof.
  intros Hok Hc.
  rewrite <- (shard_totals self B C W xs Hok).
  rewrite <- (shard_counts_sum self B C W xs Hok).
  rewrite (sum_list_ext_in _ (fun x => 0 * 0
             + INR (dimC x / num_groups self * dimH x * dimW x) * phi c)).
  - rewrite (sum_list_affine (fun _ => 0)). ring.
  - intros x Hin. unfold group_total.
    rewrite (sum_n_ext _ _ (fun _ => 0 * 0 + INR (dimH x * dimW x) * phi c)).
    + rewrite sum_n_affine, !mult_INR. ring.
    + intros k _.
      rewrite (sum_n_ext _ _ (fun _ => 0 * 0 + INR (dimW x) * phi c)).
      * rewrite sum_n_affine, !mult_INR. ring.
      * intros h _.
        rewrite (sum_n_ext _ _ (fun _ => 0 * 0 + phi c)).
        -- rewrite sum_n_affine. ring.
        -- intros w _. rewrite (Hc x Hin). ring.
Qed.

(** X9. On an input that is one constant everywhere, every worker derives that
    constant as the mean and 0 as the variance of every group; eps > 0 alone
    keeps the divisor positive, the normalised shard is 0 and the layer
    returns its bias. *)
Theorem constant_input_returns_bias (self : GroupNorm) (B C W : nat)
    (xs : list Tensor4) (c : R) :
  sharding_ok B C W (num_groups self) xs = true ->
  affine_ready self C = true ->
  0 < eps self ->
  (forall x, In x xs -> forall b ch h w, at4 x b ch h w = c) ->
  exists ms outs,
    (forall n, run_group (4 + n) (map (PatchGroupNorm_moments (num_groups self)) xs)
               = (three_rounds (num_groups self) xs, Done ms))
    /\ (forall n, run_group (4 + n) (map (PatchGroupNorm_forward self) xs)
                  = (three_rounds (num_groups self) xs, Done outs))
    /\ (forall m, In m ms -> forall b g,
          at2 (snd (fst m)) b g = c /\ at2 (snd m) b g = 0)
    /\ forall o bs, In o outs -> bias self = Some bs ->
         forall b ch h w, (ch < C)%nat -> at4 o b ch h w = at1 bs ch.
Proof.
  intros Hok Haff He Hc.
  pose proof (element_count_pos self B C W xs Hok) as Hn.
  assert (Hmean : forall b g, group_mean (num_groups self) (cat_height B C W xs) b g = c).
  { intros b g. unfold group_mean.
    rewrite (constant_group_total self B C W xs c _ b g Hok Hc).
    cbn [dimC dimH dimW cat_height]. field. lra. }
  assert (Hvar : forall b g, group_var (num_groups self) (cat_height B C W xs) b g = 0).
  { intros b g. unfold group_var.
    rewrite (constant_group_total self B C W xs c _ b g Hok Hc).
    cbn [dimC dimH dimW cat_height]. rewrite Hmean. unfold sq_dev. field. lra. }
  destruct (affine_ready_params _ _ Haff) as (wt & bs & Hwt & Hbs & _).
  destruct (run_forward self B C W xs Hok Haff) as (ys & outs & _ & Hfwd & Hnorm & Hout).
  exists (map (fun x => (grouped (num_groups self) x, mean_of (num_groups self) xs x,
                         var_of (num_groups self) xs x)) xs), outs.
  split; [intros n; apply (run_moments B C W _ xs Hok)|].
  split; [exact Hfwd|]. split.
  - intros m Hm b g. apply in_map_iff in Hm. destruct Hm as (x & <- & Hin).
    cbn [fst snd].
    rewrite (mean_of_full B C W _ xs Hok x b g Hin), (var_of_full B C W _ xs Hok x b g Hin).
    split; [apply Hmean | apply Hvar].
  - intros o bs' Ho Hbs' b ch h w Hch.
    rewrite Hbs in Hbs'. injection Hbs' as <-.
    destruct (Forall2_in_r _ _ _ Hout o Ho) as (y & Hy & (_ & _ & _ & _ & Hoval)).
    destruct (Forall2_in_r _ _ _ Hnorm y Hy) as (x & Hin & (_ & _ & _ & _ & Hyval)).
    rewrite (Hoval wt bs Hwt Hbs b ch h w Hch), (Hyval b ch h w Hch).
    rewrite (mean_of_full B C W _ xs Hok x b _ Hin), (var_of_full B C W _ xs Hok x b _ Hin).
    rewrite Hmean, Hvar, (Hc x Hin). unfold patch_normalize.
    assert (Hs : 0 < sqrt (0 + eps self)) by (apply sqrt_lt_R0; lra).
    field. lra.
Qed.

(** ** Shard boundaries *)

Lemma row_below_total (xs : list Tensor4) (r : nat) (x : Tensor4) (h : nat) :
  nth_error xs r = Some x -> (h < dimH x)%nat ->
  (row_offset xs r + h < total_height xs)%nat.
Proof.
  revert r. induction xs as [|y xs IH]; intros r Hr Hh.
  - destruct r; discriminate.
  - destruct r as [|r]; simpl in Hr.
    + injection Hr as ->. unfold row_offset. simpl. lia.
    + unfold row_offset. cbn [firstn total_height fold_right].
      fold (total_height (firstn r xs)). fold (row_offset xs r).
      fold (total_height xs). specialize (IH r Hr Hh). lia.
Qed.

(** A row of a shard of a split tensor is the row of the tensor at the
    shard's offset. *)
Lemma split_shard_row (X : Tensor4) (hs : list nat) (r : nat) (x : Tensor4)
    (b c h w : nat) :
  nth_error (split_rows X 0 hs) r = Some x -> (h < dimH x)%nat ->
  at4 x b c h w = at4 X b c (row_offset (split_rows X 0 hs) r + h)%nat w.
Proof.
  intros Hr Hh.
  rewrite <- (cat_at_shard _ r x b c h w Hr Hh).
  pose proof (row_below_total _ r x h Hr Hh) as Hlt.
  rewrite total_height_split in Hlt.
  rewrite (cat_at_split X hs 0 b c _ w Hlt). reflexivity.
Qed.

(** X10. Re-partitioning the same tensor into other height shards changes
    nothing: in both runs every worker derives the moments of the whole
    tensor, and the normalised value of a global row is the same whichever
    worker holds it. *)
Theorem shard_boundaries_do_not_matter (self : GroupNorm) (X : Tensor4)
    (hs hs' : list nat) :
  list_sum hs = dimH X -> list_sum hs' = dimH X ->
  sharding_ok (dimB X) (dimC X) (dimW X) (num_groups self) (split_rows X 0 hs) = true ->
  sharding_ok (dimB X) (dimC X) (dimW X) (num_groups self) (split_rows X 0 hs') = true ->
  exists ms ms' ys ys',
    (forall n, run_group (4 + n)
                 (map (PatchGroupNorm_moments (num_groups self)) (split_rows X 0 hs))
               = (three_rounds (num_groups self) (split_rows X 0 hs), Done ms))
    /\ (forall n, run_group (4 + n)
                    (map (PatchGroupNorm_moments (num_groups self)) (split_rows X 0 hs'))
                  = (three_rounds (num_groups self) (split_rows X 0 hs'), Done ms'))
    /\ (forall n, run_group (4 + n)
                    (map (PatchGroupNorm_normalized self) (split_rows X 0 hs))
                  = (three_rounds (num_groups self) (split_rows X 0 hs), Done ys))
    /\ (forall n, run_group (4 + n)
                    (map (PatchGroupNorm_normalized self) (split_rows X 0 hs'))
                  = (three_rounds (num_groups self) (split_rows X 0 hs'), Done ys'))
    /\ (forall m m', In m ms -> In m' ms' -> forall b g,
          at2 (snd (fst m)) b g = at2 (snd (fst m')) b g
          /\ at2 (snd m) b g = at2 (snd m') b g)
    /\ forall r r' x x' y y' h h' b c w,
         nth_error (split_rows X 0 hs) r = Some x -> nth_error ys r = Some y ->
         nth_error (split_rows X 0 hs') r' = Some x' -> nth_error ys' r' = Some y' ->
         (h < dimH x)%nat -> (h' < dimH x')%nat -> (c < dimC X)%nat ->
         (row_offset (split_rows X 0 hs) r + h
          = row_offset (split_rows X 0 hs') r' + h')%nat ->
         at4 y b c h w = at4 y' b c h' w.
Proof.
  intros Hsum Hsum' Hok Hok'.
  destruct (run_forward_rounds self _ _ _ _ Hok) as (ys & Hall & Hnorm & _).
  destruct (run_forward_rounds self _ _ _ _ Hok') as (ys' & Hall' & Hnorm' & _).
  exists (map (fun x => (grouped (num_groups self) x,
                         mean_of (num_groups self) (split_rows X 0 hs) x,
                         var_of (num_groups self) (split_rows X 0 hs) x))
              (split_rows X 0 hs)),
         (map (fun x => (grouped (num_groups self) x,
                         mean_of (num_groups self) (split_rows X 0 hs') x,
                         var_of (num_groups self) (split_rows X 0 hs') x))
              (split_rows X 0 hs')), ys, ys'.
  assert (Hmom : forall x b g, In x (split_rows X 0 hs) ->
            at2 (mean_of (num_groups self) (split_rows X 0 hs) x) b g
            = group_mean (num_groups self) X b g
            /\ at2 (var_of (num_groups self) (split_rows X 0 hs) x) b g
               = group_var (num_groups self) X b g).
  { intros x b g Hin.
    rewrite (mean_of_full _ _ _ _ _ Hok x b g Hin), (var_of_full _ _ _ _ _ Hok x b g Hin).
    apply (moments_of_split _ X hs b g Hsum). }
  assert (Hmom' : forall x b g, In x (split_rows X 0 hs') ->
            at2 (mean_of (num_groups self) (split_rows X 0 hs') x) b g
            = group_mean (num_groups self) X b g
            /\ at2 (var_of (num_groups self) (split_rows X 0 hs') x) b g
               = group_var (num_groups self) X b g).
  { intros x b g Hin.
    rewrite (mean_of_full _ _ _ _ _ Hok' x b g Hin), (var_of_full _ _ _ _ _ Hok' x b g Hin).
    apply (moments_of_split _ X hs' b g Hsum'). }
  split; [intros n; apply (run_moments _ _ _ _ _ Hok)|].
  split; [intros n; apply (run_moments _ _ _ _ _ Hok')|].
  split; [exact Hnorm|]. split; [exact Hnorm'|]. split.
  - intros m m' Hm Hm' b g.
    apply in_map_iff in Hm. destruct Hm as (x & <- & Hin).
    apply in_map_iff in Hm'. destruct Hm' as (x' & <- & Hin').
    cbn [fst snd].
    destruct (Hmom x b g Hin) as [-> ->]. destruct (Hmom' x' b g Hin') as [-> ->].
    split; reflexivity.
  - intros r r' x x' y y' h h' b c w Hx Hy Hx' Hy' Hh Hh' Hc Hrow.
    destruct (Forall2_nth_error _ _ _ Hall r x y Hx Hy) as (_ & _ & _ & _ & Hv).
    destruct (Forall2_nth_error _ _ _ Hall' r' x' y' Hx' Hy') as (_ & _ & _ & _ & Hv').
    rewrite (Hv b c h w Hc), (Hv' b c h' w Hc).
    destruct (Hmom x b (c / (dimC X / num_groups self))%nat (nth_error_In _ _ Hx))
      as [-> ->].
    destruct (Hmom' x' b (c / (dimC X / num_groups self))%nat (nth_error_In _ _ Hx'))
      as [-> ->].
    rewrite (split_shard_row X hs r x b c h w Hx Hh).
    rewrite (split_shard_row X hs' r' x' b c h' w Hx' Hh').
    rewrite Hrow. reflexivity.
Qed.

(** ** The conditioning variant *)

Lemma project_refused (act : option (R -> R)) (lin : Linear) (emb : Tensor2) :
  cols emb <> in_features lin -> project act lin emb = Raise ShapeMismatch.
Proof.
  intros Hc. unfold project, linear_apply.
  assert (Hc' : (cols (match act with Some f => map2 f emb | None => emb end)
                 =? in_features lin)%nat = false).
  { apply Nat.eqb_neq. destruct act; exact Hc. }
  rewrite Hc'. reflexivity.
Qed.

(** X11. An embedding whose width is not the projector's input width is refused
    by the linear layer, with or without activation, before the worker has
    posted any collective: the group run ends in the first round with no
    exchange completed.  [AdaGroupNorm] refuses it in the same way. *)
Theorem embedding_refused_before_any_collective (self : AdaGroupNorm)
    (xs : list Tensor4) (emb : Tensor2) (n : nat) :
  xs <> [] -> cols emb <> in_features (ada_linear self) ->
  run_group (S n) (map (fun x => PatchAdaGroupNorm_forward self x emb) xs)
  = ([], Failed ShapeMismatch)
  /\ (forall x tr, ~ returns_after tr (PatchAdaGroupNorm_forward self x emb))
  /\ forall x, AdaGroupNorm_forward self x emb = Raise ShapeMismatch.
Proof.
  intros Hne Hc.
  pose proof (project_refused (ada_act self) (ada_linear self) emb Hc) as Hp.
  split; [|split].
  - rewrite (map_ext _ (fun _ => Raise ShapeMismatch)).
    + apply run_all_raise. exact Hne.
    + intros x. unfold PatchAdaGroupNorm_forward. rewrite Hp. reflexivity.
  - intros x tr H. unfold PatchAdaGroupNorm_forward in H. rewrite Hp in H.
    cbn [bind] in H. inversion H.
  - intros x. unfold AdaGroupNorm_forward. rewrite Hp. reflexivity.
Qed.

(** X12. The constructor accepts [num_groups = 0]; the forward call of such a
    layer divides by it at line 75, after the height exchange: the group
    completes one round and fails with a [ZeroDivisionError]. *)
Theorem zero_groups_fail_after_height_exchange
    (get_activation : String.string -> option (R -> R))
    (embedding_dim out_dim : nat) (e : R) (w0 : nat -> nat -> R) (b0 : nat -> R)
    (xs : list Tensor4) (emb : Tensor2) (n : nat) :
  xs <> [] -> cols emb = embedding_dim ->
  exists self,
    PatchAdaGroupNorm_init get_activation embedding_dim out_dim 0 None e w0 b0 = Ret self
    /\ run_group (2 + n) (map (fun x => PatchAdaGroupNorm_forward self x emb) xs)
       = ([IntExchange (map (fun x => Z.of_nat (dimH x)) xs)], Failed ZeroDivisionError).
Proof.
  intros Hne Hc. eexists. split; [reflexivity|].
  unfold PatchAdaGroupNorm_forward, project, linear_apply.
  cbn [ada_act ada_linear in_features ada_num_groups].
  apply Nat.eqb_eq in Hc. rewrite Hc. cbn [bind].
  unfold PatchAdaGroupNorm_normalized, PatchAdaGroupNorm_moments, resolve_height,
    all_gather_int.
  cbn [bind Nat.eqb]. change (2 + n)%nat with (S (S n)).
  rewrite run_gather_int by assumption.
  cbn [ada_num_groups Nat.eqb bind].
  rewrite run_all_raise by assumption. reflexivity.
Qed.

Lemma first_raise_in {A : Type} (ps : list (Prog A)) (e : error) :
  In (Raise e) ps -> first_raise ps <> None.
Proof.
  induction ps as [|p ps IH]; intros Hin; [destruct Hin|].
  destruct Hin as [->|Hin]; [discriminate|].
  destruct p; simpl; auto; discriminate.
Qed.

(** In a group run that completes, no worker's program is a raise. *)
Lemma run_done_not_raise {X A : Type} (n : nat) (f : X -> Prog A) (xs : list X)
    (rs : list round) (ms : list A) (x : X) (e : error) :
  run_group n (map f xs) = (rs, Done ms) -> In x xs -> f x <> Raise e.
Proof.
  intros Hrun Hin Hfx. destruct n as [|n]; [discriminate|].
  cbn [run_group] in Hrun.
  destruct (first_raise (map f xs)) eqn:E; [discriminate|].
  apply (first_raise_in (map f xs) e); [|exact E].
  rewrite <- Hfx. apply in_map. exact Hin.
Qed.

(** X13. The estimator of [PatchAdaGroupNorm] completes on no group of workers
    unless the layer has one group and every shard holds one batch entry:
    [sum_to_size(B, G)] aligns the requested size with the trailing axes of
    the 4-D shard, and [torch.tensor] converts the gathered [B, G] buffers
    only when they hold one element. *)
Theorem ada_estimator_needs_one_group_one_batch (G : nat) (xs : list Tensor4)
    (n : nat) (rs : list round) (ms : list (R * R)) :
  xs <> [] ->
  run_group n (map (PatchAdaGroupNorm_moments G) xs) = (rs, Done ms) ->
  G = 1%nat /\ forall x, In x xs -> dimB x = 1%nat.
Proof.
  intros Hne Hrun.
  assert (Hall : forall x, In x xs -> (dimB x * G)%nat = 1%nat).
  2:{ destruct xs as [|x0 xs0]; [congruence|].
      pose proof (Hall x0 (or_introl eq_refl)) as H0.
      apply Nat.eq_mul_1 in H0. split; [apply H0|].
      intros x Hin. pose proof (Hall x Hin) as H1. apply Nat.eq_mul_1 in H1. apply H1. }
  destruct n as [|n]; [discriminate|].
  unfold PatchAdaGroupNorm_moments, resolve_height, all_gather_int, all_gather in Hrun.
  cbn [bind] in Hrun.
  rewrite run_gather_int in Hrun by assumption.
  destruct (run_group n _) as [log o] eqn:E1 in Hrun. cbn [fst snd] in Hrun.
  injection Hrun as _ ->.
  destruct (G =? 0)%nat eqn:EG.
  { destruct xs as [|x0 xs0]; [congruence|].
    exfalso. exact (run_done_not_raise _ _ _ _ _ x0 ZeroDivisionError E1
                      (or_introl eq_refl) eq_refl). }
  set (t := fun x : Tensor4 =>
              mkT2 (dimB x) G (fun i j =>
                sum_n (dimB x) (fun b =>
                sum_n (dimC x) (fun c =>
                reduce_axis (dimB x) (dimH x) i (fun h =>
                reduce_axis G (dimW x) j (fun w => at4 x b c h w)))))).
  assert (Hexp : forall x, In x xs -> sum_to_size2 x (dimB x) G = Ret (t x)).
  { intros x Hin. unfold sum_to_size2.
    destruct (_ && _) eqn:Ec; [reflexivity|]. exfalso.
    apply (run_done_not_raise _ _ _ _ _ x NotExpandable E1 Hin).
    cbn beta. unfold sum_to_size2. rewrite Ec. reflexivity. }
  erewrite (@map_ext_in Tensor4 (Prog (R * R))) in E1.
  2:{ intros x Hin. rewrite (Hexp x Hin). cbn [bind]. reflexivity. }
  destruct n as [|n]; [discriminate|].
  cbn [run_group] in E1.
  rewrite first_raise_gather, all_ret_gather, all_int_gather_tensor, all_tensor_gather
    in E1 by assumption.
  rewrite !map_map in E1. cbn [fst snd] in E1.
  destruct (uniform_shape _); [|discriminate].
  destruct (run_group n _) as [log2 o2] eqn:E2 in E1.
  injection E1 as _ ->.
  destruct (forallb (fun u => (numel2 u =? 1)%nat) (map t xs)) eqn:EF.
  - intros x Hin. rewrite forallb_forall in EF.
    specialize (EF (t x) (in_map t xs x Hin)).
    apply Nat.eqb_eq in EF. exact EF.
  - destruct xs as [|x0 xs0]; [congruence|].
    exfalso.
    apply (run_done_not_raise _ _ _ _ _ x0 NotOneElement E2 (or_introl eq_refl)).
    cbn beta. unfold tensor_of_list at 1.
    change (map (fun x => t x) (x0 :: xs0)) with (map t (x0 :: xs0)).
    rewrite EF. reflexivity.
Qed.

(** X14. Where [PatchAdaGroupNorm] completes (one group, one batch entry), it
    computes what [AdaGroupNorm] computes on the reassembled tensor: every
    worker's output is the corresponding height slice of the single-worker
    output, for the same embedding. *)
Theorem patch_ada_matches_ada_on_reassembled (self : AdaGroupNorm) (C W : nat)
    (xs : list Tensor4) (emb : Tensor2) :
  sharding_ok 1 C W 1 xs = true -> ada_num_groups self = 1%nat ->
  cols emb = in_features (ada_linear self) -> rows emb = 1%nat ->
  out_features (ada_linear self) = (C * 2)%nat ->
  exists outs ref,
    (forall n, run_group (4 + n) (map (fun x => PatchAdaGroupNorm_forward self x emb) xs)
               = (ada_rounds xs, Done outs))
    /\ AdaGroupNorm_forward self (cat_height 1 C W xs) emb = Ret ref
    /\ length outs = length xs
    /\ forall r x o, nth_error xs r = Some x -> nth_error outs r = Some o ->
         dimB o = dimB x /\ dimC o = dimC x /\ dimH o = dimH x /\ dimW o = dimW x
         /\ forall c h w, (c < C)%nat -> (h < dimH x)%nat ->
              at4 o 0 c h w = at4 ref 0 c (row_offset xs r + h)%nat w.
Proof.
  intros Hok HG Hce Hre Hout.
  destruct (sharding_facts _ _ _ _ _ Hok) as (_ & Hx & _ & HC & _).
  destruct (patch_ada_forward_output self C W xs emb Hok HG Hce Hre Hout)
    as (scale & shift & outs & Hp & _ & Hrun & Hall).
  assert (HG1 : (1 <= ada_num_groups self)%nat) by lia.
  assert (Hdiv : (dimC (cat_height 1 C W xs) mod ada_num_groups self = 0)%nat).
  { rewrite HG. apply Nat.mod_1_r. }
  destruct (ada_forward_output self (cat_height 1 C W xs) emb Hce Hre Hout HG1 Hdiv)
    as (scale' & shift' & y & ref & Hp' & Hy & Href & _ & _ & _ & _ & Hval).
  rewrite Hp in Hp'. injection Hp' as <- <-.
  destruct (group_norm_returns (cat_height 1 C W xs) (ada_num_groups self) (ada_eps self)
              HG1 Hdiv) as (y' & Hy' & _ & _ & _ & _ & Hyval).
  rewrite Hy in Hy'. injection Hy' as <-.
  exists outs, ref. split; [exact Hrun|]. split; [exact Href|].
  split; [symmetry; eapply Forall2_length; eassumption|].
  intros r x o Hr Ho.
  destruct (Forall2_nth_error _ _ _ Hall r x o Hr Ho) as (O1 & O2 & O3 & O4 & Hoval).
  repeat (split; [assumption|]).
  intros c h w Hc Hh. pose proof (nth_error_In _ _ Hr) as Hin.
  rewrite (Hoval 0%nat c h w) by lia.
  rewrite (Hval 0%nat c (row_offset xs r + h)%nat w) by (cbn [dimB dimC cat_height]; lia).
  rewrite Hyval. cbn [dimC at4 cat_height].
  rewrite (cat_at_shard xs r x 0 c h w Hr Hh).
  rewrite HG, Nat.div_1_r, (Nat.div_small c C Hc).
  rewrite <- (ada_mean_full C W xs Hok x Hin), <- (ada_variance_full C W xs Hok x Hin).
  reflexivity.
Qed.

(** X15. The projector of a constructed conditioning layer has [2 * out_dim]
    outputs, and the forward call takes the first [out_dim] of them as the
    scale and the last [out_dim] as the shift, each a linear image of the
    activated embedding. *)
Theorem conditioning_scale_and_shift
    (get_activation : String.string -> option (R -> R))
    (embedding_dim out_dim G : nat) (act_fn : option String.string) (e : R)
    (w0 : nat -> nat -> R) (b0 : nat -> R) (self : AdaGroupNorm) (emb : Tensor2) :
  AdaGroupNorm_init get_activation embedding_dim out_dim G act_fn e w0 b0 = Ret self ->
  cols emb = embedding_dim ->
  exists scale shift,
    project (ada_act self) (ada_linear self) emb = Ret (scale, shift)
    /\ rows scale = rows emb /\ cols scale = out_dim
    /\ rows shift = rows emb /\ cols shift = out_dim
    /\ forall b c,
         at2 scale b c
         = sum_n embedding_dim (fun i =>
             match ada_act self with Some f => f (at2 emb b i) | None => at2 emb b i end
             * w0 c i) + b0 c
         /\ at2 shift b c
            = sum_n embedding_dim (fun i =>
                match ada_act self with Some f => f (at2 emb b i) | None => at2 emb b i end
                * w0 (out_dim + c)%nat i) + b0 (out_dim + c)%nat.
Proof.
  intros Hinit Hc.
  assert (Hself : exists act, self = mkAda G e act (mkLinear embedding_dim (out_dim * 2) w0 b0)).
  { unfold AdaGroupNorm_init in Hinit. destruct act_fn as [name|]; cbn [bind] in Hinit.
    - destruct (get_activation name) as [f|]; cbn [bind] in Hinit; [|discriminate].
      injection Hinit as <-. eexists. reflexivity.
    - injection Hinit as <-. eexists. reflexivity. }
  destruct Hself as (act & ->). cbn [ada_act ada_linear].
  destruct (half_of_double out_dim) as (Hh1 & _).
  unfold project, linear_apply. cbn [in_features out_features lin_weight lin_bias].
  assert (Hc' : (cols (match act with Some f => map2 f emb | None => emb end)
                 =? embedding_dim)%nat = true).
  { apply Nat.eqb_eq. destruct act; exact Hc. }
  rewrite Hc'. cbn [bind]. eexists. eexists. split; [reflexivity|].
  cbn [chunk2 rows cols at2]. rewrite Hh1.
  replace (out_dim * 2 - out_dim)%nat with out_dim by lia.
  destruct act; cbn [map2 rows cols at2]; repeat split; reflexivity.
Qed.

(** X16. Nothing at construction ties [out_dim] to the channel count of the
    inputs.  A layer whose [out_dim] is not the channel count of the shards
    (and neither is 1) runs the three rounds of its estimator and fails only
    then, when the scale is applied. *)
Theorem foreign_out_dim_fails_after_three_rounds (self : AdaGroupNorm) (C W d : nat)
    (xs : list Tensor4) (emb : Tensor2) (n : nat) :
  sharding_ok 1 C W 1 xs = true -> ada_num_groups self = 1%nat ->
  cols emb = in_features (ada_linear self) ->
  out_features (ada_linear self) = (d * 2)%nat ->
  d <> C -> d <> 1%nat -> C <> 1%nat ->
  run_group (4 + n) (map (fun x => PatchAdaGroupNorm_forward self x emb) xs)
  = (ada_rounds xs, Failed BroadcastMismatch).
Proof.
  intros Hok HG Hce Hout H1 H2 H3.
  destruct (sharding_facts _ _ _ _ _ Hok) as (Hne & Hx & _).
  destruct (project_returns (ada_act self) (ada_linear self) emb Hce)
    as (scale & shift & Hp & _ & Hcs & _).
  rewrite Hout in Hcs. destruct (half_of_double d) as [Hh1 _]. rewrite Hh1 in Hcs.
  unfold PatchAdaGroupNorm_forward, PatchAdaGroupNorm_normalized.
  rewrite Hp, HG. cbn [bind fst snd].
  change (4 + n)%nat with (S (S (S (S n)))).
  step_ada_rounds Tensor4 xs Hne Hx.
  rewrite (map_ext_in _ (fun _ => Raise BroadcastMismatch)).
  - rewrite run_all_raise by assumption. reflexivity.
  - intros x Hin. destruct (Hx x Hin) as (_ & Hc & _).
    unfold scale_shift4. cbn [map4 dimB dimC]. rewrite Hc, Hcs.
    rewrite (broadcast_refused C d) by congruence.
    destruct (broadcast (dimB x) (rows scale)); reflexivity.
Qed.

(** ** The theorems on concrete inputs *)

(** Two runs of one worker on a two-channel, two-group shard that differ in
    channel 0 only. *)
Lemma two_channel_shards_agree :
  Forall2 (agree_outside 2 2 0) [two_channels 1] [two_channels 7].
Proof.
  constructor; [|constructor]. split; [reflexivity|].
  intros b c h w Hc Hne. cbn [at4 two_channels].
  destruct c as [|[|c]]; [exfalso; apply Hne; reflexivity | reflexivity | lia].
Qed.

Lemma distributed_matches_unsharded_witness :
  sharding_ok 1 1 4 (num_groups scenario_layer) [shard_A; shard_B] = true
  /\ exists ms ys ref,
       (forall n, run_group (4 + n) (map (PatchGroupNorm_moments 1) [shard_A; shard_B])
                  = (three_rounds 1 [shard_A; shard_B], Done ms))
       /\ (forall n, run_group (4 + n) (map (PatchGroupNorm_normalized scenario_layer)
                                            [shard_A; shard_B])
                     = (three_rounds 1 [shard_A; shard_B], Done ys))
       /\ group_norm (cat_height 1 1 4 [shard_A; shard_B]) 1 (1 / 100000) = Ret ref
       /\ (forall m, In m ms -> forall b g,
             at2 (snd (fst m)) b g = group_mean 1 (cat_height 1 1 4 [shard_A; shard_B]) b g
             /\ at2 (snd m) b g = group_var 1 (cat_height 1 1 4 [shard_A; shard_B]) b g)
       /\ (forall r x y, nth_error [shard_A; shard_B] r = Some x ->
             nth_error ys r = Some y ->
             forall b c h w,
               (b < 1)%nat -> (c < 1)%nat -> (h < dimH x)%nat -> (w < 4)%nat ->
               at4 y b c h w = at4 ref b c (row_offset [shard_A; shard_B] r + h)%nat w).
Proof.
  split; [reflexivity|].
  destruct (distributed_matches_unsharded scenario_layer 1 1 4 [shard_A; shard_B] eq_refl)
    as (ms & ys & ref & Hm & Hy & Href & _ & _ & Hstat & Hslice & _).
  exists ms, ys, ref. split; [exact Hm|]. split; [exact Hy|]. split; [exact Href|].
  split; [exact Hstat|].
  intros r x y Hx Hyr. destruct (Hslice r x y Hx Hyr) as (_ & _ & _ & _ & H). exact H.
Defined.

Lemma round_one_mean_witness :
  sharding_ok 1 1 4 1 [shard_A; shard_B] = true
  /\ exists sums vars ms,
       (forall n, run_group (2 + n) (map resolve_height [shard_A; shard_B])
                  = ([IntExchange [2%Z; 2%Z]], Done [4%Z; 4%Z]))
       /\ (forall n, run_group (4 + n) (map (PatchGroupNorm_moments 1) [shard_A; shard_B])
                     = ([IntExchange [2%Z; 2%Z]; TensorExchange sums; TensorExchange vars],
                        Done ms))
       /\ forall m, In m ms -> forall b g,
            at2 (snd (fst m)) b g
            = sum_list (map (fun t => at2 t b g) sums) / INR (1 / 1 * 4 * 4).
Proof.
  split; [reflexivity|].
  destruct (round_one_mean 1 1 4 1 [shard_A; shard_B] eq_refl)
    as (sums & vars & ms & Hh & Hrun & _ & _ & _ & Hmean & _).
  exists sums, vars, ms. split; [exact Hh|]. split; [exact Hrun|].
  intros m Hm b g. apply (Hmean m Hm).
Defined.

Lemma round_two_variance_witness :
  sharding_ok 1 1 4 1 [shard_A; shard_B] = true
  /\ exists (vars : list Tensor2) (ms : list (Tensor5 * Tensor2 * Tensor2)),
       length vars = 2%nat /\ length ms = 2%nat
       /\ (forall t, nth_error vars 0 = Some t -> at2 t 0 0 = 8)
       /\ forall m, In m ms -> forall b g,
            at2 (snd m) b g
            = sum_list (map (fun t => at2 t b g) vars) / INR (1 / 1 * 4 * 4)
            /\ at2 (snd m) b g = group_var 1 (cat_height 1 1 4 [shard_A; shard_B]) b g.
Proof.
  split; [reflexivity|].
  destruct (round_two_variance 1 1 4 1 [shard_A; shard_B] eq_refl)
    as (sums & vars & ms & _ & Hlv & Hlm & Hdev & Hvar & _).
  exists vars, ms. split; [exact Hlv|]. split; [exact Hlm|]. split; [|exact Hvar].
  intros t Ht.
  destruct ms as [|m ms']; [discriminate Hlm|].
  destruct (Hdev 0%nat shard_A t m eq_refl Ht eq_refl 0%nat 0%nat) as [-> ->].
  unfold group_total, sq_dev, group_mean, group_total.
  rewrite INR_IZR_INZ. simpl. lra.
Defined.

Lemma group_isolation_witness :
  sharding_ok 1 2 1 2 [two_channels 1] = true
  /\ sharding_ok 1 2 1 2 [two_channels 7] = true
  /\ exists ms ms',
       (forall n, run_group (4 + n) (map (PatchGroupNorm_moments 2) [two_channels 1])
                  = (three_rounds 2 [two_channels 1], Done ms))
       /\ (forall n, run_group (4 + n) (map (PatchGroupNorm_moments 2) [two_channels 7])
                     = (three_rounds 2 [two_channels 7], Done ms'))
       /\ forall m m', In m ms -> In m' ms' ->
            at2 (snd (fst m)) 0 1 = at2 (snd (fst m')) 0 1
            /\ at2 (snd m) 0 1 = at2 (snd m') 0 1.
Proof.
  split; [reflexivity|]. split; [reflexivity|].
  destruct (group_isolation 1 2 1 2 0 [two_channels 1] [two_channels 7]
              eq_refl eq_refl two_channel_shards_agree)
    as (ms & ms' & Hrun & Hrun' & _ & _ & Hsame).
  exists ms, ms'. split; [exact Hrun|]. split; [exact Hrun'|].
  intros m m' Hm Hm'. apply (Hsame m m' Hm Hm' 0%nat 1%nat); [lia | discriminate].
Defined.

Lemma applicator_output_witness :
  (cols embedding_1 = in_features (ada_linear ada_layer_1_group)
   /\ rows embedding_1 = dimB shard_A
   /\ out_features (ada_linear ada_layer_1_group) = (dimC shard_A * 2)%nat
   /\ (1 <= ada_num_groups ada_layer_1_group)%nat
   /\ (dimC shard_A mod ada_num_groups ada_layer_1_group = 0)%nat
   /\ exists o, AdaGroupNorm_forward ada_layer_1_group shard_A embedding_1 = Ret o
                /\ (dimB o, dimC o, dimH o, dimW o) = (1, 1, 2, 4)%nat)
  /\ (sharding_ok 1 1 4 1 [shard_A; shard_B] = true
      /\ ada_num_groups ada_layer_1_group = 1%nat
      /\ exists outs,
           forall n, run_group (4 + n)
                       (map (fun x => PatchAdaGroupNorm_forward ada_layer_1_group x embedding_1)
                            [shard_A; shard_B])
                     = (ada_rounds [shard_A; shard_B], Done outs))
  /\ (weight scenario_layer = Some (mkT1 1 (fun _ => 1))
      /\ bias scenario_layer = Some (mkT1 1 (fun _ => 0))
      /\ exists outs,
           forall n, run_group (4 + n) (map (PatchGroupNorm_forward scenario_layer)
                                            [shard_A; shard_B])
                     = (three_rounds 1 [shard_A; shard_B], Done outs)).
Proof.
  destruct applicator_output as (Hada & Hpatch_ada & Hpatch).
  split; [|split].
  - split; [reflexivity|]. split; [reflexivity|]. split; [reflexivity|].
    split; [apply le_n|]. split; [reflexivity|].
    destruct (Hada ada_layer_1_group shard_A embedding_1
                eq_refl eq_refl eq_refl (le_n 1) eq_refl)
      as (scale & shift & y & o & _ & _ & Ho & H1 & H2 & H3 & H4 & _).
    exists o. split; [exact Ho|]. rewrite H1, H2, H3, H4. reflexivity.
  - split; [reflexivity|]. split; [reflexivity|].
    destruct (Hpatch_ada ada_layer_1_group 1%nat 4%nat [shard_A; shard_B] embedding_1
                eq_refl eq_refl eq_refl eq_refl eq_refl)
      as (scale & shift & ys & outs & _ & _ & Hrun & _).
    exists outs. exact Hrun.
  - split; [reflexivity|]. split; [reflexivity|].
    destruct (Hpatch scenario_layer 1%nat 1%nat 4%nat [shard_A; shard_B]
                (mkT1 1 (fun _ => 1)) (mkT1 1 (fun _ => 0))
                eq_refl eq_refl eq_refl eq_refl eq_refl)
      as (ys & outs & _ & Hrun & _).
    exists outs. exact Hrun.
Defined.

Lemma three_collectives_per_forward_witness :
  (exists tr, returns_after tr (PatchGroupNorm_forward scenario_layer shard_A)
              /\ length tr = 3%nat)
  /\ (exists tr, returns_after tr (PatchAdaGroupNorm_forward ada_layer_1_group shard_A
                                                             embedding_1)
                 /\ length tr = 3%nat)
  /\ sharding_ok 1 1 4 (num_groups scenario_layer) [shard_A; shard_B] = true
  /\ affine_ready scenario_layer 1 = true
  /\ exists sums vars outs,
       forall n, run_group (4 + n) (map (PatchGroupNorm_forward scenario_layer)
                                        [shard_A; shard_B])
                 = ([IntExchange [2%Z; 2%Z]; TensorExchange sums; TensorExchange vars],
                    Done outs).
Proof.
  destruct three_collectives_per_forward as (Hpatch & Hada & Hrun).
  assert (Hp : exists tr, returns_after tr (PatchGroupNorm_forward scenario_layer shard_A)).
  { eexists. unfold PatchGroupNorm_forward, PatchGroupNorm_normalized,
      PatchGroupNorm_moments, resolve_height, all_gather_int, all_gather. cbn [bind].
    apply returns_after_int with (l := [2%Z; 2%Z]).
    cbn [num_groups scenario_layer Nat.eqb]. unfold view5. simpl Nat.modulo.
    cbn [dimB dimC dimH dimW shard_A Nat.mul Nat.add Nat.ltb Nat.leb Nat.eqb andb bind].
    apply returns_after_tensor with (l := []).
    apply returns_after_tensor with (l := []).
    cbn [fst snd]. unfold PatchGroupNorm_normalize, view4.
    cbn [d5B d5G d5K d5H d5W]. simpl Nat.modulo. simpl Nat.div.
    cbn [Nat.mul Nat.add Nat.ltb Nat.leb Nat.eqb andb bind].
    unfold PatchGroupNorm_apply. cbn [weight bias scenario_layer].
    unfold affine4, broadcast. cbn [dimC len Nat.eqb]. apply returns_now. }
  assert (Ha : exists tr, returns_after tr (PatchAdaGroupNorm_forward ada_layer_1_group
                                              shard_A embedding_1)).
  { eexists. unfold PatchAdaGroupNorm_forward, project, linear_apply.
    cbn [ada_act ada_linear ada_layer_1_group cols embedding_1 in_features Nat.eqb bind].
    unfold PatchAdaGroupNorm_normalized, PatchAdaGroupNorm_moments, resolve_height,
      all_gather_int, all_gather.
    cbn [bind]. apply returns_after_int with (l := [2%Z; 2%Z]).
    cbn [ada_num_groups ada_layer_1_group Nat.eqb]. unfold sum_to_size2 at 1.
    cbn [dimB dimC dimH dimW shard_A Nat.eqb orb andb bind].
    apply returns_after_tensor with (l := []).
    cbn [tensor_of_list forallb bind]. unfold sum_to_size2 at 1.
    cbn [map4 dimB dimC dimH dimW shard_A Nat.eqb orb andb bind].
    apply returns_after_tensor with (l := []).
    cbn [tensor_of_list forallb bind fst snd]. unfold scale_shift4, broadcast.
    cbn [map4 dimB dimC chunk2 fst snd rows cols out_features ada_linear
         ada_layer_1_group embedding_1].
    simpl Nat.div. cbn [Nat.eqb Nat.sub]. apply returns_now. }
  split; [|split; [|split; [reflexivity | split; [reflexivity|]]]].
  - destruct Hp as (tr & Htr). exists tr. split; [exact Htr|].
    destruct (Hpatch _ _ _ Htr) as (h & s & v & ->). reflexivity.
  - destruct Ha as (tr & Htr). exists tr. split; [exact Htr|].
    destruct (Hada _ _ _ _ Htr) as (h & s & v & ->). reflexivity.
  - destruct (Hrun scenario_layer 1%nat 1%nat 4%nat [shard_A; shard_B] eq_refl eq_refl)
      as (sums & vars & outs & Hr & _).
    exists sums, vars, outs. exact Hr.
Defined.

(** ** The further properties on concrete inputs *)

Lemma forward_without_affine_raises_witness :
  weight scenario_layer_no_affine = None
  /\ sharding_ok 1 1 4 (num_groups scenario_layer_no_affine) [shard_A; shard_B] = true
  /\ forall n, run_group (4 + n)
                 (map (PatchGroupNorm_forward scenario_layer_no_affine) [shard_A; shard_B])
               = (three_rounds 1 [shard_A; shard_B], Failed NoneNotSubscriptable).
Proof.
  split; [reflexivity|]. split; [reflexivity|].
  exact (proj1 (forward_without_affine_raises scenario_layer_no_affine 1 1 4
                  [shard_A; shard_B] eq_refl eq_refl)).
Defined.

Lemma forward_refuses_indivisible_channels_witness :
  (dimC shard_10_channels mod num_groups layer_3_groups_9_channels)%nat <> 0%nat
  /\ run_group 2 (map (PatchGroupNorm_forward layer_3_groups_9_channels) [shard_10_channels])
     = ([IntExchange [2%Z]], Failed InvalidView).
Proof.
  split; [discriminate|].
  apply (forward_refuses_indivisible_channels layer_3_groups_9_channels
           [shard_10_channels] 0).
  - discriminate.
  - simpl. lia.
  - intros x [<-|[]]. simpl. repeat split; lia.
Defined.

Lemma empty_shard_is_refused_witness :
  dimH empty_shard = 0%nat
  /\ run_group 2 (map (PatchGroupNorm_forward scenario_layer) [shard_A; empty_shard])
     = ([IntExchange [2%Z; 0%Z]], Failed InvalidView).
Proof.
  split; [reflexivity|].
  apply (empty_shard_is_refused scenario_layer [shard_A; empty_shard] empty_shard 0).
  - simpl. lia.
  - right. left. reflexivity.
  - reflexivity.
Defined.

Lemma forward_refuses_foreign_parameters_witness :
  sharding_ok 1 2 1 (num_groups layer_3_channels) [two_channels 1] = true
  /\ run_group 4 (map (PatchGroupNorm_forward layer_3_channels) [two_channels 1])
     = (three_rounds 1 [two_channels 1], Failed BroadcastMismatch).
Proof.
  split; [reflexivity|].
  apply (forward_refuses_foreign_parameters layer_3_channels 1 2 1 [two_channels 1]
           (mkT1 3 (fun _ => 1)) (mkT1 3 (fun _ => 0)) 0);
    try reflexivity; simpl; lia.
Defined.

Lemma forward_widens_single_channel_witness :
  sharding_ok 1 1 4 (num_groups layer_3_channels) [shard_A; shard_B] = true
  /\ exists ys outs,
       (forall n, run_group (4 + n)
                    (map (PatchGroupNorm_forward layer_3_channels) [shard_A; shard_B])
                  = (three_rounds 1 [shard_A; shard_B], Done outs))
       /\ forall r x y o, nth_error [shard_A; shard_B] r = Some x ->
            nth_error ys r = Some y -> nth_error outs r = Some o ->
            dimC o = 3%nat
            /\ forall b c h w, (c < 3)%nat -> at4 o b c h w = at4 y b 0 h w * 1 + 0.
Proof.
  split; [reflexivity|].
  destruct (forward_widens_single_channel layer_3_channels 1 4 [shard_A; shard_B]
              (mkT1 3 (fun _ => 1)) (mkT1 3 (fun _ => 0))
              eq_refl eq_refl eq_refl eq_refl)
    as (ys & outs & _ & Hfwd & Hval).
  exists ys, outs. split; [exact Hfwd|].
  intros r x y o Hx Hy Ho.
  destruct (Hval r x y o Hx Hy Ho) as (_ & H & _ & _ & Hv).
  split; [exact H | exact Hv].
Defined.

Lemma fresh_layer_returns_normalized_witness :
  PatchGroupNorm_init 1 1 (1 / 100000) true = Ret scenario_layer
  /\ sharding_ok 1 1 4 1 [shard_A; shard_B] = true
  /\ exists ys outs,
       (forall n, run_group (4 + n)
                    (map (PatchGroupNorm_normalized scenario_layer) [shard_A; shard_B])
                  = (three_rounds 1 [shard_A; shard_B], Done ys))
       /\ (forall n, run_group (4 + n)
                       (map (PatchGroupNorm_forward scenario_layer) [shard_A; shard_B])
                     = (three_rounds 1 [shard_A; shard_B], Done outs))
       /\ forall r y o, nth_error ys r = Some y -> nth_error outs r = Some o ->
            forall b c h w, (c < 1)%nat -> at4 o b c h w = at4 y b c h w.
Proof.
  split; [reflexivity|]. split; [reflexivity|].
  destruct (fresh_layer_returns_normalized 1 1 (1 / 100000) scenario_layer 1 4
              [shard_A; shard_B] eq_refl eq_refl)
    as (ys & outs & Hnorm & Hfwd & _ & Hval).
  exists ys, outs. split; [exact Hnorm|]. split; [exact Hfwd|].
  intros r y o Hy Ho. destruct (Hval r y o Hy Ho) as (_ & _ & _ & _ & H). exact H.
Defined.

Lemma scenario_eps_pos : 0 < eps scenario_layer.
Proof. simpl. lra. Qed.

Lemma normalized_output_statistics_witness :
  sharding_ok 1 1 4 (num_groups scenario_layer) [shard_A; shard_B] = true
  /\ 0 < eps scenario_layer
  /\ exists ys,
       (forall n, run_group (4 + n)
                    (map (PatchGroupNorm_normalized scenario_layer) [shard_A; shard_B])
                  = (three_rounds 1 [shard_A; shard_B], Done ys))
       /\ sum_list (map (fun y => group_total (fun v => v) 1 y 0 0) ys) = 0.
Proof.
  split; [reflexivity|]. split; [exact scenario_eps_pos|].
  destruct (normalized_output_statistics scenario_layer 1 1 4 [shard_A; shard_B]
              eq_refl scenario_eps_pos) as (ys & Hnorm & Hstat).
  exists ys. split; [exact Hnorm|].
  apply (proj1 (Hstat 0%nat 0%nat (Nat.lt_0_succ 0))).
Defined.

Lemma variance_is_nonnegative_witness :
  sharding_ok 1 1 4 (num_groups scenario_layer) [shard_A; shard_B] = true
  /\ exists ms,
       (forall n, run_group (4 + n) (map (PatchGroupNorm_moments 1) [shard_A; shard_B])
                  = (three_rounds 1 [shard_A; shard_B], Done ms))
       /\ forall m, In m ms -> forall b g, 0 <= at2 (snd m) b g.
Proof.
  split; [reflexivity|].
  destruct (variance_is_nonnegative scenario_layer 1 1 4 [shard_A; shard_B] eq_refl)
    as (ms & Hrun & Hvar).
  exists ms. split; [exact Hrun|].
  intros m Hm b g. apply (proj1 (Hvar m Hm b g)).
Defined.

Lemma constant_input_returns_bias_witness :
  sharding_ok 1 1 4 (num_groups scenario_layer) [shard_A; shard_A] = true
  /\ affine_ready scenario_layer 1 = true
  /\ 0 < eps scenario_layer
  /\ (forall x, In x [shard_A; shard_A] -> forall b ch h w, at4 x b ch h w = 1)
  /\ exists (ms : list (Tensor5 * Tensor2 * Tensor2)) outs,
       (forall n, run_group (4 + n)
                    (map (PatchGroupNorm_forward scenario_layer) [shard_A; shard_A])
                  = (three_rounds 1 [shard_A; shard_A], Done outs))
       /\ (forall m, In m ms -> forall b g,
             at2 (snd (fst m)) b g = 1 /\ at2 (snd m) b g = 0)
       /\ forall o, In o outs -> forall b h w, at4 o b 0 h w = 0.
Proof.
  assert (Hc : forall x, In x [shard_A; shard_A] ->
                 forall b ch h w, at4 x b ch h w = 1).
  { intros x [<-|[<-|[]]]; reflexivity. }
  split; [reflexivity|]. split; [reflexivity|]. split; [exact scenario_eps_pos|].
  split; [exact Hc|].
  destruct (constant_input_returns_bias scenario_layer 1 1 4 [shard_A; shard_A] 1
              eq_refl eq_refl scenario_eps_pos Hc)
    as (ms & outs & _ & Hfwd & Hm & Ho).
  exists ms, outs. split; [exact Hfwd|]. split; [exact Hm|].
  intros o Hin b h w.
  apply (Ho o (mkT1 1 (fun _ => 0)) Hin eq_refl b 0%nat h w (Nat.lt_0_succ 0)).
Defined.

Lemma shard_boundaries_do_not_matter_witness :
  list_sum [2; 2]%nat = dimH full_image
  /\ list_sum [1; 3]%nat = dimH full_image
  /\ sharding_ok 1 1 4 1 (split_rows full_image 0 [2; 2]%nat) = true
  /\ sharding_ok 1 1 4 1 (split_rows full_image 0 [1; 3]%nat) = true
  /\ exists ys ys',
       (forall n, run_group (4 + n)
                    (map (PatchGroupNorm_normalized scenario_layer)
                         (split_rows full_image 0 [2; 2]%nat))
                  = (three_rounds 1 (split_rows full_image 0 [2; 2]%nat), Done ys))
       /\ (forall n, run_group (4 + n)
                       (map (PatchGroupNorm_normalized scenario_layer)
                            (split_rows full_image 0 [1; 3]%nat))
                     = (three_rounds 1 (split_rows full_image 0 [1; 3]%nat), Done ys'))
       /\ forall y y' b w,
            nth_error ys 0 = Some y -> nth_error ys' 1 = Some y' ->
            at4 y b 0 1 w = at4 y' b 0 0 w.
Proof.
  split; [reflexivity|]. split; [reflexivity|]. split; [reflexivity|].
  split; [reflexivity|].
  destruct (shard_boundaries_do_not_matter scenario_layer full_image [2; 2]%nat [1; 3]%nat
              eq_refl eq_refl eq_refl eq_refl)
    as (ms & ms' & ys & ys' & _ & _ & Hys & Hys' & _ & Hval).
  exists ys, ys'. split; [exact Hys|]. split; [exact Hys'|].
  intros y y' b w Hy Hy'.
  apply (Hval 0%nat 1%nat _ _ y y' 1%nat 0%nat b 0%nat w eq_refl Hy eq_refl Hy').
  - simpl. lia.
  - simpl. lia.
  - simpl. lia.
  - reflexivity.
Defined.

Lemma embedding_refused_before_any_collective_witness :
  cols embedding_2 <> in_features (ada_linear ada_layer_1_group)
  /\ run_group 1 (map (fun x => PatchAdaGroupNorm_forward ada_layer_1_group x embedding_2)
                      [shard_A; shard_B])
     = ([], Failed ShapeMismatch).
Proof.
  split; [discriminate|].
  refine (proj1 (embedding_refused_before_any_collective ada_layer_1_group
                   [shard_A; shard_B] embedding_2 0 _ _)); discriminate.
Defined.

Lemma zero_groups_fail_after_height_exchange_witness :
  cols embedding_1 = 1%nat
  /\ exists self,
       PatchAdaGroupNorm_init (fun _ => None) 1 1 0 None (1 / 100000)
                              (fun _ _ => 0) (fun _ => 0) = Ret self
       /\ run_group 2 (map (fun x => PatchAdaGroupNorm_forward self x embedding_1)
                           [shard_A; shard_B])
          = ([IntExchange [2%Z; 2%Z]], Failed ZeroDivisionError).
Proof.
  split; [reflexivity|].
  refine (zero_groups_fail_after_height_exchange (fun _ => None) 1 1 (1 / 100000)
            (fun _ _ => 0) (fun _ => 0) [shard_A; shard_B] embedding_1 0 _ eq_refl).
  discriminate.
Defined.

Lemma ada_estimator_needs_one_group_one_batch_witness :
  run_group 4 (map (PatchAdaGroupNorm_moments 1) [shard_A; shard_B])
  = (ada_rounds [shard_A; shard_B],
     Done (map (fun x => (ada_mean [shard_A; shard_B] x, ada_variance [shard_A; shard_B] x))
               [shard_A; shard_B]))
  /\ forall x, In x [shard_A; shard_B] -> dimB x = 1%nat.
Proof.
  assert (Hrun : run_group 4 (map (PatchAdaGroupNorm_moments 1) [shard_A; shard_B])
                 = (ada_rounds [shard_A; shard_B],
                    Done (map (fun x => (ada_mean [shard_A; shard_B] x,
                                         ada_variance [shard_A; shard_B] x))
                              [shard_A; shard_B]))).
  { exact (run_ada_moments 1 4 [shard_A; shard_B] 0 eq_refl). }
  split; [exact Hrun|].
  refine (proj2 (ada_estimator_needs_one_group_one_batch 1 [shard_A; shard_B] 4 _ _ _ Hrun)).
  discriminate.
Defined.

Lemma patch_ada_matches_ada_on_reassembled_witness :
  sharding_ok 1 1 4 1 [shard_A; shard_B] = true
  /\ ada_num_groups ada_layer_1_group = 1%nat
  /\ cols embedding_1 = in_features (ada_linear ada_layer_1_group)
  /\ rows embedding_1 = 1%nat
  /\ out_features (ada_linear ada_layer_1_group) = (1 * 2)%nat
  /\ exists outs ref,
       (forall n, run_group (4 + n)
                    (map (fun x => PatchAdaGroupNorm_forward ada_layer_1_group x embedding_1)
                         [shard_A; shard_B])
                  = (ada_rounds [shard_A; shard_B], Done outs))
       /\ AdaGroupNorm_forward ada_layer_1_group (cat_height 1 1 4 [shard_A; shard_B])
                                embedding_1 = Ret ref
       /\ forall r x o, nth_error [shard_A; shard_B] r = Some x ->
            nth_error outs r = Some o ->
            forall c h w, (c < 1)%nat -> (h < dimH x)%nat ->
              at4 o 0 c h w = at4 ref 0 c (row_offset [shard_A; shard_B] r + h)%nat w.
Proof.
  repeat (split; [reflexivity|]).
  destruct (patch_ada_matches_ada_on_reassembled ada_layer_1_group 1 4 [shard_A; shard_B]
              embedding_1 eq_refl eq_refl eq_refl eq_refl eq_refl)
    as (outs & ref & Hrun & Href & _ & Hval).
  exists outs, ref. split; [exact Hrun|]. split; [exact Href|].
  intros r x o Hx Ho. destruct (Hval r x o Hx Ho) as (_ & _ & _ & _ & H). exact H.
Defined.

Lemma conditioning_scale_and_shift_witness :
  AdaGroupNorm_init (fun _ => None) 1 1 1 None (1 / 100000) (fun _ _ => 0) (fun _ => 0)
  = Ret ada_layer_1_group
  /\ cols embedding_1 = 1%nat
  /\ exists scale shift,
       project (ada_act ada_layer_1_group) (ada_linear ada_layer_1_group) embedding_1
       = Ret (scale, shift)
       /\ cols scale = 1%nat /\ cols shift = 1%nat.
Proof.
  split; [reflexivity|]. split; [reflexivity|].
  destruct (conditioning_scale_and_shift (fun _ => None) 1 1 1 None (1 / 100000)
              (fun _ _ => 0) (fun _ => 0) ada_layer_1_group embedding_1 eq_refl eq_refl)
    as (scale & shift & Hp & _ & Hcs & _ & Hch & _).
  exists scale, shift. split; [exact Hp|]. split; [exact Hcs | exact Hch].
Defined.

Lemma foreign_out_dim_fails_after_three_rounds_witness :
  sharding_ok 1 2 1 1 [two_channels 1] = true
  /\ ada_num_groups ada_layer_3_out = 1%nat
  /\ cols embedding_1 = in_features (ada_linear ada_layer_3_out)
  /\ out_features (ada_linear ada_layer_3_out) = (3 * 2)%nat
  /\ run_group 4 (map (fun x => PatchAdaGroupNorm_forward ada_layer_3_out x embedding_1)
                      [two_channels 1])
     = (ada_rounds [two_channels 1], Failed BroadcastMismatch).
Proof.
  repeat (split; [reflexivity|]).
  refine (foreign_out_dim_fails_after_three_rounds ada_layer_3_out 2 1 3 [two_channels 1]
            embedding_1 0 eq_refl eq_refl eq_refl eq_refl _ _ _); lia.
Defined.
